(** * Frontmatter migration of skill documents (scripts/migrate-frontmatter.py)

    A shallow embedding of the migration script: the header parser with its
    two modes, the header builder, the related-skills extractor, the textual
    splice, the two per-document migration passes with the driver loops, and
    [main] with its options, its selection of directories and its summary.

    Text is a [string] of characters with code points below 256; the text
    of a file is what [read_text] returns and [write_text] takes.  A Python
    [dict] is a [gmap string value] where only lookups are made, and an
    association list where its order is printed.  The PyYAML reader is a
    library outside the repository: it is a parameter of the parser, which
    returns a mapping of strings, lists of strings and nested mappings, or
    raises. *)

From Stdlib Require Import Ascii.
From stdpp Require Import gmap strings list fin_maps sorting.

Local Open Scope char_scope.

(** ** Python string primitives *)

Module Py.

Definition NL : string := String "010" "".

(** The double quote character. *)
Definition DQ : ascii := "034".

Definition code (c : ascii) : N := N_of_ascii c.

(** [str.isspace] on one character, which is also the class [\s] of [re]
    on [str] patterns. *)
Definition is_space (c : ascii) : bool :=
  let n := code c in
  ((9 <=? n) && (n <=? 13) || (28 <=? n) && (n <=? 32)
   || (n =? 133) || (n =? 160))%N.

Definition eqb_char (a b : ascii) : bool := Ascii.eqb a b.

(** [s.startswith(p)], returning what follows the prefix. *)
Fixpoint strip_prefix (p s : string) : option string :=
  match p, s with
  | EmptyString, _ => Some s
  | String a p', String b s' =>
      if eqb_char a b then strip_prefix p' s' else None
  | String _ _, EmptyString => None
  end.

Definition startswith (s p : string) : bool :=
  bool_decide (is_Some (strip_prefix p s)).

(** [s.partition(sep)] at the leftmost occurrence of [sep]: the text before
    and the text after it, or [None] when [sep] does not occur. *)
Fixpoint partition (sep s : string) : option (string * string) :=
  match strip_prefix sep s with
  | Some r => Some (EmptyString, r)
  | None =>
      match s with
      | EmptyString => None
      | String c s' =>
          match partition sep s' with
          | Some (a, b) => Some (String c a, b)
          | None => None
          end
      end
  end.

(** [sub in s] on strings. *)
Definition contains (sub s : string) : bool :=
  bool_decide (is_Some (partition sub s)).

(** [s.split(sep, 2)]: at most two cuts, so at most three parts. *)
Definition split2 (sep s : string) : list string :=
  match partition sep s with
  | None => [s]
  | Some (a, r) =>
      match partition sep r with
      | None => [a; r]
      | Some (b, c) => [a; b; c]
      end
  end.

(** [s.split("\n")]: the one-character separator the script splits lines
    with.  The empty text splits into one empty line. *)
Fixpoint split_lines (s : string) : list string :=
  match s with
  | EmptyString => [EmptyString]
  | String c s' =>
      if eqb_char c "010" then EmptyString :: split_lines s'
      else match split_lines s' with
           | l :: ls => String c l :: ls
           | [] => [String c EmptyString]
           end
  end.

(** [sep.join(parts)] *)
Definition join (sep : string) (parts : list string) : string :=
  String.concat sep parts.

Fixpoint lstrip_with (f : ascii -> bool) (s : string) : string :=
  match s with
  | EmptyString => EmptyString
  | String c s' => if f c then lstrip_with f s' else s
  end.

Fixpoint rstrip_with (f : ascii -> bool) (s : string) : string :=
  match s with
  | EmptyString => EmptyString
  | String c s' =>
      match rstrip_with f s' with
      | EmptyString => if f c then EmptyString else String c EmptyString
      | r => String c r
      end
  end.

(** [s.strip()] *)
Definition strip (s : string) : string :=
  rstrip_with is_space (lstrip_with is_space s).

Fixpoint mem_char (c : ascii) (chars : string) : bool :=
  match chars with
  | EmptyString => false
  | String a r => eqb_char a c || mem_char c r
  end.

(** [s.lstrip(chars)] *)
Definition lstrip_chars (chars s : string) : string :=
  lstrip_with (fun c => mem_char c chars) s.

Fixpoint map_chars (f : ascii -> ascii) (s : string) : string :=
  match s with
  | EmptyString => EmptyString
  | String c s' => String (f c) (map_chars f s')
  end.

(** [s.lower()] on code points below 256. *)
Definition lower_char (c : ascii) : ascii :=
  let n := code c in
  if ((65 <=? n) && (n <=? 90)
      || (192 <=? n) && (n <=? 222) && negb (n =? 215))%N
  then ascii_of_N (n + 32) else c.

Definition lower (s : string) : string := map_chars lower_char s.

(** [s.replace(a, b)] for one-character [a] and [b]. *)
Definition replace_char (a b : ascii) (s : string) : string :=
  map_chars (fun c => if eqb_char c a then b else c) s.

(** [repr(s)] of a string: the quote is the apostrophe unless the text
    holds an apostrophe and no double quote; backslash, the quote and the
    characters that are not printable are escaped. *)
Definition hex_digit (n : N) : ascii :=
  if (n <? 10)%N then ascii_of_N (48 + n) else ascii_of_N (87 + n).

Definition printable (c : ascii) : bool :=
  let n := code c in
  ((32 <=? n) && (n <? 127) || (161 <=? n) && negb (n =? 173))%N.

Definition repr_char (quote c : ascii) : string :=
  if eqb_char c quote || eqb_char c "\" then String "\" (String c "")
  else if eqb_char c "009" then "\t"
  else if eqb_char c "010" then "\n"
  else if eqb_char c "013" then "\r"
  else if printable c then String c ""
  else String "\" (String "x"
         (String (hex_digit (code c / 16)) (String (hex_digit (code c mod 16)) ""))).

Fixpoint repr_body (quote : ascii) (s : string) : string :=
  match s with
  | EmptyString => EmptyString
  | String c s' => repr_char quote c +:+ repr_body quote s'
  end.

Definition repr (s : string) : string :=
  let quote :=
    if mem_char "'" s && negb (mem_char DQ s) then DQ else "'" in
  String quote (repr_body quote s +:+ String quote "").

End Py.

Import Py.
Local Close Scope char_scope.

(** ** Data model *)

(** A header value: a scalar string, a sequence of strings, or a nested
    group (the [metadata] mapping the full reader returns). *)
#[warnings="-register-all"]
Inductive value :=
| VStr (s : string)
| VList (l : list string)
| VMap (m : list (string * value)).

(** The parsed header: a [dict] the script only looks keys up in. *)
Abbreviation fields := (gmap string value).

(** A computation that may raise an exception the script does not catch. *)
Inductive result (A : Type) :=
| Ret (a : A)
| Raise.
Arguments Ret {A} a.
Arguments Raise {A}.

#[global] Instance result_ret : MRet result := @Ret.

#[global] Instance result_bind : MBind result := fun A B k r =>
  match r with
  | Ret a => k a
  | Raise => Raise
  end.

Lemma Ret_inj {A} (a b : A) : Ret a = Ret b → a = b.
Proof. by intros [= ->]. Qed.

(** [repr(v)] and [str(v)] of a header value, as an f-string prints it. *)
Fixpoint py_repr (v : value) : string :=
  match v with
  | VStr s => repr s
  | VList l => "[" +:+ join ", " (map repr l) +:+ "]"
  | VMap m =>
      "{" +:+ join ", "
        ((fix items (m : list (string * value)) : list string :=
            match m with
            | [] => []
            | (k, x) :: m' => (repr k +:+ ": " +:+ py_repr x) :: items m'
            end) m) +:+ "}"
  end.

Definition py_str (v : value) : string :=
  match v with
  | VStr s => s
  | _ => py_repr v
  end.

(** [k in v] for a header value [v]: substring, element or key. *)
Definition py_in (k : string) (v : value) : bool :=
  match v with
  | VStr s => contains k s
  | VList l => bool_decide (k ∈ l)
  | VMap m => bool_decide (k ∈ m.*1)
  end.

(** ** SKILL_DOMAIN_MAP *)

Definition SKILL_DOMAIN_MAP : gmap string string :=
  list_to_map
    [ ("python-pro", "language"); ("typescript-pro", "language");
      ("javascript-pro", "language"); ("golang-pro", "language");
      ("rust-engineer", "language"); ("sql-pro", "language");
      ("cpp-pro", "language"); ("swift-expert", "language");
      ("kotlin-specialist", "language"); ("csharp-developer", "language");
      ("php-pro", "language"); ("java-architect", "language");
      ("nestjs-expert", "backend"); ("django-expert", "backend");
      ("fastapi-expert", "backend"); ("spring-boot-engineer", "backend");
      ("laravel-specialist", "backend"); ("rails-expert", "backend");
      ("dotnet-core-expert", "backend");
      ("react-expert", "frontend"); ("nextjs-developer", "frontend");
      ("vue-expert", "frontend"); ("vue-expert-js", "frontend");
      ("angular-architect", "frontend"); ("react-native-expert", "frontend");
      ("flutter-expert", "frontend");
      ("kubernetes-specialist", "infrastructure");
      ("terraform-engineer", "infrastructure");
      ("postgres-pro", "infrastructure"); ("cloud-architect", "infrastructure");
      ("database-optimizer", "infrastructure");
      ("graphql-architect", "api-architecture");
      ("api-designer", "api-architecture");
      ("websocket-engineer", "api-architecture");
      ("microservices-architect", "api-architecture");
      ("mcp-developer", "api-architecture");
      ("architecture-designer", "api-architecture");
      ("test-master", "quality"); ("playwright-expert", "quality");
      ("code-reviewer", "quality"); ("code-documenter", "quality");
      ("debugging-wizard", "quality");
      ("devops-engineer", "devops"); ("monitoring-expert", "devops");
      ("sre-engineer", "devops"); ("chaos-engineer", "devops");
      ("cli-developer", "devops");
      ("secure-code-guardian", "security"); ("security-reviewer", "security");
      ("fullstack-guardian", "security");
      ("pandas-pro", "data-ml"); ("spark-engineer", "data-ml");
      ("ml-pipeline", "data-ml"); ("prompt-engineer", "data-ml");
      ("rag-architect", "data-ml"); ("fine-tuning-expert", "data-ml");
      ("salesforce-developer", "platform"); ("shopify-expert", "platform");
      ("wordpress-pro", "platform"); ("atlassian-mcp", "platform");
      ("legacy-modernizer", "specialized"); ("embedded-systems", "specialized");
      ("game-developer", "specialized");
      ("feature-forge", "workflow"); ("spec-miner", "workflow") ].

(** ** parse_frontmatter *)

(** The state of the fallback parser's loop: the mapping built so far, and
    [current_key] with [current_list] ([None] for Python's [None]). *)
Record simple_state := SimpleState {
  frontmatter : fields;
  current_key : option string;
  current_list : option (list string)
}.

(** [if current_key and current_list is not None: frontmatter[current_key] = current_list] *)
Definition flush_pending (st : simple_state) : fields :=
  match current_key st, current_list st with
  | Some k, Some l =>
      if bool_decide (k = "") then frontmatter st
      else <[k := VList l]> (frontmatter st)
  | _, _ => frontmatter st
  end.

(** One turn of the loop over the header's lines. *)
Definition simple_step (st : simple_state) (line : string) : simple_state :=
  if bool_decide (strip line = "") then st
  else if startswith line "  - " || startswith line "    - " then
    match current_key st, current_list st with
    | Some k, Some l =>
        if bool_decide (k = "") then st
        else
          let item := strip (lstrip_chars "- " (strip line)) in
          SimpleState (frontmatter st) (Some k) (Some (l ++ [item]))
    | _, _ => st
    end
  else if contains ":" line && negb (startswith line " ") then
    let fm := flush_pending st in
    match partition ":" line with
    | Some (k, v) =>
        let key := strip k in
        let val := strip v in
        if bool_decide (val = "") then SimpleState fm (Some key) (Some [])
        else SimpleState (<[key := VStr val]> fm) None None
    | None => st
    end
  else st.

(** The fallback parser: the loop over [yaml_str.strip().split("\n")] and
    the flush after it. *)
Definition simple_parse (yaml_str : string) : fields :=
  flush_pending
    (foldl simple_step (SimpleState ∅ None None) (split_lines (strip yaml_str))).

Section Parser.

(** [HAS_PYYAML]: whether the import of the full reader succeeded. *)
Variable HAS_PYYAML : bool.

(** [yaml.safe_load]: [Ret None] for an empty document, [Ret (Some m)] for
    a mapping, [Raise] when the reader raises. *)
Variable safe_load : string -> result (option fields).

(** [(None, content)] when there is no header, else the mapping and the body. *)
Definition parse_frontmatter (content : string)
    : result (option fields * string) :=
  if negb (startswith content "---") then Ret (None, content)
  else
    match split2 "---" content with
    | [_; yaml_str; body] =>
        if HAS_PYYAML then
          loaded ← safe_load yaml_str;
          Ret (Some (default ∅ loaded), body)
        else Ret (Some (simple_parse yaml_str), body)
    | _ => Ret (None, content)
    end.

End Parser.

(** ** build_new_frontmatter *)

(** The characters of [":#{}[]|>&*!%@`"]. *)
Definition YAML_SPECIALS : list string :=
  [":"; "#"; "{"; "}"; "["; "]"; "|"; ">"; "&"; "*"; "!"; "%"; "@"; "`"].

(** [any(c in desc for c in ":#{}[]|>&*!%@`")] *)
Definition needs_quotes (desc : value) : bool :=
  existsb (fun c => py_in c desc) YAML_SPECIALS.

(** [fm[key]]: raises [KeyError] when the key is absent. *)
Definition getitem (fm : fields) (key : string) : result value :=
  match fm !! key with
  | Some v => Ret v
  | None => Raise
  end.

(** The line appended when [key in fm]. *)
Definition optional_line (fm : fields) (indent key : string) : list string :=
  match fm !! key with
  | Some v => [indent +:+ key +:+ ": " +:+ py_str v]
  | None => []
  end.

Definition description_line (desc : value) : string :=
  if needs_quotes desc
  then "description: " +:+ String DQ (py_str desc +:+ String DQ "")
  else "description: " +:+ py_str desc.

(** [", ".join(triggers)] for a list, [str(triggers)] otherwise. *)
Definition triggers_str (fm : fields) : string :=
  match default (VList []) (fm !! "triggers") with
  | VList l => join ", " l
  | v => py_str v
  end.

(** The list [lines] of [build_new_frontmatter], in the order of its appends. *)
Definition frontmatter_lines (fm : fields) (skill_name : string)
    : result (list string) :=
  name ← getitem fm "name";
  desc ← getitem fm "description";
  Ret (["---"; "name: " +:+ py_str name; description_line desc; "license: MIT"]
       ++ optional_line fm "" "allowed-tools"
       ++ ["metadata:";
           "  author: https://github.com/Jeffallan";
           "  version: " +:+ String DQ ("1.0.0" +:+ String DQ "");
           "  domain: " +:+ default "unknown" (SKILL_DOMAIN_MAP !! skill_name);
           "  triggers: " +:+ triggers_str fm]
       ++ optional_line fm "  " "role"
       ++ optional_line fm "  " "scope"
       ++ optional_line fm "  " "output-format"
       ++ ["---"]).

Definition build_new_frontmatter (fm : fields) (skill_name : string)
    : result string :=
  lines ← frontmatter_lines fm skill_name;
  Ret (join NL lines).

(** ** extract_related_skills *)

(** [\s*\n] with the greedy star backtracking: the text after the last
    newline of the whitespace run at the start of [s]. *)
Fixpoint after_blank_newline (s : string) : option string :=
  match s with
  | EmptyString => None
  | String c s' =>
      if is_space c then
        match after_blank_newline s' with
        | Some r => Some r
        | None => if eqb_char c "010" then Some s' else None
        end
      else None
  end.

(** [(.*?)(?=\n## |\Z)] under DOTALL: the shortest text up to a line that
    starts with "## ", or up to the end. *)
Fixpoint until_heading (s : string) : string :=
  if startswith s (NL +:+ "## ") then EmptyString
  else match s with
       | EmptyString => EmptyString
       | String c s' => String c (until_heading s')
       end.

(** [re.search(r"## Related Skills\s*\n(.*?)(?=\n## |\Z)", body, re.DOTALL)],
    group 1 of the leftmost match. *)
Fixpoint related_section (body : string) : option string :=
  let later :=
    match body with
    | EmptyString => None
    | String _ body' => related_section body'
    end in
  match strip_prefix "## Related Skills" body with
  | Some r =>
      match after_blank_newline r with
      | Some sec => Some (until_heading sec)
      | None => later
      end
  | None => later
  end.

(** [(.+?)\*\*]: at least one character, none a newline, up to the first
    closing pair that follows; the run and the text after the pair. *)
Fixpoint bold_run (s : string) : option (string * string) :=
  match s with
  | EmptyString => None
  | String c s' =>
      if eqb_char c "010" then None
      else match strip_prefix "**" s' with
           | Some rest => Some (String c EmptyString, rest)
           | None =>
               match bold_run s' with
               | Some (g, rest) => Some (String c g, rest)
               | None => None
               end
           end
  end.

(** [re.findall(r"\*\*(.+?)\*\*", section)]: the scan resumes where the last
    match ended; [skip] counts the characters of that match still to pass. *)
Fixpoint findall_bold_from (skip : nat) (s : string) : list string :=
  match s with
  | EmptyString => []
  | String _ s' =>
      match skip with
      | S k => findall_bold_from k s'
      | O =>
          match strip_prefix "**" s ≫= bold_run with
          | Some (g, _) => g :: findall_bold_from (3 + String.length g) s'
          | None => findall_bold_from 0 s'
          end
      end
  end.

Definition findall_bold (section : string) : list string :=
  findall_bold_from 0 section.

(** [name.lower().replace(" ", "-")] *)
Definition dir_name (name : string) : string :=
  replace_char " " "-" (lower name).

Definition extract_related_skills (body : string) (valid_dirs : gset string)
    : string :=
  match related_section body with
  | None => ""
  | Some section =>
      join ", "
        (filter (fun d => d ∈ valid_dirs) (map dir_name (findall_bold section)))
  end.

(** ** add_related_skills_to_frontmatter *)

(** The first loop: every line is kept, and the new line follows the first
    line for which [is_anchor] holds.  The flag is [inserted]. *)
Fixpoint insert_after_first (is_anchor : string -> bool) (new : string)
    (lines : list string) : list string * bool :=
  match lines with
  | [] => ([], false)
  | line :: rest =>
      if is_anchor line then (line :: new :: rest, true)
      else let '(rest', inserted) := insert_after_first is_anchor new rest in
           (line :: rest', inserted)
  end.

(** The second loop, from the last index down: the new line follows the
    last line for which [is_field] holds; [None] when no line does. *)
Fixpoint insert_after_last (is_field : string -> bool) (new : string)
    (lines : list string) : option (list string) :=
  match lines with
  | [] => None
  | line :: rest =>
      match insert_after_last is_field new rest with
      | Some rest' => Some (line :: rest')
      | None => if is_field line then Some (line :: new :: rest) else None
      end
  end.

Definition is_output_format (line : string) : bool :=
  startswith (strip line) "output-format:".

Definition is_metadata_field (line : string) : bool :=
  startswith line "  " && contains ":" line.

Definition related_line (related_skills : string) : string :=
  "  related-skills: " +:+ related_skills.

Definition splice_lines (related_skills : string) (lines : list string)
    : list string :=
  let '(new_lines, inserted) :=
    insert_after_first is_output_format (related_line related_skills) lines in
  if inserted then new_lines
  else default new_lines
         (insert_after_last is_metadata_field (related_line related_skills)
            new_lines).

Definition add_related_skills_to_frontmatter (content related_skills : string)
    : string :=
  match split2 "---" content with
  | [_; fm_str; body] =>
      if contains "  related-skills:" fm_str then content
      else
        let new_fm := join NL (splice_lines related_skills (split_lines fm_str)) in
        "---" +:+ new_fm +:+ "---" +:+ body
  | _ => content
  end.

(** ** The migration passes *)

(** The documents on disk: the text of [skills/<name>/SKILL.md] by skill
    name; a directory without the file has no entry. *)
Abbreviation files := (gmap string string).

(** What one pass returns for one document: [(success, message)]. *)
Abbreviation outcome := (bool * string)%type.

Section Passes.

Variable HAS_PYYAML : bool.
Variable safe_load : string -> result (option fields).

Let parse := parse_frontmatter HAS_PYYAML safe_load.

(** [for field in required: if field not in fm: return ...]: the field
    the loop returns on, if any. *)
Fixpoint first_absent (fm : fields) (required : list string)
    : option string :=
  match required with
  | [] => None
  | field :: rest =>
      match fm !! field with
      | None => Some field
      | Some _ => first_absent fm rest
      end
  end.

Definition first_missing (fm : fields) : option string :=
  first_absent fm ["name"; "description"; "triggers"].

(** Pass A on one document.  The state is the documents on disk; only
    [write_text] changes it. *)
Definition migrate_skill (fs : files) (skill_name : string) (dry_run : bool)
    : result (outcome * files) :=
  match fs !! skill_name with
  | None => Ret ((false, skill_name +:+ ": SKILL.md not found"), fs)
  | Some content =>
      parsed ← parse content;
      match parsed with
      | (None, _) =>
          Ret ((false, skill_name +:+ ": No valid frontmatter found"), fs)
      | (Some fm, body) =>
          if bool_decide (is_Some (fm !! "metadata")) then
            Ret ((true, skill_name +:+ ": Already migrated (skipped)"), fs)
          else
            match first_missing fm with
            | Some field =>
                Ret ((false, skill_name +:+ ": Missing required field '"
                               +:+ field +:+ "'"), fs)
            | None =>
                new_frontmatter ← build_new_frontmatter fm skill_name;
                let new_content := new_frontmatter +:+ body in
                if dry_run then
                  Ret ((true, skill_name +:+ ": Would migrate (dry-run)"), fs)
                else
                  Ret ((true, skill_name +:+ ": Migrated"),
                       <[skill_name := new_content]> fs)
            end
      end
  end.

(** [isinstance(metadata, dict) and "related-skills" in metadata] for
    [metadata = fm.get("metadata", {})]. *)
Definition has_related_skills (fm : fields) : bool :=
  match fm !! "metadata" with
  | Some (VMap m) => bool_decide ("related-skills" ∈ m.*1)
  | _ => false
  end.

(** Pass B on one document. *)
Definition migrate_related_skills (fs : files) (skill_name : string)
    (valid_dirs : gset string) (dry_run : bool) : result (outcome * files) :=
  match fs !! skill_name with
  | None => Ret ((false, skill_name +:+ ": SKILL.md not found"), fs)
  | Some content =>
      parsed ← parse content;
      match parsed with
      | (None, _) =>
          Ret ((false, skill_name +:+ ": No valid frontmatter found"), fs)
      | (Some fm, body) =>
          if has_related_skills fm then
            Ret ((true, skill_name +:+ ": Already has related-skills (skipped)"),
                 fs)
          else
            let related_skills := extract_related_skills body valid_dirs in
            let new_content :=
              add_related_skills_to_frontmatter content related_skills in
            if dry_run then
              Ret ((true, skill_name +:+ ": Would add related-skills (dry-run)"),
                   fs)
            else
              Ret ((true, skill_name +:+ ": Added related-skills"),
                   <[skill_name := new_content]> fs)
      end
  end.

(** The counters of [main]. *)
Record tally := Tally {
  success_count : nat;
  skip_count : nat;
  fail_count : nat
}.

Definition count (t : tally) (o : outcome) : tally :=
  let '(ok, msg) := o in
  if ok then
    if contains "skipped" msg
    then Tally (success_count t) (S (skip_count t)) (fail_count t)
    else Tally (S (success_count t)) (skip_count t) (fail_count t)
  else Tally (success_count t) (skip_count t) (S (fail_count t)).

(** A loop of [main] over [skill_dirs]: the documents as the loop leaves
    them, and the counters, or [Raise] when a document's pass raised (the
    documents written before it stay written). *)
Fixpoint run_loop (pass : files -> string -> result (outcome * files))
    (skill_dirs : list string) (fs : files) (t : tally)
    : files * result tally :=
  match skill_dirs with
  | [] => (fs, Ret t)
  | d :: rest =>
      match pass fs d with
      | Raise => (fs, Raise)
      | Ret (o, fs') => run_loop pass rest fs' (count t o)
      end
  end.

(** The default action of [main]. *)
Definition run_migration (skill_dirs : list string) (dry_run : bool)
    (fs : files) : files * result tally :=
  run_loop (fun fs d => migrate_skill fs d dry_run)
    skill_dirs fs (Tally 0 0 0).

(** [main] under [--related-skills]. *)
Definition run_related_skills (skill_dirs : list string)
    (all_skill_dirs : gset string) (dry_run : bool) (fs : files)
    : files * result tally :=
  run_loop (fun fs d => migrate_related_skills fs d all_skill_dirs dry_run)
    skill_dirs fs (Tally 0 0 0).

(** The exit status: 1 when a document failed. *)
Definition exit_status (t : tally) : nat :=
  if decide (0 < fail_count t) then 1 else 0.

End Passes.

(** ** The script at work on small documents *)

Definition no_yaml : string -> result (option fields) := fun _ => Raise.

Definition sample_doc : string :=
  "---" +:+ NL +:+ "name: react-expert" +:+ NL
  +:+ "description: Use when building: React apps" +:+ NL
  +:+ "triggers:" +:+ NL +:+ "  - React" +:+ NL +:+ "  - JSX" +:+ NL
  +:+ "role: specialist" +:+ NL +:+ "output-format: code" +:+ NL
  +:+ "---" +:+ NL +:+ NL +:+ "# React Expert" +:+ NL +:+ NL
  +:+ "## Related Skills" +:+ NL +:+ NL
  +:+ "- **Fullstack Guardian** - security" +:+ NL
  +:+ "- **Nonexistent Tool** - nothing" +:+ NL.

(** ** Facts about the string primitives *)

Section StringFacts.

Implicit Types (s t p r a b sep : string) (c : ascii).

Lemma str_app_nil_l s : "" +:+ s = s.
Proof. reflexivity. Qed.

Lemma str_app_cons c s t : String c s +:+ t = String c (s +:+ t).
Proof. reflexivity. Qed.

Lemma str_app_nil_r s : s +:+ "" = s.
Proof. induction s as [|c s IH]; [done|]. by rewrite str_app_cons, IH. Qed.

Lemma str_app_assoc s t r : (s +:+ t) +:+ r = s +:+ t +:+ r.
Proof. induction s as [|c s IH]; [done|]. by rewrite !str_app_cons, IH. Qed.

Lemma str_length_app s t :
  String.length (s +:+ t) = String.length s + String.length t.
Proof. induction s as [|c s IH]; [done|]. rewrite str_app_cons; simpl. by rewrite IH. Qed.

Lemma str_app_eq_nil s t : s +:+ t = "" → s = "" ∧ t = "".
Proof. destruct s; [done|]. by rewrite str_app_cons. Qed.

Lemma eqb_char_eq (x y : ascii) : eqb_char x y = true ↔ x = y.
Proof. apply Ascii.eqb_eq. Qed.

Lemma eqb_char_refl c : eqb_char c c = true.
Proof. by apply eqb_char_eq. Qed.

Lemma eqb_char_neq (x y : ascii) : eqb_char x y = false ↔ x ≠ y.
Proof. apply Ascii.eqb_neq. Qed.

(** Two ways to cut one text: the shorter first part is a prefix of the
    longer one. *)
Lemma str_app_eq_app_le s t p r :
  s +:+ t = p +:+ r → String.length s ≤ String.length p →
  ∃ d, p = s +:+ d ∧ t = d +:+ r.
Proof.
  revert p. induction s as [|c s IH]; intros p Heq Hlen.
  - exists p. by rewrite !str_app_nil_l in *.
  - destruct p as [|c' p]; [simpl in Hlen; lia|].
    rewrite !str_app_cons in Heq. injection Heq as -> Heq.
    destruct (IH p Heq) as (d & -> & ->); [simpl in Hlen; lia|].
    by exists d.
Qed.

Lemma str_app_eq_app s t p r :
  s +:+ t = p +:+ r →
  (∃ d, p = s +:+ d ∧ t = d +:+ r) ∨ (∃ d, s = p +:+ d ∧ r = d +:+ t).
Proof.
  intros Heq. destruct (decide (String.length s ≤ String.length p)).
  - left. by apply str_app_eq_app_le.
  - right. apply str_app_eq_app_le; [done|lia].
Qed.

(** *** startswith *)

Lemma strip_prefix_Some p s r : strip_prefix p s = Some r ↔ s = p +:+ r.
Proof.
  revert s. induction p as [|x p IH]; intros s; simpl.
  - rewrite str_app_nil_l. split; congruence.
  - destruct s as [|y s]; [by rewrite str_app_cons|].
    rewrite str_app_cons. destruct (eqb_char x y) eqn:E.
    + apply eqb_char_eq in E as ->. rewrite IH.
      split; [by intros ->|by intros [= ->]].
    + apply eqb_char_neq in E. split; [done|]. intros [= -> _]. by destruct E.
Qed.

Lemma strip_prefix_app p r : strip_prefix p (p +:+ r) = Some r.
Proof. by apply strip_prefix_Some. Qed.

Lemma startswith_true s p : startswith s p = true ↔ ∃ r, s = p +:+ r.
Proof.
  unfold startswith. rewrite bool_decide_eq_true. unfold is_Some.
  by setoid_rewrite strip_prefix_Some.
Qed.

Lemma startswith_false s p : startswith s p = false ↔ ¬ ∃ r, s = p +:+ r.
Proof. rewrite <- startswith_true. by destruct (startswith s p). Qed.

(** *** partition, contains *)

(** [sep] occurs in [s]. *)
Definition occurs (sep s : string) : Prop := ∃ a b, s = a +:+ sep +:+ b.

Lemma partition_Some sep s a b :
  partition sep s = Some (a, b) → s = a +:+ sep +:+ b.
Proof.
  revert a. induction s as [|c s IH]; intros a; simpl.
  - destruct (strip_prefix sep "") eqn:E; [|done].
    intros [= <- <-]. by apply strip_prefix_Some in E.
  - destruct (strip_prefix sep (String c s)) eqn:E.
    + intros [= <- <-]. by apply strip_prefix_Some in E.
    + destruct (partition sep s) as [[a' b']|]; [|done].
      intros [= <- <-]. rewrite str_app_cons. f_equal. by apply IH.
Qed.

(** The cut is the leftmost one: [sep] does not start inside the first
    part. *)
Lemma partition_leftmost sep s a b :
  partition sep s = Some (a, b) →
  ∀ a1 a2, a = a1 +:+ a2 → a2 ≠ "" →
           strip_prefix sep (a2 +:+ sep +:+ b) = None.
Proof.
  revert a. induction s as [|c s IH]; intros a; simpl.
  - destruct (strip_prefix sep ""); [|done].
    intros [= <- <-] a1 a2 [-> ->]%eq_sym%str_app_eq_nil. done.
  - destruct (strip_prefix sep (String c s)) eqn:E.
    { intros [= <- <-] a1 a2 [-> ->]%eq_sym%str_app_eq_nil. done. }
    destruct (partition sep s) as [[a' b']|] eqn:Hp; [|done].
    intros [= <- <-] a1 a2 Ha Hne.
    destruct a1 as [|c1 a1].
    + rewrite str_app_nil_l in Ha. subst a2. rewrite str_app_cons.
      apply partition_Some in Hp. by rewrite <- Hp.
    + rewrite str_app_cons in Ha. injection Ha as <- ->. by eapply IH.
Qed.

Lemma partition_None sep s : partition sep s = None ↔ ¬ occurs sep s.
Proof.
  split.
  - induction s as [|c s IH]; simpl.
    + destruct (strip_prefix sep "") eqn:E; [done|].
      intros _ (a & b & Hs). symmetry in Hs.
      apply str_app_eq_nil in Hs as [-> [-> ->]%str_app_eq_nil]. done.
    + destruct (strip_prefix sep (String c s)) eqn:E; [done|].
      destruct (partition sep s) as [[a' b']|] eqn:Hp; [done|].
      intros _ (a & b & Hs). destruct a as [|c' a].
      * rewrite str_app_nil_l in Hs. rewrite Hs, strip_prefix_app in E. done.
      * rewrite str_app_cons in Hs. injection Hs as -> ->.
        apply IH; [done|]. by exists a, b.
  - intros Hno. destruct (partition sep s) as [[a b]|] eqn:Hp; [|done].
    destruct Hno. exists a, b. by apply partition_Some.
Qed.

Lemma partition_is_Some sep s : is_Some (partition sep s) ↔ occurs sep s.
Proof.
  rewrite <- not_eq_None_Some, partition_None.
  split; [|tauto]. intros Hnn.
  destruct (partition sep s) as [[a b]|] eqn:Hp.
  - exists a, b. by apply partition_Some.
  - apply partition_None in Hp. tauto.
Qed.

Lemma contains_true sub s : contains sub s = true ↔ occurs sub s.
Proof. unfold contains. by rewrite bool_decide_eq_true, partition_is_Some. Qed.

Lemma contains_false sub s : contains sub s = false ↔ ¬ occurs sub s.
Proof. rewrite <- contains_true. by destruct (contains sub s). Qed.

Lemma occurs_app_l sep s t : occurs sep s → occurs sep (s +:+ t).
Proof.
  intros (a & b & ->). exists a, (b +:+ t). by rewrite !str_app_assoc.
Qed.

Lemma occurs_app_r sep s t : occurs sep t → occurs sep (s +:+ t).
Proof.
  intros (a & b & ->). exists (s +:+ a), b. by rewrite !str_app_assoc.
Qed.

End StringFacts.

(** ** The header delimiters (parse_frontmatter, first half) *)

Section Delimiters.

Implicit Types (s t a b c sep : string).

Lemma partition_shortest sep s a' r' a t :
  partition sep s = Some (a', r') → s = a +:+ sep +:+ t →
  String.length a' ≤ String.length a.
Proof.
  intros Hp Hs. pose proof (partition_Some _ _ _ _ Hp) as Hs'.
  rewrite Hs in Hs'. destruct (str_app_eq_app _ _ _ _ Hs') as [(d & -> & Hd)|(d & -> & Hd)].
  - destruct d as [|x d]; [by rewrite str_app_nil_r|].
    pose proof (partition_leftmost _ _ _ _ Hp a (String x d) eq_refl) as Hl.
    rewrite <- Hd, strip_prefix_app in Hl. by discriminate Hl.
  - rewrite str_length_app. lia.
Qed.

(** The text holds two occurrences of [sep] that do not overlap. *)
Definition occurs_twice (sep s : string) : Prop :=
  ∃ a b c, s = a +:+ sep +:+ b +:+ sep +:+ c.

Lemma split2_three sep s a b c :
  sep ≠ "" → split2 sep s = [a; b; c] →
  s = a +:+ sep +:+ b +:+ sep +:+ c ∧ ¬ occurs sep b
  ∧ ∀ x t, s = x +:+ sep +:+ t → String.length a ≤ String.length x.
Proof.
  intros Hsep. unfold split2.
  destruct (partition sep s) as [[a' r']|] eqn:H1; [|done].
  destruct (partition sep r') as [[b' c']|] eqn:H2; [|done].
  intros [= <- <- <-].
  split_and!; [|
    |by intros x t Hs; apply (partition_shortest _ _ _ _ _ _ H1 Hs)].
  { apply partition_Some in H1 as ->. by apply partition_Some in H2 as ->. }
  clear H1. pose proof (partition_Some _ _ _ _ H2) as ->.
  intros (x & y & ->).
  pose proof (partition_shortest _ _ _ _ x (y +:+ sep +:+ c') H2) as Hlen.
  rewrite !str_app_assoc in Hlen. specialize (Hlen eq_refl).
  rewrite !str_length_app in Hlen.
  assert (0 < String.length sep); [|lia].
  destruct sep; simpl; [done|lia].
Qed.

Lemma split2_length sep s :
  length (split2 sep s) = 3 ↔ occurs_twice sep s.
Proof.
  split.
  - unfold split2.
    destruct (partition sep s) as [[a r]|] eqn:H1; [|done].
    destruct (partition sep r) as [[b c]|] eqn:H2; [|done].
    intros _. exists a, b, c.
    apply partition_Some in H1 as ->. by apply partition_Some in H2 as ->.
  - intros (a & b & c & Hs). unfold split2.
    destruct (partition sep s) as [[a' r']|] eqn:H1.
    + assert (occurs sep r') as Hr.
      { pose proof (partition_shortest _ _ _ _ _ _ H1 Hs) as Hlen.
        apply partition_Some in H1. rewrite Hs in H1.
        rewrite <- (str_app_assoc a'), <- (str_app_assoc a), <- (str_app_assoc (a +:+ sep)) in H1.
        symmetry in H1.
        apply str_app_eq_app_le in H1 as (d & _ & ->);
          [by exists d, c|rewrite !str_length_app; lia]. }
      apply partition_is_Some in Hr as [[b' c'] ->]. done.
    + apply partition_None in H1. destruct H1.
      exists a, (b +:+ sep +:+ c). done.
Qed.

Lemma split2_short sep s :
  ¬ occurs_twice sep s →
  (∃ a, split2 sep s = [a]) ∨ (∃ a b, split2 sep s = [a; b]).
Proof.
  rewrite <- split2_length. unfold split2.
  destruct (partition sep s) as [[a r]|]; [|by eauto].
  destruct (partition sep r) as [[b c]|]; [done|by eauto].
Qed.

End Delimiters.

(** The document format of the specification: a delimiter is a line that
    holds the marker and nothing else. *)
Definition delimiter_lines (content : string) : list string :=
  filter (fun line => line = "---") (split_lines content).

Definition begins_with_delimiter_line (content : string) : bool :=
  bool_decide (head (split_lines content) = Some "---").

(** A text with one delimiter line and the marker inside a later line. *)
Definition inline_marker_doc : string :=
  "---" +:+ NL +:+ "name: x" +:+ NL +:+ "a --- b".

(** C8, as stated, fails: the text below has a single line that holds only
    the marker, yet the parser reports a header, cut at the marker inside
    the third line. *)
Lemma C8_marker_inside_a_line :
  begins_with_delimiter_line inline_marker_doc = true
  ∧ length (delimiter_lines inline_marker_doc) = 1
  ∧ parse_frontmatter false no_yaml inline_marker_doc
    = Ret (Some {[ "name" := VStr "x" ]}, " b").
Proof. split_and!; vm_compute; reflexivity. Qed.

(** C8, amended: the parser reports no header (no mapping, the text as it
    was) exactly when the text does not start with the three characters of
    the marker or does not hold two occurrences of the marker, wherever in a
    line they stand.  Otherwise the header is the text between the first two
    occurrences and the body everything after the second: the fallback
    parser returns the mapping read from that header, and the full reader
    returns what it loads from it. *)
Theorem C8_no_header_iff (HAS_PYYAML : bool)
    (safe_load : string → result (option fields)) (content : string) :
  (parse_frontmatter HAS_PYYAML safe_load content = Ret (None, content)
   ↔ startswith content "---" = false ∨ ¬ occurs_twice "---" content)
  ∧ (startswith content "---" = true ∧ occurs_twice "---" content ↔
     ∃ yaml_str body,
       content = "---" +:+ yaml_str +:+ "---" +:+ body
       ∧ ¬ occurs "---" yaml_str
       ∧ parse_frontmatter false safe_load content
         = Ret (Some (simple_parse yaml_str), body)
       ∧ parse_frontmatter true safe_load content
         = (loaded ← safe_load yaml_str; Ret (Some (default ∅ loaded), body))).
Proof.
  unfold parse_frontmatter.
  destruct (startswith content "---") eqn:Hsw; simpl.
  - destruct (decide (length (split2 "---" content) = 3)) as [Hlen|Htw];
      [pose proof (proj1 (split2_length _ _) Hlen) as Htw
      |rewrite split2_length in Htw].
    +
      destruct (split2 "---" content) as [|a [|y [|body [|]]]] eqn:E; try done.
      apply split2_three in E as (Hc & Hy & Hfst); [|done].
      assert (a = "") as ->.
      { apply startswith_true in Hsw as [r Hr].
        specialize (Hfst "" r Hr). destruct a; [done|simpl in Hfst; lia]. }
      rewrite str_app_nil_l in Hc. split.
      * split; [|by intros [?|?]]. destruct HAS_PYYAML; [|done].
        destruct (safe_load y); done.
      * split; [|done]. intros _. exists y, body. done.
    + destruct (split2_short _ _ Htw) as [[a ->]|(a & b & ->)].
      * split; [by split; auto|]. split; [by intros [_ ?]|].
        intros (y & body & -> & _). destruct Htw. by exists "", y, body.
      * split; [by split; auto|]. split; [by intros [_ ?]|].
        intros (y & body & -> & _). destruct Htw. by exists "", y, body.
  - split; [by split; auto|]. split; [by intros [? _]|].
    intros (y & body & -> & _). done.
Qed.

(** ** The header builder *)

(** The structurally significant characters, one by one: colon, hash, the
    two braces, the two brackets, pipe, the closing angle bracket,
    ampersand, asterisk, bang, percent, at-sign and backtick. *)
Definition SPECIAL_CHARS : list ascii :=
  [":"; "#"; "{"; "}"; "["; "]"; "|"; ">"; "&"; "*"; "!"; "%"; "@"; "`"]%char.

(** The description holds one of them. *)
Definition has_special (d : string) : Prop :=
  ∃ c, c ∈ SPECIAL_CHARS ∧ c ∈ String.list_ascii_of_string d.

Definition quoted (d : string) : string := String DQ (d +:+ String DQ "").

Section Builder.

Implicit Types (fm : fields) (d s : string) (c : ascii).

Lemma occurs_char c s :
  occurs (String c "") s ↔ c ∈ String.list_ascii_of_string s.
Proof.
  split.
  - intros (a & b & ->). induction a as [|x a IH]; simpl.
    + apply list_elem_of_here.
    + rewrite str_app_cons. simpl. by apply list_elem_of_further.
  - induction s as [|x s IH]; simpl; [by intros ?%not_elem_of_nil|].
    intros [->|Hin]%elem_of_cons.
    + by exists "", s.
    + destruct (IH Hin) as (a & b & ->). by exists (String x a), b.
Qed.

Lemma needs_quotes_iff d : needs_quotes (VStr d) = true ↔ has_special d.
Proof.
  unfold needs_quotes, has_special.
  change YAML_SPECIALS with (map (fun c => String c "") SPECIAL_CHARS).
  rewrite existsb_exists. setoid_rewrite in_map_iff. split.
  - intros (x & (c & <- & Hc) & Hx). exists c.
    split; [by apply list_elem_of_In|]. by apply occurs_char, contains_true.
  - intros (c & Hc & Hd). exists (String c "").
    split; [exists c; by rewrite <- list_elem_of_In|].
    by apply contains_true, occurs_char.
Qed.

Lemma description_line_quoted d :
  has_special d → description_line (VStr d) = "description: " +:+ quoted d.
Proof.
  intros H%needs_quotes_iff. unfold description_line. by rewrite H.
Qed.

Lemma description_line_plain d :
  ¬ has_special d → description_line (VStr d) = "description: " +:+ d.
Proof.
  rewrite <- needs_quotes_iff. unfold description_line.
  by destruct (needs_quotes (VStr d)).
Qed.

Lemma quoted_neq d : "description: " +:+ quoted d ≠ "description: " +:+ d.
Proof.
  intros H%(f_equal String.length). unfold quoted in H.
  rewrite !str_length_app in H. simpl in H. rewrite str_length_app in H.
  simpl in H. lia.
Qed.

End Builder.

(** A header whose description is a list: the key alone on its line, and
    one item under it that holds a colon and two brackets. *)
Definition listed_description_yaml : string :=
  NL +:+ "name: lister" +:+ NL
  +:+ "description:" +:+ NL +:+ "  - Use when: building [apps]" +:+ NL
  +:+ "triggers:" +:+ NL +:+ "  - apps" +:+ NL.

(** C3, as stated, fails: the fallback parser reads the description above
    as a list, the builder looks for the special characters among the items
    of the list, finds none, and prints the list as it stands: the
    description line holds a colon and two brackets and is not wrapped in
    double quotes. *)
Lemma C3_list_description_unquoted :
  simple_parse listed_description_yaml !! "description"
  = Some (VList ["Use when: building [apps]"])
  ∧ needs_quotes (VList ["Use when: building [apps]"]) = false
  ∧ frontmatter_lines (simple_parse listed_description_yaml) "lister"
    = Ret ["---"; "name: lister";
           "description: ['Use when: building [apps]']";
           "license: MIT"; "metadata:";
           "  author: https://github.com/Jeffallan";
           "  version: " +:+ quoted "1.0.0";
           "  domain: unknown"; "  triggers: apps"; "---"].
Proof. split_and!; vm_compute; reflexivity. Qed.

(** C3, amended: for a mapping with the required keys and a description
    [d] that is a string, the third line of the built header is the
    description line, and it carries [d] wrapped in double quotes exactly
    when [d] holds one of the special characters; otherwise [d] stands there
    as it is. *)
Theorem C3_description_quoted_iff_special
    (fm : fields) (skill_name : string) (name : value) (d : string) :
  fm !! "name" = Some name →
  fm !! "description" = Some (VStr d) →
  ∃ line rest,
    frontmatter_lines fm skill_name
    = Ret ("---" :: ("name: " +:+ py_str name) :: line :: rest)
    ∧ build_new_frontmatter fm skill_name
      = Ret (join NL ("---" :: ("name: " +:+ py_str name) :: line :: rest))
    ∧ (line = "description: " +:+ quoted d ↔ has_special d)
    ∧ (line = "description: " +:+ d ↔ ¬ has_special d).
Proof.
  intros Hn Hd. unfold build_new_frontmatter, frontmatter_lines, getitem.
  rewrite Hn, Hd. cbn [mbind result_bind app]. eexists _, _.
  split; [reflexivity|]. split; [reflexivity|].
  assert (Decision (needs_quotes (VStr d) = true)) as [Hq|Hq] by apply _.
  - pose proof (proj1 (needs_quotes_iff d) Hq) as Hs.
    rewrite (description_line_quoted d Hs). split; [done|].
    split; [|done]. by intros ?%quoted_neq.
  - assert (¬ has_special d) as Hs by by rewrite <- needs_quotes_iff.
    rewrite (description_line_plain d Hs). split; [|done].
    split; [|done]. intros H. symmetry in H. by apply quoted_neq in H.
Qed.

Definition quoting_sample : fields :=
  <["name" := VStr "api-designer"]>
    (<["description" := VStr "REST & GraphQL"]>
       (<["triggers" := VList ["API"; "OpenAPI"]]> ∅)).

Lemma C3_description_quoted_iff_special_witness :
  ∃ line rest,
    frontmatter_lines quoting_sample "api-designer"
    = Ret ("---" :: "name: api-designer" :: line :: rest)
    ∧ build_new_frontmatter quoting_sample "api-designer"
      = Ret (join NL ("---" :: "name: api-designer" :: line :: rest))
    ∧ (line = "description: " +:+ quoted "REST & GraphQL"
       ↔ has_special "REST & GraphQL")
    ∧ (line = "description: " +:+ "REST & GraphQL"
       ↔ ¬ has_special "REST & GraphQL").
Proof.
  apply (C3_description_quoted_iff_special quoting_sample "api-designer"
           (VStr "api-designer") "REST & GraphQL"); reflexivity.
Defined.

Arguments SKILL_DOMAIN_MAP : simpl never.

(** The domain of a skill: its entry in the map, [unknown] without one. *)
Definition domain_of (skill_name : string) : string :=
  match SKILL_DOMAIN_MAP !! skill_name with
  | Some d => d
  | None => "unknown"
  end.




(** ** Pass A: the required fields *)

(** [field] is the first of name, description, triggers that [fm] lacks. *)
Definition first_lacking (fm : fields) (field : string) : Prop :=
  (fm !! "name" = None ∧ field = "name")
  ∨ (is_Some (fm !! "name") ∧ fm !! "description" = None
     ∧ field = "description")
  ∨ (is_Some (fm !! "name") ∧ is_Some (fm !! "description")
     ∧ fm !! "triggers" = None ∧ field = "triggers").

Lemma first_missing_lacking (fm : fields) :
  (fm !! "name" = None ∨ fm !! "description" = None ∨ fm !! "triggers" = None) →
  ∃ field, first_missing fm = Some field ∧ first_lacking fm field.
Proof.
  unfold first_missing, first_lacking. intros H. cbn.
  destruct (fm !! "name") eqn:Hn.
  - destruct (fm !! "description") eqn:Hd.
    + destruct (fm !! "triggers") eqn:Ht.
      * by destruct H as [|[|]].
      * exists "triggers". eauto 10.
    + exists "description". eauto 10.
  - exists "name". eauto.
Qed.

Lemma first_missing_None (fm : fields) :
  first_missing fm = None ↔
  is_Some (fm !! "name") ∧ is_Some (fm !! "description")
  ∧ is_Some (fm !! "triggers").
Proof.
  unfold first_missing. cbn.
  destruct (fm !! "name"), (fm !! "description"), (fm !! "triggers");
    split; try done; intros (Hn & Hd & Ht);
    try (by destruct Hn); try (by destruct Hd); by destruct Ht.
Qed.

(** C7: a document whose parsed header has no [metadata] key and lacks one
    of name, description, triggers fails in Pass A with the message that
    names the first lacking field in that order, and the documents on disk
    stay as they were, in a dry run or not. *)
Theorem C7_missing_required_field
    (HAS_PYYAML : bool) (safe_load : string → result (option fields))
    (fs : files) (skill_name content body : string) (fm : fields)
    (dry_run : bool) :
  fs !! skill_name = Some content →
  parse_frontmatter HAS_PYYAML safe_load content = Ret (Some fm, body) →
  fm !! "metadata" = None →
  (fm !! "name" = None ∨ fm !! "description" = None ∨ fm !! "triggers" = None) →
  ∃ field,
    first_lacking fm field
    ∧ migrate_skill HAS_PYYAML safe_load fs skill_name dry_run
      = Ret ((false, skill_name +:+ ": Missing required field '"
                       +:+ field +:+ "'"), fs).
Proof.
  intros Hfs Hparse Hmeta Hlack.
  destruct (first_missing_lacking fm Hlack) as (field & Hfirst & Hfield).
  exists field. split; [done|].
  unfold migrate_skill. rewrite Hfs, Hparse. cbn [mbind result_bind].
  rewrite Hmeta. rewrite bool_decide_eq_false_2 by by intros [? ?].
  by rewrite Hfirst.
Qed.

(** A document with name and description and no triggers. *)
Definition no_triggers_doc : string :=
  "---" +:+ NL +:+ "name: lonely" +:+ NL +:+ "description: No triggers here"
  +:+ NL +:+ "---" +:+ NL +:+ "Body." +:+ NL.

Lemma C7_missing_required_field_witness :
  ∃ field,
    first_lacking
      (<["description" := VStr "No triggers here"]>
         (<["name" := VStr "lonely"]> ∅)) field
    ∧ migrate_skill false no_yaml {[ "lonely" := no_triggers_doc ]} "lonely" false
      = Ret ((false, "lonely" +:+ ": Missing required field '"
                       +:+ field +:+ "'"),
             {[ "lonely" := no_triggers_doc ]}).
Proof.
  apply (C7_missing_required_field false no_yaml
           {[ "lonely" := no_triggers_doc ]} "lonely" no_triggers_doc
           (NL +:+ "Body." +:+ NL)); [reflexivity|vm_compute; reflexivity
                                      |reflexivity|by right; right].
Defined.

(** ** The related-skills extractor *)

(** The example of the specification: two display names, one of them a
    known skill. *)
Definition related_example_body : string :=
  "# Guide" +:+ NL +:+ NL +:+ "## Related Skills" +:+ NL +:+ NL
  +:+ "- **Fullstack Guardian** - security" +:+ NL
  +:+ "- **Nonexistent Tool** - nothing" +:+ NL +:+ NL
  +:+ "## Notes" +:+ NL +:+ "**Code Reviewer** is not related." +:+ NL.

Example extract_related_example :
  related_section related_example_body
  = Some ("- **Fullstack Guardian** - security" +:+ NL
          +:+ "- **Nonexistent Tool** - nothing" +:+ NL)
  ∧ extract_related_skills related_example_body
      {[ "fullstack-guardian"; "code-reviewer" ]}
    = "fullstack-guardian".
Proof. split_and!; vm_compute; reflexivity. Qed.

(** A body whose Related Skills section is empty and is followed by another
    section that names a skill in bold. *)
Definition empty_section_body : string :=
  "## Related Skills" +:+ NL +:+ NL
  +:+ "## Examples" +:+ NL +:+ "Ask **Fullstack Guardian** first." +:+ NL.

(** C6 at the failing input: the Related Skills section is empty, and the
    extractor reads the section that follows it.  The whitespace before the
    next heading is taken by [\s*\n], so the group starts at that heading
    and runs to the end; a name emphasized there is returned. *)
Theorem C6_empty_section_reads_the_next_one :
  related_section empty_section_body
  = Some ("## Examples" +:+ NL +:+ "Ask **Fullstack Guardian** first." +:+ NL)
  ∧ extract_related_skills empty_section_body {[ "fullstack-guardian" ]}
    = "fullstack-guardian".
Proof. split_and!; vm_compute; reflexivity. Qed.

(** ** Lines *)

Section Lines.

Implicit Types (s t u v line sep : string) (ls : list string) (c : ascii).

Definition newline_free (s : string) : Prop := mem_char "010" s = false.

Lemma mem_char_app c s t : mem_char c (s +:+ t) = mem_char c s || mem_char c t.
Proof.
  induction s as [|x s IH]; [done|].
  rewrite str_app_cons. simpl. by rewrite IH, orb_assoc.
Qed.

Lemma newline_free_app s t :
  newline_free (s +:+ t) ↔ newline_free s ∧ newline_free t.
Proof. unfold newline_free. rewrite mem_char_app. apply orb_false_iff. Qed.

Lemma newline_free_app_2 s t :
  newline_free s → newline_free t → newline_free (s +:+ t).
Proof. intros. by apply newline_free_app. Qed.

Lemma newline_free_cons c s :
  newline_free (String c s) ↔ c ≠ "010"%char ∧ newline_free s.
Proof.
  unfold newline_free. simpl. rewrite orb_false_iff, eqb_char_neq.
  split; intros [? ?]; split; congruence.
Qed.

Lemma join_cons sep s t ls :
  join sep (s :: t :: ls) = s +:+ sep +:+ join sep (t :: ls).
Proof. reflexivity. Qed.

Lemma join_app sep ls t ls' :
  ls ≠ [] →
  join sep (ls ++ t :: ls') = join sep ls +:+ sep +:+ join sep (t :: ls').
Proof.
  induction ls as [|s [|s' ls] IH]; intros Hne; [done|done|].
  change ((s :: s' :: ls) ++ t :: ls')
    with (s :: s' :: (ls ++ t :: ls')) at 1.
  rewrite !join_cons.
  change (s' :: ls ++ t :: ls') with ((s' :: ls) ++ t :: ls').
  rewrite IH by done. by rewrite !str_app_assoc.
Qed.

Lemma split_lines_nonempty s : split_lines s ≠ [].
Proof. destruct s as [|c s]; simpl; [done|]. by repeat case_match. Qed.

Lemma split_lines_cons c s :
  split_lines (String c s) =
  if eqb_char c "010" then "" :: split_lines s
  else match split_lines s with
       | l :: ls => String c l :: ls
       | [] => [String c ""]
       end.
Proof. reflexivity. Qed.

(** A text that ends its first line [line] with a newline. *)
Lemma split_lines_line line s :
  newline_free line →
  split_lines (line +:+ NL +:+ s) = line :: split_lines s.
Proof.
  induction line as [|c line IH]; intros Hfree; [done|].
  apply newline_free_cons in Hfree as [Hc Hfree].
  rewrite str_app_cons, split_lines_cons.
  rewrite (proj2 (eqb_char_neq _ _) Hc), IH by done. done.
Qed.

Lemma split_lines_free line : newline_free line → split_lines line = [line].
Proof.
  induction line as [|c line IH]; intros Hfree; [done|].
  apply newline_free_cons in Hfree as [Hc Hfree].
  rewrite split_lines_cons, (proj2 (eqb_char_neq _ _) Hc), IH by done. done.
Qed.

Lemma split_lines_join ls :
  ls ≠ [] → Forall newline_free ls → split_lines (join NL ls) = ls.
Proof.
  induction ls as [|s [|t ls] IH]; intros Hne Hfree; [done| |].
  - apply split_lines_free. by inversion Hfree.
  - rewrite join_cons. inversion Hfree; subst.
    rewrite split_lines_line, IH by done. done.
Qed.

Lemma join_split_lines s : join NL (split_lines s) = s.
Proof.
  induction s as [|c s IH]; [done|]. rewrite split_lines_cons.
  pose proof (split_lines_nonempty s) as Hne.
  destruct (eqb_char c "010") eqn:E.
  - apply eqb_char_eq in E as ->.
    destruct (split_lines s) as [|l ls]; [done|].
    rewrite join_cons, IH. done.
  - destruct (split_lines s) as [|l [|l' ls]]; [done| |].
    + simpl in *. by rewrite IH.
    + rewrite join_cons in *. by rewrite str_app_cons, IH.
Qed.

Lemma split_lines_newline_free s : Forall newline_free (split_lines s).
Proof.
  induction s as [|c s IH]; [by repeat constructor|].
  rewrite split_lines_cons. destruct (eqb_char c "010") eqn:E.
  - by constructor.
  - destruct (split_lines s) as [|l ls]; inversion IH; subst;
      constructor; try done; apply newline_free_cons;
      by rewrite <- eqb_char_neq.
Qed.

(** *** Cutting at a separator, piece by piece *)

(** The separator cannot start before a character it does not hold and
    reach over it. *)
Lemma strip_prefix_over c sep u v r :
  mem_char c sep = false →
  strip_prefix sep (u +:+ String c v) = Some r → ∃ b, u = sep +:+ b.
Proof.
  revert u. induction sep as [|x sep IH]; intros u Hc Hp.
  - by exists u.
  - simpl in Hc. apply orb_false_iff in Hc as [Hx Hc].
    destruct u as [|y u].
    + rewrite str_app_nil_l in Hp. simpl in Hp. by rewrite Hx in Hp.
    + rewrite str_app_cons in Hp. simpl in Hp.
      destruct (eqb_char x y) eqn:E; [|done].
      apply eqb_char_eq in E as ->.
      destruct (IH u Hc Hp) as (b & ->). by exists b.
Qed.

(** Cutting [u ++ c ++ v] at [sep], when [sep] does not occur in [u] and
    does not hold [c], is cutting [v]. *)
Lemma partition_skip c sep u v :
  mem_char c sep = false → ¬ occurs sep u →
  partition sep (u +:+ String c v) =
  match partition sep v with
  | Some (a, b) => Some (u +:+ String c a, b)
  | None => None
  end.
Proof.
  intros Hc. induction u as [|x u IH]; intros Hu.
  - rewrite str_app_nil_l. cbn [partition].
    destruct (strip_prefix sep (String c v)) eqn:E.
    + destruct (strip_prefix_over c sep "" v s Hc E) as [b Hb].
      symmetry in Hb. apply str_app_eq_nil in Hb as [-> _]. by destruct Hu; exists "", "".
    + by destruct (partition sep v) as [[a b]|].
  - rewrite str_app_cons. cbn [partition]. rewrite <- str_app_cons.
    destruct (strip_prefix sep (String x u +:+ String c v)) eqn:E.
    + destruct (strip_prefix_over c sep _ v s Hc E) as [b Hb].
      destruct Hu. exists "", b. by rewrite str_app_nil_l.
    + rewrite IH.
      * by destruct (partition sep v) as [[a b]|].
      * intros (a & b & ->). apply Hu. by exists (String x a), b.
Qed.

End Lines.

(** ** The splice of Pass B *)

Section Splice.

Implicit Types (s y body rs line new : string) (ls before after : list string).

(** The header of a document is the text from the opening marker up to
    the first marker after it: no marker starts inside it. *)
Definition header_of (content y body : string) : Prop :=
  content = "---" +:+ y +:+ "---" +:+ body ∧ ¬ occurs "---" (y +:+ "--").

Lemma partition_first a b :
  ¬ occurs "---" (a +:+ "--") →
  partition "---" (a +:+ "---" +:+ b) = Some (a, b).
Proof.
  intros Hfree.
  destruct (partition "---" (a +:+ "---" +:+ b)) as [[a' b']|] eqn:Hp.
  - pose proof (partition_shortest _ _ _ _ _ _ Hp eq_refl) as Hlen.
    apply partition_Some in Hp. symmetry in Hp.
    apply str_app_eq_app_le in Hp as (d & -> & Hd); [|done].
    destruct d as [|c1 [|c2 [|c3 d]]].
    + rewrite str_app_nil_l in Hd. rewrite str_app_nil_r.
      by apply (inj (String.app "---")) in Hd as ->.
    + injection Hd as <- _. destruct Hfree. exists a', "".
      by rewrite str_app_assoc.
    + injection Hd as <- <- _. destruct Hfree. exists a', "-".
      by rewrite str_app_assoc.
    + injection Hd as <- <- <- _. destruct Hfree. exists a', (d +:+ "--").
      by rewrite str_app_assoc.
  - apply partition_None in Hp. destruct Hp. by exists a, b.
Qed.

Lemma header_of_split2 content y body :
  header_of content y body → split2 "---" content = [""; y; body].
Proof.
  intros [-> Hfree]. unfold split2.
  change (partition "---" ("---" +:+ y +:+ "---" +:+ body))
    with (Some ("", y +:+ "---" +:+ body)).
  cbv beta iota. by rewrite partition_first.
Qed.

Lemma header_of_free content y body :
  header_of content y body → ¬ occurs "---" y.
Proof. intros [_ Hfree] Hy. by apply Hfree, occurs_app_l. Qed.

(** What [parse_frontmatter] cuts is the header. *)
Lemma split2_header_of content y body :
  startswith content "---" = true →
  (∃ a, split2 "---" content = [a; y; body]) → header_of content y body.
Proof.
  intros Hsw [a Hs]. unfold split2 in Hs.
  destruct (partition "---" content) as [[a' r]|] eqn:H1; [|done].
  destruct (partition "---" r) as [[y' b']|] eqn:H2; [|done].
  injection Hs as -> -> ->.
  apply startswith_true in Hsw as [r' ->].
  change (partition "---" ("---" +:+ r')) with (Some ("", r')) in H1.
  injection H1 as <- <-. split.
  - by apply partition_Some in H2 as ->.
  - intros (u & v & Huv).
    pose proof (partition_Some _ _ _ _ H2) as Hr.
    destruct (str_app_eq_app_le u ("---" +:+ v) y "--" ) as (d & Hd & Hv).
    { by rewrite Huv. }
    { apply (f_equal String.length) in Huv.
      rewrite !str_length_app in Huv. simpl in Huv. lia. }
    destruct d as [|c d]; [done|].
    pose proof (partition_leftmost _ _ _ _ H2 u (String c d) Hd) as Hl.
    assert (∃ w, String c d +:+ "---" +:+ body = "---" +:+ w) as [w Hw].
    { destruct d as [|c2 [|c3 d]];
        rewrite ?str_app_cons, ?str_app_nil_l in Hv.
      - injection Hv as <- _. by exists ("-" +:+ body).
      - injection Hv as <- <- _. by exists ("--" +:+ body).
      - injection Hv as <- <- <- _. by exists (d +:+ "---" +:+ body). }
    rewrite Hw, strip_prefix_app in Hl. by specialize (Hl ltac:(done)).
Qed.

(** *** The two loops *)

Lemma insert_after_first_found (p : string → bool) new before line after :
  Forall (fun l => p l = false) before → p line = true →
  insert_after_first p new (before ++ line :: after)
  = (before ++ line :: new :: after, true).
Proof.
  intros Hb Hl. induction Hb as [|l before Hl' _ IH]; simpl.
  - by rewrite Hl.
  - by rewrite Hl', IH.
Qed.

Lemma insert_after_first_none (p : string → bool) new ls :
  Forall (fun l => p l = false) ls → insert_after_first p new ls = (ls, false).
Proof.
  intros Hb. induction Hb as [|l ls Hl _ IH]; simpl; [done|].
  by rewrite Hl, IH.
Qed.

Lemma insert_after_last_found (p : string → bool) new before line after :
  p line = true → Forall (fun l => p l = false) after →
  insert_after_last p new (before ++ line :: after)
  = Some (before ++ line :: new :: after).
Proof.
  intros Hl Ha.
  assert (insert_after_last p new after = None) as Hnone.
  { induction Ha as [|l after Hl' _ IH]; simpl; [done|]. by rewrite IH, Hl'. }
  induction before as [|l before IH]; simpl.
  - by rewrite Hnone, Hl.
  - by rewrite IH.
Qed.

Lemma insert_after_last_none (p : string → bool) new ls :
  Forall (fun l => p l = false) ls → insert_after_last p new ls = None.
Proof.
  intros Ha. induction Ha as [|l after Hl' _ IH]; simpl; [done|].
  by rewrite IH, Hl'.
Qed.

(** A line of the header after which the new line can go. *)
Definition first_output_format (ls before : list string) (line : string)
    (after : list string) : Prop :=
  ls = before ++ line :: after ∧ is_output_format line = true
  ∧ Forall (fun l => is_output_format l = false) before.

Definition last_metadata_field (ls before : list string) (line : string)
    (after : list string) : Prop :=
  ls = before ++ line :: after ∧ is_metadata_field line = true
  ∧ Forall (fun l => is_metadata_field l = false) after
  ∧ Forall (fun l => is_output_format l = false) ls.

Definition anchor (ls before : list string) (line : string)
    (after : list string) : Prop :=
  first_output_format ls before line after
  ∨ last_metadata_field ls before line after.

Lemma splice_lines_anchor rs ls before line after :
  anchor ls before line after →
  splice_lines rs ls = before ++ line :: related_line rs :: after.
Proof.
  unfold splice_lines. intros [(-> & Hl & Hb)|(-> & Hl & Ha & Hno)].
  - by rewrite insert_after_first_found.
  - rewrite insert_after_first_none by done.
    by rewrite insert_after_last_found.
Qed.

Lemma Forall_false_dec (p : string → bool) ls :
  Forall (fun l => p l = false) ls
  ∨ ∃ before line after,
      ls = before ++ line :: after ∧ p line = true
      ∧ Forall (fun l => p l = false) before.
Proof.
  induction ls as [|l ls IH]; [by left|].
  destruct (p l) eqn:Hl.
  - right. by exists [], l, ls.
  - destruct IH as [IH|(before & line & after & -> & Hp & Hb)].
    + left. by constructor.
    + right. exists (l :: before), line, after. split_and!; [done|done|].
      by constructor.
Qed.

Lemma Forall_false_dec_last (p : string → bool) ls :
  Forall (fun l => p l = false) ls
  ∨ ∃ before line after,
      ls = before ++ line :: after ∧ p line = true
      ∧ Forall (fun l => p l = false) after.
Proof.
  induction ls as [|l ls IH]; [by left|].
  destruct IH as [IH|(before & line & after & -> & Hp & Hb)].
  - destruct (p l) eqn:Hl.
    + right. by exists [], l, ls.
    + left. by constructor.
  - right. by exists (l :: before), line, after.
Qed.

Lemma Forall_false_forallb (p : string → bool) ls :
  forallb (fun l => negb (p l)) ls = true →
  Forall (fun l => p l = false) ls.
Proof.
  rewrite forallb_forall, Forall_forall. intros H l Hl.
  apply negb_true_iff, H. by apply list_elem_of_In.
Qed.

(** Either there is an anchor, or no value is ever spliced in. *)
Lemma splice_lines_cases ls :
  (∃ before line after, anchor ls before line after)
  ∨ (Forall (fun l => is_output_format l = false) ls
     ∧ Forall (fun l => is_metadata_field l = false) ls
     ∧ ∀ rs, splice_lines rs ls = ls).
Proof.
  destruct (Forall_false_dec is_output_format ls)
    as [Hno|(before & line & after & Hls & Hl & Hb)].
  - destruct (Forall_false_dec_last is_metadata_field ls)
      as [Hnone|(before & line & after & Hls & Hl & Ha)].
    + right. split_and!; [done..|]. intros rs. unfold splice_lines.
      rewrite insert_after_first_none by done.
      by rewrite insert_after_last_none.
    + left. exists before, line, after. by right.
  - left. exists before, line, after. by left.
Qed.

Lemma add_related_guard content y body rs :
  header_of content y body → occurs "  related-skills:" y →
  add_related_skills_to_frontmatter content rs = content.
Proof.
  intros Hh Hm. unfold add_related_skills_to_frontmatter.
  rewrite (header_of_split2 _ _ _ Hh).
  by rewrite (proj2 (contains_true _ _) Hm).
Qed.

Lemma add_related_splice content y body rs :
  header_of content y body → ¬ occurs "  related-skills:" y →
  add_related_skills_to_frontmatter content rs
  = "---" +:+ join NL (splice_lines rs (split_lines y)) +:+ "---" +:+ body.
Proof.
  intros Hh Hm. unfold add_related_skills_to_frontmatter.
  rewrite (header_of_split2 _ _ _ Hh).
  by rewrite (proj2 (contains_false _ _) Hm).
Qed.

End Splice.

(** *** The sample document through both passes *)

Definition sample_body : string :=
  NL +:+ NL +:+ "# React Expert" +:+ NL +:+ NL
  +:+ "## Related Skills" +:+ NL +:+ NL
  +:+ "- **Fullstack Guardian** - security" +:+ NL
  +:+ "- **Nonexistent Tool** - nothing" +:+ NL.

(** The header Pass A writes for [sample_doc], between the markers. *)
Definition migrated_header : list string :=
  [""; "name: react-expert";
   "description: " +:+ quoted "Use when building: React apps";
   "license: MIT";
   "metadata:";
   "  author: https://github.com/Jeffallan";
   "  version: " +:+ quoted "1.0.0";
   "  domain: frontend";
   "  triggers: React, JSX";
   "  role: specialist";
   "  output-format: code"; ""].

Definition migrated_doc : string :=
  "---" +:+ join NL migrated_header +:+ "---" +:+ sample_body.

(** The same header after Pass B. *)
Definition spliced_header : list string :=
  [""; "name: react-expert";
   "description: " +:+ quoted "Use when building: React apps";
   "license: MIT";
   "metadata:";
   "  author: https://github.com/Jeffallan";
   "  version: " +:+ quoted "1.0.0";
   "  domain: frontend";
   "  triggers: React, JSX";
   "  role: specialist";
   "  output-format: code";
   "  related-skills: fullstack-guardian"; ""].

Definition spliced_doc : string :=
  "---" +:+ join NL spliced_header +:+ "---" +:+ sample_body.

Example sample_pass_a :
  migrate_skill false no_yaml {[ "react-expert" := sample_doc ]}
    "react-expert" false
  = Ret ((true, "react-expert: Migrated"), {[ "react-expert" := migrated_doc ]}).
Proof. vm_compute. reflexivity. Qed.

Example sample_pass_b :
  migrate_related_skills false no_yaml {[ "react-expert" := migrated_doc ]}
    "react-expert" {[ "react-expert"; "fullstack-guardian" ]} false
  = Ret ((true, "react-expert: Added related-skills"),
         {[ "react-expert" := spliced_doc ]}).
Proof. vm_compute. reflexivity. Qed.

(** With the fallback parser [metadata] is read as an empty list, so a
    second Pass B is not skipped: it reaches the splice, which returns the
    text as it is. *)
Example sample_pass_b_again :
  migrate_related_skills false no_yaml {[ "react-expert" := spliced_doc ]}
    "react-expert" {[ "react-expert"; "fullstack-guardian" ]} false
  = Ret ((true, "react-expert: Added related-skills"),
         {[ "react-expert" := spliced_doc ]}).
Proof. vm_compute. reflexivity. Qed.

Example sample_pass_a_again :
  migrate_skill false no_yaml {[ "react-expert" := migrated_doc ]}
    "react-expert" false
  = Ret ((true, "react-expert: Already migrated (skipped)"),
         {[ "react-expert" := migrated_doc ]}).
Proof. vm_compute. reflexivity. Qed.

(** A document whose description quotes the marker text of Pass B. *)
Definition describing_doc : string :=
  "---" +:+ NL +:+ "name: spec-miner" +:+ NL
  +:+ "description: Explains the   related-skills: key" +:+ NL
  +:+ "triggers: metadata" +:+ NL +:+ "output-format: report" +:+ NL
  +:+ "---" +:+ NL +:+ "Body." +:+ NL.

Definition describing_header : list string :=
  [""; "name: spec-miner";
   "description: " +:+ quoted "Explains the   related-skills: key";
   "license: MIT";
   "metadata:";
   "  author: https://github.com/Jeffallan";
   "  version: " +:+ quoted "1.0.0";
   "  domain: workflow";
   "  triggers: metadata";
   "  output-format: report"; ""].

Definition describing_migrated : string :=
  "---" +:+ join NL describing_header +:+ "---" +:+ NL +:+ "Body." +:+ NL.

(** C5, as stated, fails: a document that went through Pass A, with an
    output-format line in its header, gets no new line from the splice when
    the header already holds the text "  related-skills:", be it the line of
    an earlier Pass B or words of the description. *)
Lemma C5_no_line_behind_the_guard :
  (split2 "---" spliced_doc = [""; join NL spliced_header; sample_body]
   ∧ existsb is_output_format spliced_header = true
   ∧ add_related_skills_to_frontmatter spliced_doc "fullstack-guardian"
     = spliced_doc)
  ∧ (migrate_skill false no_yaml {[ "spec-miner" := describing_doc ]}
       "spec-miner" false
     = Ret ((true, "spec-miner: Migrated"),
            {[ "spec-miner" := describing_migrated ]})
     ∧ split2 "---" describing_migrated
       = [""; join NL describing_header; NL +:+ "Body." +:+ NL]
     ∧ existsb is_output_format describing_header = true
     ∧ add_related_skills_to_frontmatter describing_migrated ""
       = describing_migrated).
Proof. split_and!; vm_compute; reflexivity. Qed.

(** C5, amended: let the header (the text between the opening marker and
    the first marker after it) not hold the text "  related-skills:" yet.
    If a line of the header, stripped, starts with "output-format:", the
    splice puts the one line "  related-skills: <value>" right after the
    first such line.  If none does, it puts that line right after the last
    line that starts with two spaces and holds a colon.  In both cases every
    line of the header stays as it was, in its place, and so does the body. *)
Theorem C5_splice_after_anchor
    (content y body rs : string) (before : list string) (line : string)
    (after : list string) :
  header_of content y body →
  ¬ occurs "  related-skills:" y →
  anchor (split_lines y) before line after →
  add_related_skills_to_frontmatter content rs
  = "---" +:+ join NL (before ++ line :: ("  related-skills: " +:+ rs) :: after)
    +:+ "---" +:+ body
  ∧ content = "---" +:+ join NL (before ++ line :: after) +:+ "---" +:+ body.
Proof.
  intros Hh Hm Ha. split.
  - rewrite (add_related_splice _ _ _ _ Hh Hm).
    by rewrite (splice_lines_anchor _ _ _ _ _ Ha).
  - assert (split_lines y = before ++ line :: after) as <-.
    { by destruct Ha as [(? & _)|(? & _)]. }
    rewrite join_split_lines. by destruct Hh.
Qed.

Lemma C5_splice_after_anchor_witness :
  add_related_skills_to_frontmatter migrated_doc "fullstack-guardian"
  = "---" +:+ join NL (take 10 migrated_header ++ "  output-format: code"
                       :: ("  related-skills: " +:+ "fullstack-guardian")
                       :: [""])
    +:+ "---" +:+ sample_body
  ∧ migrated_doc
    = "---" +:+ join NL (take 10 migrated_header ++ "  output-format: code"
                         :: [""])
      +:+ "---" +:+ sample_body.
Proof.
  apply (C5_splice_after_anchor migrated_doc (join NL migrated_header)).
  - split; [reflexivity|]. apply contains_false. vm_compute. reflexivity.
  - apply contains_false. vm_compute. reflexivity.
  - left. split_and!.
    + vm_compute. reflexivity.
    + vm_compute. reflexivity.
    + apply Forall_false_forallb. vm_compute. reflexivity.
Defined.

Section Marker.

Implicit Types (s y line : string) (ls : list string).

Lemma occurs_trans s t u : occurs s t → occurs t u → occurs s u.
Proof.
  intros (a & b & ->) (a' & b' & ->).
  exists (a' +:+ a), (b +:+ b'). by rewrite !str_app_assoc.
Qed.

Lemma occurs_join sep line ls : line ∈ ls → occurs line (join sep ls).
Proof.
  induction ls as [|l [|l' ls] IH]; intros Hin.
  - by apply not_elem_of_nil in Hin.
  - apply list_elem_of_singleton in Hin as ->. exists "", "".
    by rewrite str_app_nil_r.
  - rewrite join_cons. apply elem_of_cons in Hin as [->|Hin].
    + by exists "", (sep +:+ join sep (l' :: ls)).
    + apply occurs_app_r, occurs_app_r. by apply IH.
Qed.

Lemma occurs_line line y : line ∈ split_lines y → occurs line y.
Proof. intros Hin. rewrite <- (join_split_lines y). by apply occurs_join. Qed.

Lemma marker_line_occurs line y :
  line ∈ split_lines y → startswith line "  related-skills:" = true →
  occurs "  related-skills:" y.
Proof.
  intros Hin [r ->]%startswith_true.
  eapply occurs_trans; [|by apply occurs_line]. by exists "", r.
Qed.

End Marker.

(** What [parse_frontmatter] returns as body follows the header. *)
Lemma parse_frontmatter_header HAS_PYYAML safe_load content fm body :
  parse_frontmatter HAS_PYYAML safe_load content = Ret (Some fm, body) →
  ∃ y, header_of content y body
       ∧ (HAS_PYYAML = false → fm = simple_parse y).
Proof.
  unfold parse_frontmatter. destruct (startswith content "---") eqn:Hsw; [|done].
  cbn [negb]. destruct (split2 "---" content) as [|a [|y [|b [|]]]] eqn:Hs;
    try done.
  intros Hp. assert (b = body) as ->.
  { destruct HAS_PYYAML; [|by injection Hp].
    destruct (safe_load y); [|done]. by injection Hp. }
  exists y. split; [apply split2_header_of; eauto|].
  intros ->. by injection Hp.
Qed.

(** A document that Pass A has not touched: no nested block at all. *)
Definition flat_doc : string :=
  "---" +:+ NL +:+ "name: lonely" +:+ NL +:+ "description: Nothing nested"
  +:+ NL +:+ "triggers: solo" +:+ NL +:+ "---" +:+ NL +:+ "Body." +:+ NL.

(** C10, as stated, fails: Pass B processes the document below, finds no
    related skill, reports success, and leaves it without any
    [related-skills] line: its header has no line to put one after. *)
Lemma C10_no_anchor_no_marker :
  migrate_related_skills false no_yaml {[ "lonely" := flat_doc ]} "lonely"
    {[ "lonely" ]} false
  = Ret ((true, "lonely: Added related-skills"), {[ "lonely" := flat_doc ]})
  ∧ extract_related_skills (NL +:+ "Body." +:+ NL) {[ "lonely" ]} = ""
  ∧ contains "related-skills" flat_doc = false.
Proof. split_and!; vm_compute; reflexivity. Qed.

(** C10, amended: for a document whose header has a line to put the new
    line after (a line that, stripped, starts with "output-format:", or a
    line that starts with two spaces and holds a colon) and does not hold
    the text "  related-skills:" yet, the splice with an empty value inserts
    the line "  related-skills: " after that line, and this is what Pass B
    writes when the extraction yields no identifier.  And the splice returns
    its input as it was whenever a line of the header starts with
    "  related-skills:". *)
Theorem C10_empty_value_and_guard (content y body : string) :
  header_of content y body →
  (∀ rs line,
     line ∈ split_lines y → startswith line "  related-skills:" = true →
     add_related_skills_to_frontmatter content rs = content)
  ∧ (∀ before line after,
       ¬ occurs "  related-skills:" y →
       anchor (split_lines y) before line after →
       add_related_skills_to_frontmatter content ""
       = "---" +:+ join NL (before ++ line :: "  related-skills: " :: after)
         +:+ "---" +:+ body)
  ∧ (∀ HAS_PYYAML safe_load (fs : files) skill_name fm valid_dirs,
       fs !! skill_name = Some content →
       parse_frontmatter HAS_PYYAML safe_load content = Ret (Some fm, body) →
       has_related_skills fm = false →
       extract_related_skills body valid_dirs = "" →
       migrate_related_skills HAS_PYYAML safe_load fs skill_name valid_dirs false
       = Ret ((true, skill_name +:+ ": Added related-skills"),
              <[skill_name := add_related_skills_to_frontmatter content ""]> fs)).
Proof.
  intros Hh. split_and!.
  - intros rs line Hin Hsw. eapply add_related_guard; [done|].
    by eapply marker_line_occurs.
  - intros before line after Hm Ha.
    rewrite (add_related_splice _ _ _ _ Hh Hm).
    by rewrite (splice_lines_anchor _ _ _ _ _ Ha).
  - intros HAS_PYYAML safe_load fs skill_name fm valid_dirs Hfs Hp Hr He.
    unfold migrate_related_skills. rewrite Hfs, Hp. cbn [mbind result_bind].
    by rewrite Hr, He.
Qed.

Lemma C10_empty_value_and_guard_witness :
  (∀ rs line,
     line ∈ split_lines (join NL migrated_header) →
     startswith line "  related-skills:" = true →
     add_related_skills_to_frontmatter migrated_doc rs = migrated_doc)
  ∧ (∀ before line after,
       ¬ occurs "  related-skills:" (join NL migrated_header) →
       anchor (split_lines (join NL migrated_header)) before line after →
       add_related_skills_to_frontmatter migrated_doc ""
       = "---" +:+ join NL (before ++ line :: "  related-skills: " :: after)
         +:+ "---" +:+ sample_body)
  ∧ (∀ HAS_PYYAML safe_load (fs : files) skill_name fm valid_dirs,
       fs !! skill_name = Some migrated_doc →
       parse_frontmatter HAS_PYYAML safe_load migrated_doc
       = Ret (Some fm, sample_body) →
       has_related_skills fm = false →
       extract_related_skills sample_body valid_dirs = "" →
       migrate_related_skills HAS_PYYAML safe_load fs skill_name valid_dirs false
       = Ret ((true, skill_name +:+ ": Added related-skills"),
              <[skill_name :=
                  add_related_skills_to_frontmatter migrated_doc ""]> fs)).
Proof.
  apply (C10_empty_value_and_guard migrated_doc
           (join NL migrated_header) sample_body).
  split; [reflexivity|]. apply contains_false. vm_compute. reflexivity.
Defined.

(** ** Running a pass again *)

Section SpliceAgain.

Implicit Types (s y body rs line : string) (ls before after : list string).

Lemma partition_here sep r : partition sep (sep +:+ r) = Some ("", r).
Proof.
  destruct (sep +:+ r) eqn:E; simpl; by rewrite <- E, strip_prefix_app.
Qed.

Lemma join_head sep line ls : ∃ t, join sep (line :: ls) = line +:+ t.
Proof.
  destruct ls as [|l ls].
  - exists "". by rewrite str_app_nil_r.
  - by exists (sep +:+ join sep (l :: ls)).
Qed.

Lemma join_prefix sep ls ls' :
  ls ≠ [] → ∃ t, join sep (ls ++ ls') = join sep ls +:+ t.
Proof.
  intros Hne. destruct ls' as [|l ls'].
  - exists "". by rewrite app_nil_r, str_app_nil_r.
  - rewrite join_app by done. by eexists.
Qed.

(** After the splice has put its line in, the header of the new text
    holds the marker the guard looks for. *)
Lemma spliced_header_marked y body rs before line after :
  ¬ occurs "---" y → split_lines y = before ++ line :: after →
  ∃ y' body',
    split2 "---"
      ("---" +:+ join NL (before ++ line :: related_line rs :: after)
       +:+ "---" +:+ body) = [""; y'; body']
    ∧ occurs "  related-skills:" y'.
Proof.
  intros Hfree Hlines.
  set (P0 := join NL (before ++ [line])).
  assert (¬ occurs "---" P0) as HP0.
  { intros Hocc. apply Hfree. rewrite <- (join_split_lines y), Hlines.
    rewrite (cons_middle line before after), (assoc_L (++)).
    destruct (join_prefix NL (before ++ [line]) after) as [t ->];
      [by destruct before|].
    by apply occurs_app_l. }
  destruct (join_head NL (related_line rs) after) as [tail Htail].
  assert (join NL (before ++ line :: related_line rs :: after)
          = P0 +:+ String "010" ("  related-skills:"
              +:+ String " " (rs +:+ tail))) as ->.
  { rewrite (cons_middle line before), (assoc_L (++)).
    rewrite join_app by by destruct before.
    rewrite Htail. unfold related_line, P0, NL.
    by rewrite !str_app_assoc. }
  unfold split2. rewrite partition_here.
  rewrite !str_app_assoc, (str_app_cons "010").
  rewrite partition_skip; [|done|done].
  rewrite !str_app_assoc, (str_app_cons " " (rs +:+ tail)).
  rewrite partition_skip;
    [|done|by apply contains_false; vm_compute].
  destruct (partition "---" ((rs +:+ tail) +:+ "---" +:+ body))
    as [[a b]|] eqn:Hp.
  - eexists _, _. split; [reflexivity|].
    exists (P0 +:+ NL), (String " " a). unfold NL.
    by rewrite !str_app_assoc.
  - apply partition_None in Hp. destruct Hp. by eexists _, _.
Qed.

(** The splice changes nothing in what it has produced. *)
Lemma add_related_fixed content y body rs rs' :
  header_of content y body →
  add_related_skills_to_frontmatter
    (add_related_skills_to_frontmatter content rs) rs'
  = add_related_skills_to_frontmatter content rs.
Proof.
  intros Hh. destruct (contains "  related-skills:" y) eqn:Hm.
  - apply contains_true in Hm.
    by rewrite !(add_related_guard _ _ _ _ Hh Hm).
  - apply contains_false in Hm.
    rewrite (add_related_splice _ _ _ rs Hh Hm).
    destruct (splice_lines_cases (split_lines y))
      as [(before & line & after & Ha)|(_ & _ & Hsame)].
    + rewrite (splice_lines_anchor _ _ _ _ _ Ha).
      destruct (spliced_header_marked y body rs before line after)
        as (y' & body' & Hs & Hmark).
      * by eapply header_of_free.
      * by destruct Ha as [(? & _)|(? & _)].
      * unfold add_related_skills_to_frontmatter at 1. rewrite Hs.
        by rewrite (proj2 (contains_true _ _) Hmark).
    + rewrite Hsame, join_split_lines.
      destruct Hh as [Hc Hfree]. rewrite <- Hc.
      rewrite (add_related_splice _ _ _ rs' (conj Hc Hfree) Hm).
      by rewrite Hsame, join_split_lines.
Qed.

End SpliceAgain.

(** A loop of [main] run a second time.  [pass1] is the pass of the first
    run and [pass2] the pass of the second (it may differ in its dry-run
    flag and in the set of valid names). *)
Section Rerun.

Variables pass1 pass2 : files → string → result (outcome * files).

(** The document [d] with text [c] is settled: the second pass leaves the
    documents as they are. *)
Definition settled (d : string) (c : option string) : Prop :=
  ∀ fs : files, fs !! d = c →
    match pass2 fs d with
    | Ret (_, fs') => fs' = fs
    | Raise => True
    end.

Hypothesis pass1_settles : ∀ (fs : files) d o (fs' : files),
  pass1 fs d = Ret (o, fs') →
  settled d (fs' !! d) ∧ ∀ d', d' ≠ d → fs' !! d' = fs !! d'.

Hypothesis pass1_raise : ∀ (fs : files) d,
  pass1 fs d = Raise → pass2 fs d = Raise.

Lemma run_loop_settled (pre rest : list string) (fs : files) (t : tally) :
  Forall (fun d => settled d (fs !! d)) pre →
  run_loop pass2 (pre ++ rest) fs t = (fs, Raise)
  ∨ ∃ t', run_loop pass2 (pre ++ rest) fs t = run_loop pass2 rest fs t'.
Proof.
  intros Hpre. revert t. induction Hpre as [|d pre Hd _ IH]; intros t.
  - right. by exists t.
  - simpl. specialize (Hd fs eq_refl).
    destruct (pass2 fs d) as [[o fs']|]; [|by left].
    subst fs'. apply IH.
Qed.

Lemma run_loop_again (dirs pre : list string) (fs : files) (t t' : tally) :
  Forall (fun d => settled d (fs !! d)) pre →
  (run_loop pass2 (pre ++ dirs) (run_loop pass1 dirs fs t).1 t').1
  = (run_loop pass1 dirs fs t).1.
Proof.
  revert pre fs t. induction dirs as [|d dirs IH]; intros pre fs t Hpre.
  - simpl. destruct (run_loop_settled pre [] fs t' Hpre) as [->|[t'' ->]];
      done.
  - simpl. destruct (pass1 fs d) as [[o fs']|] eqn:Hd.
    + rewrite (cons_middle d pre dirs), (assoc_L (++)). apply IH.
      destruct (pass1_settles _ _ _ _ Hd) as [Hs Hother].
      apply Forall_app. split; [|by constructor].
      eapply Forall_impl; [exact Hpre|]. intros d' Hd'. simpl in Hd'.
      destruct (decide (d' = d)) as [->|Hne]; [done|].
      by rewrite Hother.
    + simpl.
      destruct (run_loop_settled pre (d :: dirs) fs t' Hpre) as [->|[t'' ->]];
        [done|].
      simpl. by rewrite (pass1_raise _ _ Hd).
Qed.

End Rerun.

(** *** Pass B a second time *)

Section PassBAgain.

Variable HAS_PYYAML : bool.
Variable safe_load : string → result (option fields).

Lemma insert_same (fs : files) d c : fs !! d = Some c → <[d := c]> fs = fs.
Proof. apply insert_id. Qed.

Lemma pass_b_settles valid valid' dry' (fs : files) d o (fs' : files) :
  migrate_related_skills HAS_PYYAML safe_load fs d valid false = Ret (o, fs') →
  settled (fun fs d =>
             migrate_related_skills HAS_PYYAML safe_load fs d valid' dry')
    d (fs' !! d)
  ∧ ∀ d', d' ≠ d → fs' !! d' = fs !! d'.
Proof.
  unfold migrate_related_skills, settled.
  destruct (fs !! d) as [content|] eqn:Hfs.
  - destruct (parse_frontmatter HAS_PYYAML safe_load content)
      as [[[fm|] body]|] eqn:Hp; cbn [mbind result_bind]; [| |done].
    + destruct (has_related_skills fm) eqn:Hr.
      * intros [= <- <-]. split; [|done]. intros fs2 Hfs2.
        rewrite Hfs in Hfs2. rewrite Hfs2, Hp. cbn [mbind result_bind].
        by rewrite Hr.
      * intros [= <- <-]. split; [|by intros; rewrite lookup_insert_ne].
        intros fs2 Hfs2. rewrite lookup_insert_eq in Hfs2. rewrite Hfs2.
        destruct (parse_frontmatter HAS_PYYAML safe_load
                    (add_related_skills_to_frontmatter content _))
          as [[[fm2|] body2]|]; cbn [mbind result_bind]; [|done..].
        destruct (has_related_skills fm2); [done|].
        destruct dry'; [done|].
        destruct (parse_frontmatter_header _ _ _ _ _ Hp) as (y & Hh & _).
        rewrite (add_related_fixed _ _ _ _ _ Hh). by apply insert_same.
    + intros [= <- <-]. split; [|done]. intros fs2 Hfs2.
      rewrite Hfs in Hfs2. rewrite Hfs2, Hp. done.
  - intros [= <- <-]. split; [|done]. intros fs2 Hfs2.
    rewrite Hfs in Hfs2. by rewrite Hfs2.
Qed.

Lemma pass_b_raise valid valid' dry dry' (fs : files) d :
  migrate_related_skills HAS_PYYAML safe_load fs d valid dry = Raise →
  migrate_related_skills HAS_PYYAML safe_load fs d valid' dry' = Raise.
Proof.
  unfold migrate_related_skills.
  destruct (fs !! d) as [content|]; [|done].
  destruct (parse_frontmatter HAS_PYYAML safe_load content)
    as [[[fm|] body]|]; cbn [mbind result_bind]; [|done..].
  destruct (has_related_skills fm); [done|]. by destruct dry.
Qed.

End PassBAgain.

(** C9: whichever parser is in use, a document whose parsed [metadata] is
    a mapping with the key [related-skills] is skipped by Pass B and nothing
    is written; and after a first run of Pass B over the collection, a second
    run over the same documents (dry or not, with any set of valid names)
    leaves every file as the first run left it. *)
Theorem C9_pass_b_twice
    (HAS_PYYAML : bool) (safe_load : string → result (option fields)) :
  (∀ (fs : files) skill_name content fm body m valid_dirs dry_run,
     fs !! skill_name = Some content →
     parse_frontmatter HAS_PYYAML safe_load content = Ret (Some fm, body) →
     fm !! "metadata" = Some (VMap m) → "related-skills" ∈ m.*1 →
     migrate_related_skills HAS_PYYAML safe_load fs skill_name valid_dirs dry_run
     = Ret ((true, skill_name +:+ ": Already has related-skills (skipped)"), fs))
  ∧ (∀ (fs : files) skill_dirs valid_dirs valid_dirs' dry_run',
       let fs1 :=
         (run_related_skills HAS_PYYAML safe_load skill_dirs valid_dirs false fs).1 in
       (run_related_skills HAS_PYYAML safe_load skill_dirs valid_dirs' dry_run'
          fs1).1 = fs1).
Proof.
  split.
  - intros fs skill_name content fm body m valid_dirs dry_run Hfs Hp Hm Hk.
    unfold migrate_related_skills. rewrite Hfs, Hp. cbn [mbind result_bind].
    unfold has_related_skills. rewrite Hm.
    by rewrite bool_decide_eq_true_2.
  - intros fs skill_dirs valid_dirs valid_dirs' dry_run'. cbv zeta.
    unfold run_related_skills.
    apply (run_loop_again
             (fun fs d => migrate_related_skills HAS_PYYAML safe_load fs d
                            valid_dirs false)
             (fun fs d => migrate_related_skills HAS_PYYAML safe_load fs d
                            valid_dirs' dry_run')
             (pass_b_settles HAS_PYYAML safe_load valid_dirs valid_dirs' dry_run')
             (fun fs d => pass_b_raise HAS_PYYAML safe_load valid_dirs
                            valid_dirs' false dry_run' fs d)
             skill_dirs [] fs); constructor.
Qed.

(** ** The fallback parser: what its keys and values are *)

Section SimpleParse.

Implicit Types (s line k v : string) (st : simple_state) (fm : fields).

(** *** Parts of a text *)

Lemma occurs_refl s : occurs s s.
Proof. exists "", "". by rewrite str_app_nil_r. Qed.

Lemma occurs_lstrip f s : occurs (lstrip_with f s) s.
Proof.
  induction s as [|c s IH]; [apply occurs_refl|]. simpl.
  destruct (f c); [|apply occurs_refl].
  change (String c s) with (String c "" +:+ s). by apply occurs_app_r.
Qed.

Lemma rstrip_prefix f s : ∃ w, s = rstrip_with f s +:+ w.
Proof.
  induction s as [|c s [w IH]]; [by exists ""|]. simpl.
  destruct (rstrip_with f s) as [|c' r] eqn:E.
  - destruct (f c).
    + by exists (String c s).
    + exists w. rewrite str_app_cons. f_equal. by rewrite IH at 1.
  - exists w. rewrite str_app_cons. f_equal. by rewrite IH at 1.
Qed.

Lemma occurs_rstrip f s : occurs (rstrip_with f s) s.
Proof. destruct (rstrip_prefix f s) as [w Hw]. by exists "", w. Qed.

Lemma occurs_strip s : occurs (strip s) s.
Proof.
  eapply occurs_trans; [apply occurs_rstrip|apply occurs_lstrip].
Qed.

Lemma occurs_partition sep s a b :
  partition sep s = Some (a, b) → occurs a s ∧ occurs b s.
Proof.
  intros ->%partition_Some. split.
  - by exists "", (sep +:+ b).
  - exists (a +:+ sep), "". by rewrite str_app_nil_r, str_app_assoc.
Qed.

(** A property of texts that every part of a text inherits. *)
Definition hereditary (P : string → Prop) : Prop :=
  ∀ s t, P s → occurs t s → P t.

Lemma newline_free_hereditary : hereditary newline_free.
Proof.
  intros s t Hs (a & b & ->).
  apply newline_free_app in Hs as [_ Hs].
  by apply newline_free_app in Hs as [? _].
Qed.

Definition marker_free (s : string) : Prop := ¬ occurs "---" s.

Lemma marker_free_hereditary : hereditary marker_free.
Proof. intros s t Hs Ht Hm. apply Hs. by eapply occurs_trans. Qed.

(** A value whose texts all have the property [P]. *)
Definition pieces (P : string → Prop) (x : value) : Prop :=
  match x with
  | VStr s => P s
  | VList l => Forall P l
  | VMap _ => False
  end.

(** A value read by the fallback parser: one line of text, or a list of
    them. *)
Definition clean (x : value) : Prop := pieces newline_free x.

(** The key a line assigns, when the loop takes it for a key line. *)
Definition key_of (line : string) : option string :=
  if bool_decide (strip line = "") then None
  else if startswith line "  - " || startswith line "    - " then None
  else if contains ":" line && negb (startswith line " ") then
    match partition ":" line with
    | Some (k, _) => Some (strip k)
    | None => None
    end
  else None.

Section Invariant.

(** The keys the lines at hand may assign, and a hereditary property of
    these lines. *)
Variable K : string → Prop.
Variable P : string → Prop.
Hypothesis P_hereditary : hereditary P.

Definition parse_inv (st : simple_state) : Prop :=
  (∀ k, is_Some (frontmatter st !! k) → K k)
  ∧ (∀ k, current_key st = Some k → K k)
  ∧ map_Forall (fun _ x => pieces P x) (frontmatter st)
  ∧ (∀ l, current_list st = Some l → Forall P l).

Lemma flush_pending_inv st :
  parse_inv st →
  (∀ k, is_Some (flush_pending st !! k) → K k)
  ∧ map_Forall (fun _ x => pieces P x) (flush_pending st).
Proof.
  intros (Hfm & Hk & Hclean & Hl). unfold flush_pending.
  destruct (current_key st) as [k|]; [|done].
  destruct (current_list st) as [l|]; [|done].
  case_bool_decide; [done|]. split.
  - intros k' [x Hx]. destruct (decide (k = k')) as [<-|Hne]; [by apply Hk|].
    rewrite lookup_insert_ne in Hx by done. by apply Hfm.
  - apply map_Forall_insert_2; [|done]. by apply Hl.
Qed.

Lemma simple_step_inv st line :
  parse_inv st → P line →
  (∀ k, key_of line = Some k → K k) →
  parse_inv (simple_step st line).
Proof.
  intros Hinv Hline Hkey. pose proof Hinv as (Hfm & Hk & Hclean & Hl).
  unfold simple_step. unfold key_of in Hkey.
  case_bool_decide as Hblank; [done|].
  destruct (startswith line "  - " || startswith line "    - ").
  - destruct (current_key st) as [k|] eqn:Ek; [|done].
    destruct (current_list st) as [l|] eqn:El; [|done].
    case_bool_decide; [done|]. split_and!; simpl.
    + done.
    + intros k' [= <-]. by apply Hk.
    + done.
    + intros l' [= <-]. apply Forall_app. split; [by apply Hl|].
      constructor; [|done]. apply (P_hereditary line); [done|].
      eapply occurs_trans; [apply occurs_strip|].
      eapply occurs_trans; [apply occurs_lstrip|apply occurs_strip].
  - destruct (contains ":" line && negb (startswith line " ")); [|done].
    destruct (flush_pending_inv st Hinv) as [Hfm' Hclean'].
    destruct (partition ":" line) as [[k v]|] eqn:Hp; [|done].
    destruct (occurs_partition _ _ _ _ Hp) as [_ Hv].
    case_bool_decide; split_and!; simpl.
    + done.
    + intros k' [= <-]. by apply Hkey.
    + done.
    + by intros l' [= <-].
    + intros k' [x Hx]. destruct (decide (strip k = k')) as [<-|Hne].
      * by apply Hkey.
      * rewrite lookup_insert_ne in Hx by done. by apply Hfm'.
    + done.
    + apply map_Forall_insert_2; [|done]. apply (P_hereditary line); [done|].
      eapply occurs_trans; [apply occurs_strip|done].
    + done.
Qed.

Lemma foldl_simple_step_inv st lines :
  parse_inv st → Forall P lines →
  Forall (fun line => ∀ k, key_of line = Some k → K k) lines →
  parse_inv (foldl simple_step st lines).
Proof.
  revert st. induction lines as [|line lines IH]; intros st Hinv Hfree Hkeys;
    [done|].
  inversion Hfree; subst. inversion Hkeys; subst. simpl.
  apply IH; [|done..]. by apply simple_step_inv.
Qed.

Lemma parse_inv_init : parse_inv (SimpleState ∅ None None).
Proof.
  split_and!; simpl; try done; try apply map_Forall_empty.
  intros k [x Hx]. by rewrite lookup_empty in Hx.
Qed.

End Invariant.

Lemma True_hereditary : hereditary (fun _ => True).
Proof. done. Qed.

(** Every key of the mapping is assigned by a line of the stripped header. *)
Lemma simple_parse_keys y k :
  is_Some (simple_parse y !! k) →
  ∃ line, line ∈ split_lines (strip y) ∧ key_of line = Some k.
Proof.
  unfold simple_parse.
  set (K := fun k => ∃ line, line ∈ split_lines (strip y) ∧ key_of line = Some k).
  assert (parse_inv K (fun _ => True)
            (foldl simple_step (SimpleState ∅ None None)
               (split_lines (strip y)))) as Hinv.
  { apply foldl_simple_step_inv.
    - apply True_hereditary.
    - apply parse_inv_init.
    - by apply Forall_forall.
    - apply Forall_forall. intros line Hin k' Hk'. by exists line. }
  intros Hk. by apply (flush_pending_inv K (fun _ => True) _ Hinv).
Qed.

(** Every value of the mapping is made of parts of the header's lines. *)
Lemma simple_parse_pieces P y :
  hereditary P → Forall P (split_lines (strip y)) →
  map_Forall (fun _ x => pieces P x) (simple_parse y).
Proof.
  intros HP Hlines. unfold simple_parse.
  assert (parse_inv (fun _ => True) P
            (foldl simple_step (SimpleState ∅ None None)
               (split_lines (strip y)))) as Hinv.
  { apply foldl_simple_step_inv; [done| |done|].
    - apply parse_inv_init.
    - by apply Forall_forall. }
  by apply (flush_pending_inv (fun _ => True) P _ Hinv).
Qed.

Lemma simple_parse_clean y : map_Forall (fun _ x => clean x) (simple_parse y).
Proof.
  apply simple_parse_pieces.
  - apply newline_free_hereditary.
  - apply split_lines_newline_free.
Qed.

Lemma simple_parse_marker_free y :
  marker_free y → map_Forall (fun _ x => pieces marker_free x) (simple_parse y).
Proof.
  intros Hy. apply simple_parse_pieces.
  - apply marker_free_hereditary.
  - apply Forall_forall. intros line Hin.
    apply (marker_free_hereditary y); [done|].
    eapply occurs_trans; [by apply occurs_line|apply occurs_strip].
Qed.

End SimpleParse.

(** ** Pass A a second time (fallback parser) *)

Section Rebuilt.

Implicit Types (s t line l k : string) (fm : fields) (ls : list string).

(** *** The built lines hold no newline *)

Lemma repr_char_free c :
  newline_free (repr_char DQ c) ∧ newline_free (repr_char "'" c).
Proof. destruct c as [[] [] [] [] [] [] [] []]; split; vm_compute; reflexivity. Qed.

Lemma repr_free s : newline_free (repr s).
Proof.
  assert (∀ q, q = DQ ∨ q = "'"%char → newline_free (repr_body q s)) as Hbody.
  { intros q Hq. induction s as [|c s IH]; [done|]. simpl.
    apply newline_free_app. split; [|done].
    destruct Hq as [->| ->]; apply repr_char_free. }
  unfold repr. destruct (mem_char "'" s && negb (mem_char DQ s)).
  - apply newline_free_cons. split; [done|].
    apply newline_free_app. split; [apply Hbody; by left|done].
  - apply newline_free_cons. split; [done|].
    apply newline_free_app. split; [apply Hbody; by right|done].
Qed.

Lemma join_free sep ls :
  newline_free sep → Forall newline_free ls → newline_free (join sep ls).
Proof.
  intros Hsep. induction ls as [|l ls IH]; [done|]. intros Hls.
  apply Forall_cons in Hls as [Hl Hls].
  destruct ls as [|l' ls]; [done|].
  rewrite join_cons. apply newline_free_app_2; [done|].
  apply newline_free_app_2; [done|]. by apply IH.
Qed.

Lemma py_str_free (x : value) : clean x → newline_free (py_str x).
Proof.
  destruct x as [s|l|m]; [done| |done]. intros _. simpl.
  apply newline_free_app. split; [done|].
  apply newline_free_app. split; [|done].
  apply join_free; [done|]. apply Forall_forall.
  intros r (s & -> & _)%list_elem_of_fmap. apply repr_free.
Qed.

Lemma domain_free skill_name :
  newline_free (default "unknown" (SKILL_DOMAIN_MAP !! skill_name)).
Proof.
  destruct (SKILL_DOMAIN_MAP !! skill_name) as [d|] eqn:Hd; [|done].
  unfold SKILL_DOMAIN_MAP in Hd. apply elem_of_list_to_map_2 in Hd.
  apply (list_elem_of_fmap_2 snd) in Hd. simpl in Hd.
  revert d Hd. apply Forall_forall.
  repeat (constructor; [done|]). constructor.
Qed.

(** The lines between the two markers of the built header. *)
Definition inner_lines (fm : fields) (skill_name : string) (name desc : value)
    : list string :=
  ["name: " +:+ py_str name; description_line desc; "license: MIT"]
  ++ optional_line fm "" "allowed-tools"
  ++ ["metadata:";
      "  author: https://github.com/Jeffallan";
      "  version: " +:+ String DQ ("1.0.0" +:+ String DQ "");
      "  domain: " +:+ default "unknown" (SKILL_DOMAIN_MAP !! skill_name);
      "  triggers: " +:+ triggers_str fm]
  ++ optional_line fm "  " "role"
  ++ optional_line fm "  " "scope"
  ++ optional_line fm "  " "output-format".


Lemma optional_line_free fm indent key :
  map_Forall (fun _ x => clean x) fm → newline_free indent → newline_free key →
  Forall newline_free (optional_line fm indent key).
Proof.
  intros Hfm Hi Hk. unfold optional_line.
  destruct (fm !! key) as [x|] eqn:Hx; [|done]. constructor; [|done].
  apply newline_free_app. split; [done|].
  apply newline_free_app. split; [done|].
  apply newline_free_app. split; [done|].
  apply py_str_free. by apply (Hfm key).
Qed.

Lemma inner_lines_free fm skill_name name desc :
  map_Forall (fun _ x => clean x) fm →
  fm !! "name" = Some name → fm !! "description" = Some desc →
  Forall newline_free (inner_lines fm skill_name name desc).
Proof.
  intros Hfm Hn Hd. unfold inner_lines.
  pose proof (py_str_free name (Hfm _ _ Hn)) as Hname.
  pose proof (py_str_free desc (Hfm _ _ Hd)) as Hdesc.
  assert (newline_free (description_line desc)) as Hdl.
  { unfold description_line. destruct (needs_quotes desc).
    - apply newline_free_app_2; [done|].
      apply newline_free_cons. split; [done|]. by apply newline_free_app_2.
    - by apply newline_free_app_2. }
  assert (newline_free (triggers_str fm)) as Htr.
  { unfold triggers_str.
    destruct (fm !! "triggers") as [x|] eqn:Hx; [|done]. simpl.
    pose proof (Hfm _ _ Hx) as Hc. destruct x as [s|l|m]; [done| |done].
    by apply join_free. }
  pose proof (domain_free skill_name) as Hdom.
  repeat first
    [ apply Forall_nil_2
    | apply Forall_cons_2
    | apply Forall_app_2
    | apply optional_line_free; [done..] ];
    try done; by apply newline_free_app_2.
Qed.

End Rebuilt.

Section RebuiltKeys.

Implicit Types (s t line l k : string) (fm : fields) (ls : list string).

(** The lines of a prefix of a text are, place by place, prefixes of the
    lines of the text. *)
Lemma split_lines_prefix t r i line :
  split_lines t !! i = Some line →
  ∃ e, split_lines (t +:+ r) !! i = Some (line +:+ e).
Proof.
  revert i line. induction t as [|c t IH]; intros i line.
  - destruct i as [|i]; [|done]. intros [= <-]. rewrite str_app_nil_l.
    pose proof (split_lines_nonempty r).
    destruct (split_lines r) as [|h tl]; [done|]. by exists h.
  - rewrite str_app_cons, !split_lines_cons.
    pose proof (split_lines_nonempty t). pose proof (split_lines_nonempty (t +:+ r)).
    destruct (eqb_char c "010").
    + destruct i as [|i]; [intros [= <-]; by exists ""|]. apply IH.
    + destruct (split_lines t) as [|h tl] eqn:Et; [done|].
      destruct (split_lines (t +:+ r)) as [|h' tl'] eqn:Er; [done|].
      destruct i as [|i].
      * intros [= <-]. destruct (IH 0 h eq_refl) as [e He].
        injection He as ->. by exists e.
      * intros Hi. apply (IH (S i) line Hi).
Qed.

Lemma partition_char_first c k r :
  ¬ occurs (String c "") k →
  partition (String c "") (k +:+ String c r) = Some (k, r).
Proof.
  induction k as [|x k IH]; intros Hk.
  - rewrite str_app_nil_l. simpl. by rewrite eqb_char_refl.
  - rewrite str_app_cons. simpl.
    destruct (eqb_char c x) eqn:E.
    { apply eqb_char_eq in E as ->. destruct Hk. by exists "", k. }
    rewrite IH; [done|].
    intros (a & b & ->). apply Hk. by exists (String x a), b.
Qed.







End RebuiltKeys.

Section PassAAgain.

Variable safe_load : string → result (option fields).

Implicit Types (s t line l k body : string) (fm : fields) (fs : files).

Lemma join_wrap (inner : list string) :
  inner ≠ [] →
  join NL ("---" :: inner ++ ["---"])
  = "---" +:+ NL +:+ join NL (inner ++ [""]) +:+ "---".
Proof.
  intros Hne. destruct inner as [|l inner]; [done|].
  change (join NL ("---" :: (l :: inner) ++ ["---"]))
    with ("---" +:+ NL +:+ join NL ((l :: inner) ++ ["---"])).
  rewrite !(join_app NL (l :: inner)) by done.
  change (join NL ["---"]) with "---". change (join NL [""]) with "".
  by rewrite !str_app_assoc, str_app_nil_l.
Qed.



End PassAAgain.


(** ** The fallback parser against the structured reading *)

(** A header of the shape the two parsers are compared on: scalar lines
    [key: value] at the left margin, and list fields, a bare [key:] line
    followed by the lines [<indent>- item]. *)
Inductive entry :=
| Scalar (key value : string)
| Sequence (key indent : string) (items : list string).

Definition render_entry (e : entry) : list string :=
  match e with
  | Scalar k v => [k +:+ ": " +:+ v]
  | Sequence k indent items =>
      (k +:+ ":") :: map (fun item => indent +:+ "- " +:+ item) items
  end.

Definition header_lines (es : list entry) : list string :=
  concat (map render_entry es).

Definition header_text (es : list entry) : string := join NL (header_lines es).

(** Modelled from the spec: the mapping the full structured reader (PyYAML,
    a library outside the repository) returns for a header of this shape
    whose scalars are plain text: each scalar line binds its key to the
    value, each list field binds its key to its items in order, and a later
    entry replaces an earlier one with the same key. *)
Definition structured_entry (m : fields) (e : entry) : fields :=
  match e with
  | Scalar k v => <[k := VStr v]> m
  | Sequence k _ items => <[k := VList items]> m
  end.

Definition structured_mapping (es : list entry) : fields :=
  foldl structured_entry ∅ es.

(** Plain text: it starts with a character that is not blank, holds no
    newline, and ends without blanks. *)
Definition starts_plain (s : string) : bool :=
  match s with
  | String c _ => negb (is_space c)
  | EmptyString => false
  end.

Definition plain (s : string) : bool :=
  starts_plain s && negb (mem_char "010" s)
  && bool_decide (rstrip_with is_space s = s).

Definition plain_key (k : string) : bool := plain k && negb (contains ":" k).

(** An item the fallback parser reads back: plain text that does not start
    with a dash. *)
Definition plain_item (item : string) : bool :=
  plain item && bool_decide (lstrip_chars "- " item = item).

Definition fallback_indent (indent : string) : bool :=
  bool_decide (indent = "  ") || bool_decide (indent = "    ").

Definition plain_entry (e : entry) : bool :=
  match e with
  | Scalar k v => plain_key k && plain v
  | Sequence k indent items =>
      plain_key k && fallback_indent indent
      && negb (bool_decide (items = [])) && forallb plain_item items
  end.

(** C2, as stated, fails: a list item that starts with dashes loses them in
    the fallback parser, and items indented by one space (or three) are not
    read at all, while the structured reading keeps them. *)
Lemma C2_fallback_drops_dashes_and_items :
  (simple_parse (NL +:+ header_text [Sequence "triggers" "  " ["--watch"]] +:+ NL)
   = {[ "triggers" := VList ["watch"] ]}
   ∧ structured_mapping [Sequence "triggers" "  " ["--watch"]]
     = {[ "triggers" := VList ["--watch"] ]})
  ∧ (simple_parse (NL +:+ header_text [Sequence "triggers" " " ["React"]] +:+ NL)
     = {[ "triggers" := VList [] ]}
     ∧ structured_mapping [Sequence "triggers" " " ["React"]]
       = {[ "triggers" := VList ["React"] ]}).
Proof. split_and!; vm_compute; reflexivity. Qed.

Section FallbackReads.

Implicit Types (s t k v item line indent : string) (st : simple_state)
  (es : list entry) (ls : list string).

Lemma rstrip_app f a b :
  rstrip_with f b ≠ "" → rstrip_with f (a +:+ b) = a +:+ rstrip_with f b.
Proof.
  intros Hb. induction a as [|c a IH]; [done|].
  rewrite !str_app_cons. simpl. rewrite IH.
  destruct (a +:+ rstrip_with f b) eqn:E; [|done].
  by apply str_app_eq_nil in E as [_ ?].
Qed.

Lemma rstrip_newline s :
  rstrip_with is_space (s +:+ NL) = rstrip_with is_space s.
Proof.
  induction s as [|c s IH]; [done|]. rewrite str_app_cons. simpl.
  by rewrite IH.
Qed.

Lemma starts_plain_inv s :
  starts_plain s = true → ∃ c r, s = String c r ∧ is_space c = false.
Proof.
  destruct s as [|c r]; [done|]. simpl. intros ?%negb_true_iff. by exists c, r.
Qed.

Lemma starts_plain_app s t : starts_plain s = true → starts_plain (s +:+ t) = true.
Proof. by destruct s. Qed.

Lemma starts_plain_lstrip s :
  starts_plain s = true → lstrip_with is_space s = s.
Proof. intros (c & r & -> & Hc)%starts_plain_inv. simpl. by rewrite Hc. Qed.

Lemma starts_plain_strip s : starts_plain s = true → strip s ≠ "".
Proof.
  intros Hs. unfold strip. rewrite starts_plain_lstrip by done.
  apply starts_plain_inv in Hs as (c & r & -> & Hc). simpl.
  destruct (rstrip_with is_space r); [by rewrite Hc|done].
Qed.

Lemma starts_plain_margin s p :
  starts_plain s = true → startswith s (String " " p) = false.
Proof.
  intros (c & r & -> & Hc)%starts_plain_inv.
  apply startswith_false. intros [r' Hr]. rewrite str_app_cons in Hr.
  injection Hr as -> _. done.
Qed.

Lemma plain_inv s :
  plain s = true →
  starts_plain s = true ∧ newline_free s ∧ rstrip_with is_space s = s.
Proof.
  unfold plain. intros [[? ?%negb_true_iff]%andb_true_iff ?%bool_decide_eq_true]%andb_true_iff.
  done.
Qed.

Lemma plain_strip s : plain s = true → strip s = s.
Proof.
  intros (Hs & _ & Hr)%plain_inv. unfold strip.
  by rewrite starts_plain_lstrip.
Qed.

Lemma plain_nonempty s : plain s = true → s ≠ "".
Proof. intros (Hs & _)%plain_inv ->. done. Qed.

Lemma plain_key_inv k :
  plain_key k = true → plain k = true ∧ ¬ occurs ":" k.
Proof.
  unfold plain_key. intros [? ?%negb_true_iff]%andb_true_iff.
  split; [done|]. by apply contains_false.
Qed.

(** *** One line at a time *)

Lemma simple_step_scalar st k v :
  plain_key k = true → plain v = true →
  simple_step st (k +:+ ": " +:+ v)
  = SimpleState (<[k := VStr v]> (flush_pending st)) None None.
Proof.
  intros [Hk Hcolon]%plain_key_inv Hv. unfold simple_step.
  pose proof (plain_inv k Hk) as (Hks & _).
  pose proof (starts_plain_app k (": " +:+ v) Hks) as Hline.
  rewrite bool_decide_eq_false_2 by by apply starts_plain_strip.
  rewrite !starts_plain_margin by done. cbn [orb negb andb].
  rewrite (proj2 (contains_true ":" _)) by by exists k, (" " +:+ v).
  cbn [andb].
  change (k +:+ ": " +:+ v) with (k +:+ String ":" (" " +:+ v)).
  rewrite partition_char_first by done.
  rewrite (plain_strip k Hk).
  change (strip (" " +:+ v)) with (strip v). rewrite (plain_strip v Hv).
  by rewrite bool_decide_eq_false_2 by by apply plain_nonempty.
Qed.

Lemma simple_step_key st k :
  plain_key k = true →
  simple_step st (k +:+ ":") = SimpleState (flush_pending st) (Some k) (Some []).
Proof.
  intros [Hk Hcolon]%plain_key_inv. unfold simple_step.
  pose proof (plain_inv k Hk) as (Hks & _).
  pose proof (starts_plain_app k ":" Hks) as Hline.
  rewrite bool_decide_eq_false_2 by by apply starts_plain_strip.
  rewrite !starts_plain_margin by done. cbn [orb negb andb].
  rewrite (proj2 (contains_true ":" _)) by by exists k, "".
  cbn [andb].
  change (k +:+ ":") with (k +:+ String ":" "").
  rewrite partition_char_first by done.
  by rewrite (plain_strip k Hk).
Qed.

Lemma simple_step_item (fm : fields) k acc indent item :
  k ≠ "" → fallback_indent indent = true → plain_item item = true →
  simple_step (SimpleState fm (Some k) (Some acc)) (indent +:+ "- " +:+ item)
  = SimpleState fm (Some k) (Some (acc ++ [item])).
Proof.
  intros Hk Hind [Hitem Hdash%bool_decide_eq_true]%andb_true_iff.
  pose proof (plain_inv item Hitem) as (Hs & _ & Hr).
  assert (strip (indent +:+ "- " +:+ item) = "- " +:+ item) as Hstrip.
  { assert (lstrip_with is_space (indent +:+ "- " +:+ item) = "- " +:+ item)
      as Hl.
    { apply orb_true_iff in Hind as [->%bool_decide_eq_true| ->%bool_decide_eq_true];
        reflexivity. }
    unfold strip. rewrite Hl, rstrip_app; rewrite Hr; [done|].
    by apply plain_nonempty. }
  unfold simple_step. rewrite Hstrip.
  rewrite bool_decide_eq_false_2 by done.
  assert (startswith (indent +:+ "- " +:+ item) "  - "
          || startswith (indent +:+ "- " +:+ item) "    - " = true) as ->.
  { apply orb_true_iff in Hind as [->%bool_decide_eq_true| ->%bool_decide_eq_true].
    - apply orb_true_iff. left. apply startswith_true. by exists item.
    - apply orb_true_iff. right. apply startswith_true. by exists item. }
  cbn [current_key current_list frontmatter].
  rewrite bool_decide_eq_false_2 by done.
  change (lstrip_chars "- " ("- " +:+ item)) with (lstrip_chars "- " item).
  by rewrite Hdash, (plain_strip item Hitem).
Qed.

Lemma foldl_simple_step_items (fm : fields) k acc indent items :
  k ≠ "" → fallback_indent indent = true → forallb plain_item items = true →
  foldl simple_step (SimpleState fm (Some k) (Some acc))
    (map (fun item => indent +:+ "- " +:+ item) items)
  = SimpleState fm (Some k) (Some (acc ++ items)).
Proof.
  intros Hk Hind. revert acc.
  induction items as [|item items IH]; intros acc Hitems.
  - by rewrite app_nil_r.
  - simpl in Hitems. apply andb_true_iff in Hitems as [Hitem Hitems].
    simpl. rewrite simple_step_item by done. rewrite IH by done.
    by rewrite <- (assoc_L (++)).
Qed.

(** The lines of one entry bring the pending state to that entry: the
    mapping flushed afterwards is the structured reading of the entry. *)
Lemma foldl_simple_step_entry st e :
  plain_entry e = true →
  flush_pending (foldl simple_step st (render_entry e))
  = structured_entry (flush_pending st) e.
Proof.
  destruct e as [k v|k indent items]; simpl.
  - intros [Hk Hv]%andb_true_iff. by rewrite simple_step_scalar.
  - intros [[[Hk Hind]%andb_true_iff _]%andb_true_iff Hitems]%andb_true_iff.
    rewrite simple_step_key by done.
    assert (k ≠ "") as Hne.
    { apply plain_key_inv in Hk as [Hk _]. by apply plain_nonempty. }
    rewrite foldl_simple_step_items by done.
    unfold flush_pending at 1. simpl. by rewrite bool_decide_eq_false_2.
Qed.

Lemma foldl_simple_step_entries st es :
  forallb plain_entry es = true →
  flush_pending (foldl simple_step st (header_lines es))
  = foldl structured_entry (flush_pending st) es.
Proof.
  revert st. induction es as [|e es IH]; intros st Hes; [done|].
  simpl in Hes. apply andb_true_iff in Hes as [He Hes].
  unfold header_lines. simpl. rewrite foldl_app.
  fold (header_lines es). rewrite IH by done.
  by rewrite foldl_simple_step_entry.
Qed.

End FallbackReads.

Section FallbackText.

Implicit Types (s t k v item line indent : string) (es : list entry)
  (ls : list string).

(** A rendered line: no newline, no blank at its end, not empty. *)
Definition line_ok (l : string) : Prop :=
  newline_free l ∧ rstrip_with is_space l = l ∧ l ≠ "".

Lemma line_ok_app s t : newline_free s → line_ok t → line_ok (s +:+ t).
Proof.
  intros Hs (Ht & Hr & Hne). split_and!.
  - by apply newline_free_app_2.
  - rewrite rstrip_app; rewrite Hr; done.
  - intros [_ ?]%str_app_eq_nil. done.
Qed.

Lemma plain_line_ok s : plain s = true → line_ok s.
Proof.
  intros Hs. pose proof (plain_inv s Hs) as (_ & Hf & Hr).
  split_and!; [done..|]. by apply plain_nonempty.
Qed.

Lemma render_entry_ok e :
  plain_entry e = true → Forall line_ok (render_entry e).
Proof.
  destruct e as [k v|k indent items]; simpl.
  - intros [[Hk _]%plain_key_inv Hv]%andb_true_iff.
    constructor; [|done]. pose proof (plain_inv k Hk) as (_ & Hkf & _).
    apply line_ok_app; [done|]. apply line_ok_app; [done|].
    by apply plain_line_ok.
  - intros [[[[Hk _]%plain_key_inv Hind]%andb_true_iff _]%andb_true_iff
             Hitems]%andb_true_iff.
    pose proof (plain_inv k Hk) as (_ & Hkf & _).
    constructor; [by apply line_ok_app|].
    apply Forall_forall. intros l (item & -> & Hin)%list_elem_of_fmap.
    rewrite forallb_forall in Hitems.
    apply list_elem_of_In, Hitems in Hin.
    apply andb_true_iff in Hin as [Hin _].
    apply line_ok_app.
    { apply orb_true_iff in Hind as [->%bool_decide_eq_true| ->%bool_decide_eq_true];
        done. }
    apply line_ok_app; [done|]. by apply plain_line_ok.
Qed.

Lemma header_lines_ok es :
  forallb plain_entry es = true → Forall line_ok (header_lines es).
Proof.
  induction es as [|e es IH]; [done|]. simpl.
  intros [He Hes]%andb_true_iff. unfold header_lines. simpl.
  apply Forall_app_2; [by apply render_entry_ok|by apply IH].
Qed.

Lemma join_ok ls :
  ls ≠ [] → Forall line_ok ls →
  rstrip_with is_space (join NL ls) = join NL ls ∧ join NL ls ≠ "".
Proof.
  induction ls as [|l ls IH]; [done|]. intros _ Hls.
  apply Forall_cons in Hls as [Hl Hls].
  destruct ls as [|l' ls]; [by destruct Hl as (_ & ? & ?)|].
  rewrite join_cons. destruct (IH ltac:(done) Hls) as [Hr Hn].
  split.
  - rewrite <- str_app_assoc, rstrip_app; rewrite Hr; [|done].
    by rewrite str_app_assoc.
  - intros [_ [_ ?]%str_app_eq_nil]%str_app_eq_nil. done.
Qed.

Lemma header_text_starts es :
  es ≠ [] → forallb plain_entry es = true → starts_plain (header_text es) = true.
Proof.
  destruct es as [|e es]; [done|]. intros _. simpl.
  intros [He _]%andb_true_iff. unfold header_text, header_lines.
  change (map render_entry (e :: es))
    with (render_entry e :: map render_entry es).
  change (concat (render_entry e :: map render_entry es))
    with (render_entry e ++ header_lines es).
  destruct e as [k v|k indent items]; simpl in He.
  - apply andb_true_iff in He as [[Hk _]%plain_key_inv _].
    pose proof (plain_inv k Hk) as (Hs & _).
    destruct (join_head NL (k +:+ ": " +:+ v) (header_lines es)) as [t Ht].
    change (render_entry (Scalar k v) ++ header_lines es)
      with ((k +:+ ": " +:+ v) :: header_lines es).
    rewrite Ht, str_app_assoc. by apply starts_plain_app.
  - apply andb_true_iff in He as [He _]. apply andb_true_iff in He as [He _].
    apply andb_true_iff in He as [[Hk _]%plain_key_inv _].
    pose proof (plain_inv k Hk) as (Hs & _).
    destruct (join_head NL (k +:+ ":")
                (map (fun item => indent +:+ "- " +:+ item) items
                 ++ header_lines es)) as [t Ht].
    change (render_entry (Sequence k indent items) ++ header_lines es)
      with ((k +:+ ":") :: map (fun item => indent +:+ "- " +:+ item) items
                           ++ header_lines es).
    rewrite Ht, str_app_assoc. by apply starts_plain_app.
Qed.

(** The text between the markers, stripped, is the header itself. *)
Lemma strip_header_text es :
  es ≠ [] → forallb plain_entry es = true →
  strip (NL +:+ header_text es +:+ NL) = header_text es.
Proof.
  intros Hne Hes. pose proof (header_text_starts es Hne Hes) as Hs.
  unfold strip.
  change (lstrip_with is_space (NL +:+ header_text es +:+ NL))
    with (lstrip_with is_space (header_text es +:+ NL)).
  rewrite starts_plain_lstrip by by apply starts_plain_app.
  rewrite rstrip_newline.
  assert (header_lines es ≠ []) as Hlines.
  { destruct es as [|[k v|k indent items] es]; done. }
  by destruct (join_ok (header_lines es) Hlines (header_lines_ok es Hes))
    as (? & _).
Qed.

Lemma simple_parse_header_text es :
  forallb plain_entry es = true →
  simple_parse (NL +:+ header_text es +:+ NL) = structured_mapping es.
Proof.
  intros Hes. destruct (decide (es = [])) as [->|Hne]; [done|].
  unfold simple_parse. rewrite strip_header_text by done.
  unfold header_text. rewrite split_lines_join.
  - by rewrite foldl_simple_step_entries.
  - destruct es as [|[k v|k indent items] es]; done.
  - eapply Forall_impl; [by apply header_lines_ok|]. by intros l (? & _).
Qed.

End FallbackText.

(** C2, amended: for every header made of scalar lines [key: value] and
    list fields whose keys, values and items are plain text (no blank at
    either end, no newline, not empty), whose keys hold no colon, whose
    items do not start with a dash, and whose list fields have at least one
    item, each item line indented by exactly two or four spaces, the
    fallback parser returns the mapping the structured reading gives: every
    scalar key bound to its value and every list key bound to its items in
    order.  This holds for the header as [parse_frontmatter] cuts it from a
    document, when no marker occurs inside it. *)
Theorem C2_fallback_reads_plain_headers (es : list entry) :
  forallb plain_entry es = true →
  simple_parse (NL +:+ header_text es +:+ NL) = structured_mapping es
  ∧ ∀ safe_load body,
      ¬ occurs "---" ((NL +:+ header_text es +:+ NL) +:+ "--") →
      parse_frontmatter false safe_load
        ("---" +:+ (NL +:+ header_text es +:+ NL) +:+ "---" +:+ body)
      = Ret (Some (structured_mapping es), body).
Proof.
  intros Hes. split; [by apply simple_parse_header_text|].
  intros safe_load body Hfree. unfold parse_frontmatter.
  rewrite (proj2 (startswith_true _ "---")) by by eexists.
  cbn [negb]. rewrite (header_of_split2 _ _ body (conj eq_refl Hfree)).
  by rewrite simple_parse_header_text.
Qed.

Definition plain_sample : list entry :=
  [ Scalar "name" "react-expert";
    Scalar "description" "Use when building React apps";
    Sequence "triggers" "  " ["React"; "JSX"];
    Scalar "role" "specialist";
    Sequence "tools" "    " ["Read"; "Grep"] ].

Lemma C2_fallback_reads_plain_headers_witness :
  simple_parse (NL +:+ header_text plain_sample +:+ NL)
  = structured_mapping plain_sample
  ∧ ∀ safe_load body,
      ¬ occurs "---" ((NL +:+ header_text plain_sample +:+ NL) +:+ "--") →
      parse_frontmatter false safe_load
        ("---" +:+ (NL +:+ header_text plain_sample +:+ NL) +:+ "---" +:+ body)
      = Ret (Some (structured_mapping plain_sample), body).
Proof.
  apply (C2_fallback_reads_plain_headers plain_sample). vm_compute. reflexivity.
Defined.

(** ** A rebuilt document is read back with its [metadata] key *)

Section MarkerFree.

Implicit Types (s t a b x : string) (c q : ascii) (ls : list string)
  (fm : fields).

(** Two texts without a marker, joined by a character that is no dash. *)
Lemma marker_free_sep a c b :
  c ≠ "-"%char → marker_free a → marker_free b →
  marker_free (a +:+ String c b).
Proof.
  intros Hc Ha Hb Hocc. apply partition_is_Some in Hocc as [[u v] Hp].
  assert (eqb_char "-" c = false) as Hd by (apply eqb_char_neq; congruence).
  rewrite partition_skip in Hp; [|cbn [mem_char]; by rewrite Hd|done].
  apply partition_None in Hb. by rewrite Hb in Hp.
Qed.

Definition dashless (x : string) : Prop := mem_char "-" x = false.

Lemma dashless_app x b : dashless x → marker_free b → marker_free (x +:+ b).
Proof.
  induction x as [|c x IH]; [done|]. unfold dashless. simpl.
  intros [Hc Hx]%orb_false_iff Hb. apply eqb_char_neq in Hc.
  rewrite str_app_cons. apply (marker_free_sep "" c); [congruence| |by apply IH].
  by apply contains_false.
Qed.

Lemma marker_free_short : marker_free "" ∧ marker_free "-" ∧ marker_free "--".
Proof. split_and!; by apply contains_false. Qed.

Lemma repr_char_dash c :
  (c = "-"%char ∧ repr_char DQ c = "-" ∧ repr_char "'" c = "-")
  ∨ (c ≠ "-"%char
     ∧ (∃ d r, repr_char DQ c = String d r ∧ dashless (String d r))
     ∧ (∃ d r, repr_char "'" c = String d r ∧ dashless (String d r))).
Proof.
  destruct c as [[] [] [] [] [] [] [] []];
    first [ left; split_and!; reflexivity
          | right; split_and!; [done|by eexists _, _..] ].
Qed.

Lemma repr_body_marker_free q s p :
  q = DQ ∨ q = "'"%char → p = "" ∨ p = "-" ∨ p = "--" →
  marker_free (p +:+ s) → marker_free (p +:+ repr_body q s).
Proof.
  intros Hq. revert p. induction s as [|c s IH]; intros p Hp Hs; [done|].
  cbn [repr_body].
  destruct (repr_char_dash c) as [(-> & Hd & Ha)|(Hc & (d & r & Hd & Hdl) & (d' & r' & Ha & Hal))].
  - assert (repr_char q "-" = "-") as -> by by destruct Hq as [->| ->].
    destruct Hp as [->|[->| ->]].
    + apply (IH "-"); auto.
    + apply (IH "--"); auto.
    + destruct Hs. by exists "", s.
  - assert (∃ d r, repr_char q c = String d r ∧ dashless (String d r))
      as (e & t & -> & He) by (destruct Hq as [->| ->]; eauto).
    assert (marker_free s) as Hs'.
    { apply (marker_free_hereditary _ s) in Hs; [done|].
      exists (p +:+ String c ""), "".
      by rewrite str_app_nil_r, str_app_assoc. }
    specialize (IH "" ltac:(auto) Hs'). rewrite str_app_nil_l in IH.
    unfold dashless in He. simpl in He.
    apply orb_false_iff in He as [He Ht]. apply eqb_char_neq in He.
    rewrite str_app_cons. apply marker_free_sep; [congruence| |].
    + destruct marker_free_short as (? & ? & ?).
      by destruct Hp as [->|[->| ->]].
    + by apply dashless_app.
Qed.

Lemma repr_marker_free s : marker_free s → marker_free (repr s).
Proof.
  intros Hs. unfold repr.
  assert (∀ q, q = DQ ∨ q = "'"%char →
               marker_free (String q (repr_body q s +:+ String q ""))) as Hq.
  { intros q Hq. apply (marker_free_sep "" q).
    - by destruct Hq as [->| ->].
    - by apply contains_false.
    - apply marker_free_sep.
      + by destruct Hq as [->| ->].
      + apply (repr_body_marker_free q s ""); auto.
      + by apply contains_false. }
  destruct (mem_char "'" s && negb (mem_char DQ s)); apply Hq; auto.
Qed.

(** Texts without a marker, joined by a separator that starts with a
    character other than a dash and holds no dash. *)
Lemma join_marker_free c sep ls :
  c ≠ "-"%char → dashless sep → Forall marker_free ls →
  marker_free (join (String c sep) ls).
Proof.
  intros Hc Hsep. induction ls as [|l ls IH]; intros Hls.
  - by apply contains_false.
  - apply Forall_cons in Hls as [Hl Hls].
    destruct ls as [|l' ls]; [done|].
    rewrite join_cons, str_app_cons.
    apply marker_free_sep; [done..|]. apply dashless_app; [done|]. by apply IH.
Qed.

Lemma py_str_marker_free (x : value) :
  pieces marker_free x → marker_free (py_str x).
Proof.
  destruct x as [s|l|m]; [done| |done]. intros Hl. simpl.
  change ("[" +:+ join ", " (map repr l) +:+ "]")
    with ("" +:+ String "[" (join ", " (map repr l) +:+ String "]" "")).
  apply marker_free_sep; [done|by apply contains_false|].
  apply marker_free_sep; [done| |by apply contains_false].
  apply (join_marker_free "," " "); [done..|].
  apply Forall_forall. intros r (s & -> & Hs)%list_elem_of_fmap.
  apply repr_marker_free. by eapply Forall_forall in Hl.
Qed.

Lemma domain_marker_free skill_name :
  marker_free (default "unknown" (SKILL_DOMAIN_MAP !! skill_name)).
Proof.
  destruct (SKILL_DOMAIN_MAP !! skill_name) as [d|] eqn:Hd;
    [|by apply contains_false].
  unfold SKILL_DOMAIN_MAP in Hd. apply elem_of_list_to_map_2 in Hd.
  apply (list_elem_of_fmap_2 snd) in Hd. simpl in Hd.
  revert d Hd. apply Forall_forall.
  repeat (constructor; [by apply contains_false|]). constructor.
Qed.

(** A line [<label> <text>], where the label ends with a colon. *)
Lemma labelled_marker_free label t :
  marker_free label → marker_free t → marker_free (label +:+ String " " t).
Proof. intros. by apply marker_free_sep. Qed.

Lemma optional_line_marker_free fm indent key :
  map_Forall (fun _ (v : value) => pieces marker_free v) fm →
  marker_free (indent +:+ key +:+ ":") →
  Forall marker_free (optional_line fm indent key).
Proof.
  intros Hfm Hlabel. unfold optional_line.
  destruct (fm !! key) as [x|] eqn:Hx; [|done]. constructor; [|done].
  change (indent +:+ key +:+ ": " +:+ py_str x)
    with (indent +:+ key +:+ ":" +:+ String " " (py_str x)).
  rewrite <- !str_app_assoc. apply labelled_marker_free.
  - by rewrite !str_app_assoc.
  - apply py_str_marker_free. by apply (Hfm key).
Qed.

Lemma inner_lines_marker_free fm skill_name name desc :
  map_Forall (fun _ (v : value) => pieces marker_free v) fm →
  fm !! "name" = Some name → fm !! "description" = Some desc →
  Forall marker_free (inner_lines fm skill_name name desc).
Proof.
  intros Hfm Hn Hd. unfold inner_lines.
  pose proof (py_str_marker_free name (Hfm _ _ Hn)) as Hname.
  pose proof (py_str_marker_free desc (Hfm _ _ Hd)) as Hdesc.
  assert (marker_free (triggers_str fm)) as Htr.
  { unfold triggers_str.
    destruct (fm !! "triggers") as [x|] eqn:Hx; [|by apply contains_false].
    simpl. pose proof (Hfm _ _ Hx) as Hc. destruct x as [s|l|m]; [done| |done].
    by apply (join_marker_free "," " "). }
  pose proof (domain_marker_free skill_name) as Hdom.
  assert (marker_free (description_line desc)) as Hdl.
  { unfold description_line. destruct (needs_quotes desc).
    - apply (labelled_marker_free "description:");
        [by apply contains_false|].
      apply (marker_free_sep "" DQ); [done|by apply contains_false|].
      apply marker_free_sep; [done..|by apply contains_false].
    - by apply (labelled_marker_free "description:");
        [apply contains_false|]. }
  repeat first
    [ apply Forall_nil_2
    | apply Forall_cons_2
    | apply Forall_app_2
    | apply optional_line_marker_free; [done|by apply contains_false] ];
    try done; try (by apply contains_false).
  - by apply (labelled_marker_free "name:"); [apply contains_false|].
  - by apply (labelled_marker_free "  domain:"); [apply contains_false|].
  - by apply (labelled_marker_free "  triggers:"); [apply contains_false|].
Qed.

End MarkerFree.

Section MetadataBound.

Variable safe_load : string → result (option fields).

Implicit Types (s t k line body : string) (st : simple_state)
  (fm : fields) (ls : list string) (fs : files).





Lemma split_lines_join_app ls r :
  ls ≠ [] → Forall newline_free ls →
  split_lines (join NL ls +:+ NL +:+ r) = ls ++ split_lines r.
Proof.
  induction ls as [|l [|l' ls] IH]; intros Hne Hfree; [done| |].
  - apply Forall_cons in Hfree as [Hl _]. by apply split_lines_line.
  - apply Forall_cons in Hfree as [Hl Hfree].
    rewrite join_cons, !str_app_assoc, split_lines_line by done.
    rewrite IH by done. done.
Qed.



Lemma str_app_inj_l s t t' : s +:+ t = s +:+ t' → t = t'.
Proof.
  induction s as [|c s IH]; [done|]. rewrite !str_app_cons.
  intros [= Heq]. by apply IH.
Qed.


End MetadataBound.

(** *** Pass A a second time, with the full reader *)













(** ** The extractor on a section that is not empty *)

(** A section as the documents write it: text without asterisks around
    display names set in bold. *)
Fixpoint bold_text (items : list (string * string)) (tail : string) : string :=
  match items with
  | [] => tail
  | (before, name) :: items' =>
      before +:+ "**" +:+ name +:+ "**" +:+ bold_text items' tail
  end.

Definition star_free (s : string) : Prop := mem_char "*" s = false.

(** A display name: not empty, on one line, without asterisks. *)
Definition display_name (s : string) : Prop :=
  s ≠ "" ∧ star_free s ∧ newline_free s.

Definition blank (s : string) : Prop :=
  Forall (fun c => is_space c = true) (String.list_ascii_of_string s).

Section Extractor.

Implicit Types (s t u name sec rest pre ws : string)
  (items : list (string * string)).

Lemma star_free_cons c s :
  star_free (String c s) ↔ c ≠ "*"%char ∧ star_free s.
Proof.
  unfold star_free. simpl. rewrite orb_false_iff, eqb_char_neq.
  split; intros [? ?]; split; congruence.
Qed.

Lemma strip_prefix_stars_None c s :
  c ≠ "*"%char → strip_prefix "**" (String c s) = None.
Proof.
  intros Hc. cbn [strip_prefix]. by rewrite (proj2 (eqb_char_neq "*" c)).
Qed.

Lemma bold_run_name name s :
  display_name name → bold_run (name +:+ "**" +:+ s) = Some (name, s).
Proof.
  intros (Hne & Hstar & Hfree).
  induction name as [|c name IH]; [done|].
  apply star_free_cons in Hstar as [Hc Hstar].
  apply newline_free_cons in Hfree as [Hnl Hfree].
  rewrite str_app_cons. cbn [bold_run].
  rewrite (proj2 (eqb_char_neq c "010") Hnl).
  destruct name as [|c' name].
  - rewrite str_app_nil_l, strip_prefix_app. done.
  - apply star_free_cons in Hstar as Hstar'. destruct Hstar' as [Hc' _].
    rewrite str_app_cons, strip_prefix_stars_None by done.
    rewrite <- str_app_cons, IH by done. done.
Qed.

Lemma findall_bold_skip u s :
  findall_bold_from (String.length u) (u +:+ s) = findall_bold_from 0 s.
Proof. induction u as [|c u IH]; [done|]. rewrite str_app_cons. by simpl. Qed.

Lemma findall_bold_plain t s :
  star_free t → findall_bold_from 0 (t +:+ s) = findall_bold_from 0 s.
Proof.
  induction t as [|c t IH]; [done|]. intros [Hc Ht]%star_free_cons.
  rewrite str_app_cons. cbn [findall_bold_from].
  rewrite strip_prefix_stars_None by done. by apply IH.
Qed.

Lemma findall_bold_name name s :
  display_name name →
  findall_bold_from 0 ("**" +:+ name +:+ "**" +:+ s)
  = name :: findall_bold_from 0 s.
Proof.
  intros Hname.
  change ("**" +:+ name +:+ "**" +:+ s)
    with (String "*" (String "*" (name +:+ "**" +:+ s))).
  cbn [findall_bold_from].
  change (strip_prefix "**" (String "*" (String "*" (name +:+ "**" +:+ s))))
    with (Some (name +:+ "**" +:+ s)).
  cbn [mbind option_bind]. rewrite bold_run_name by done. f_equal.
  change (String "*" (name +:+ "**" +:+ s)) with ("*" +:+ name +:+ "**" +:+ s).
  rewrite <- (str_app_assoc name "**" s), <- (str_app_assoc "*").
  assert (3 + String.length name = String.length ("*" +:+ name +:+ "**")) as ->.
  { rewrite !str_length_app. simpl. lia. }
  apply findall_bold_skip.
Qed.

Lemma findall_bold_text items tail :
  Forall (fun p => star_free p.1 ∧ display_name p.2) items → star_free tail →
  findall_bold (bold_text items tail) = items.*2.
Proof.
  intros Hitems Htail. unfold findall_bold.
  induction Hitems as [|[before name] items [Hb Hn] _ IH]; simpl.
  - rewrite <- (str_app_nil_r tail), findall_bold_plain by done. done.
  - rewrite findall_bold_plain, findall_bold_name by done. by rewrite IH.
Qed.

Lemma after_blank_newline_run ws s :
  blank ws → starts_plain s = true →
  after_blank_newline (ws +:+ NL +:+ s) = Some s.
Proof.
  intros Hws (c & r & -> & Hc)%starts_plain_inv.
  induction ws as [|x ws IH].
  - rewrite str_app_nil_l. unfold NL. rewrite str_app_cons, str_app_nil_l.
    cbn [after_blank_newline]. change (is_space "010") with true.
    cbv iota. by rewrite Hc.
  - apply Forall_cons in Hws as [Hx Hws]. rewrite str_app_cons.
    cbn [after_blank_newline]. rewrite Hx. by rewrite IH.
Qed.

Lemma until_heading_unfold s :
  until_heading s =
  if startswith s (NL +:+ "## ") then ""
  else match s with
       | "" => ""
       | String c s' => String c (until_heading s')
       end.
Proof. by destruct s. Qed.

Lemma related_section_unfold body :
  related_section body =
  let later :=
    match body with
    | "" => None
    | String _ body' => related_section body'
    end in
  match strip_prefix "## Related Skills" body with
  | Some r =>
      match after_blank_newline r with
      | Some sec => Some (until_heading sec)
      | None => later
      end
  | None => later
  end.
Proof. by destruct body. Qed.

Lemma until_heading_section sec rest :
  ¬ occurs (NL +:+ "#") sec →
  rest = "" ∨ (∃ r, rest = NL +:+ "## " +:+ r) →
  until_heading (sec +:+ rest) = sec.
Proof.
  intros Hno Hrest. induction sec as [|c sec IH].
  - rewrite str_app_nil_l. destruct Hrest as [->|[r ->]]; [done|].
    rewrite until_heading_unfold.
    by rewrite (proj2 (startswith_true _ _)) by by exists r.
  - rewrite str_app_cons, until_heading_unfold.
    assert (startswith (String c (sec +:+ rest)) (NL +:+ "## ") = false) as ->.
    { apply startswith_false. intros [r Hr].
      unfold NL in Hr. rewrite !str_app_cons, str_app_nil_l in Hr.
      injection Hr as -> Hr. destruct sec as [|c' sec].
      - rewrite str_app_nil_l in Hr.
        destruct Hrest as [->|[r' ->]]; [done|]. done.
      - rewrite str_app_cons in Hr. injection Hr as -> _.
        apply Hno. by exists "", sec. }
    f_equal. apply IH. intros (a & b & ->). apply Hno.
    by exists (String c a), b.
Qed.

Lemma related_section_found pre ws sec rest :
  ¬ occurs "## Related Skills" (pre +:+ "## Related Skill") →
  blank ws → starts_plain sec = true →
  ¬ occurs (NL +:+ "#") sec →
  rest = "" ∨ (∃ r, rest = NL +:+ "## " +:+ r) →
  related_section (pre +:+ "## Related Skills" +:+ ws +:+ NL +:+ sec +:+ rest)
  = Some sec.
Proof.
  intros Hpre Hws Hsec Hno Hrest.
  assert (related_section ("## Related Skills" +:+ ws +:+ NL +:+ sec +:+ rest)
          = Some sec) as Hhere.
  { rewrite related_section_unfold. cbv zeta.
    rewrite strip_prefix_app, after_blank_newline_run;
      [|done|by apply starts_plain_app].
    by rewrite until_heading_section. }
  induction pre as [|c pre IH]; [done|].
  rewrite related_section_unfold. cbv zeta.
  destruct (strip_prefix "## Related Skills"
              (String c pre +:+ "## Related Skills" +:+ ws +:+ NL +:+ sec +:+ rest))
    as [r|] eqn:E.
  - apply strip_prefix_Some in E. destruct Hpre.
    change "## Related Skills" with ("## Related Skill" +:+ "s") in E at 1.
    rewrite str_app_assoc, <- (str_app_assoc (String c pre)) in E.
    symmetry in E. apply str_app_eq_app_le in E as (d & Hd & _).
    + exists "", d. by rewrite str_app_nil_l.
    + rewrite str_length_app. simpl. lia.
  - apply IH. intros (a & b & Hab). apply Hpre.
    exists (String c a), b. by rewrite str_app_cons, Hab.
Qed.

End Extractor.

(** The extractor on a document whose Related Skills section starts with
    text: the first heading "## Related Skills" is followed by blanks and a
    newline; the section starts with a character that is not blank, holds no
    line that starts with a hash, and ends at the end of the body or at the
    next line that starts with "## "; in it, display names (one line, no
    asterisk, not empty) stand in bold in text without asterisks.  The
    result is the names, lower-cased with spaces turned into hyphens, that
    are valid, in their order and with their repetitions, joined by comma
    and space. *)
Theorem extract_related_skills_section
    (pre ws rest tail : string) (items : list (string * string))
    (valid_dirs : gset string) :
  ¬ occurs "## Related Skills" (pre +:+ "## Related Skill") →
  blank ws →
  starts_plain (bold_text items tail) = true →
  ¬ occurs (NL +:+ "#") (bold_text items tail) →
  rest = "" ∨ (∃ r, rest = NL +:+ "## " +:+ r) →
  Forall (fun p => star_free p.1 ∧ display_name p.2) items →
  star_free tail →
  extract_related_skills
    (pre +:+ "## Related Skills" +:+ ws +:+ NL +:+ bold_text items tail +:+ rest)
    valid_dirs
  = join ", " (filter (fun d => d ∈ valid_dirs) (map dir_name items.*2)).
Proof.
  intros Hpre Hws Hsec Hno Hrest Hitems Htail. unfold extract_related_skills.
  rewrite related_section_found by done.
  by rewrite findall_bold_text.
Qed.

Lemma extract_related_skills_section_witness :
  extract_related_skills
    (("# Guide" +:+ NL +:+ NL) +:+ "## Related Skills" +:+ NL +:+ NL
     +:+ bold_text [("- ", "Fullstack Guardian");
                    (" - security" +:+ NL +:+ "- ", "Nonexistent Tool")]
           (" - nothing" +:+ NL)
     +:+ (NL +:+ "## " +:+ "Notes" +:+ NL +:+ "**Code Reviewer** is not related."
          +:+ NL))
    {[ "fullstack-guardian"; "code-reviewer" ]}
  = join ", "
      (filter (fun d => d ∈ ({[ "fullstack-guardian"; "code-reviewer" ]} : gset string))
         (map dir_name ["Fullstack Guardian"; "Nonexistent Tool"])).
Proof.
  apply (extract_related_skills_section ("# Guide" +:+ NL +:+ NL) NL
           (NL +:+ "## " +:+ "Notes" +:+ NL
            +:+ "**Code Reviewer** is not related." +:+ NL)
           (" - nothing" +:+ NL)
           [("- ", "Fullstack Guardian");
            (" - security" +:+ NL +:+ "- ", "Nonexistent Tool")]).
  - apply contains_false. vm_compute. reflexivity.
  - repeat constructor.
  - reflexivity.
  - apply contains_false. vm_compute. reflexivity.
  - right. eexists. reflexivity.
  - repeat constructor; simpl; try discriminate; vm_compute; reflexivity.
  - vm_compute. reflexivity.
Defined.

(** ** Parsing, then rebuilding *)

(** Round trip: a header of plain scalar lines and list fields that gives a
    name, a description and a list of triggers is rebuilt with the same
    name and description and with the triggers in their order, joined by
    comma and space on one line under [metadata]. *)
Theorem parse_then_rebuild
    (es : list entry) (skill_name name desc : string) (triggers : list string) :
  forallb plain_entry es = true →
  structured_mapping es !! "name" = Some (VStr name) →
  structured_mapping es !! "description" = Some (VStr desc) →
  structured_mapping es !! "triggers" = Some (VList triggers) →
  ∃ tools rest,
    frontmatter_lines (simple_parse (NL +:+ header_text es +:+ NL)) skill_name
    = Ret (["---"; "name: " +:+ name; description_line (VStr desc);
            "license: MIT"]
           ++ tools
           ++ ["metadata:";
               "  author: https://github.com/Jeffallan";
               "  version: " +:+ quoted "1.0.0";
               "  domain: " +:+ domain_of skill_name;
               "  triggers: " +:+ join ", " triggers]
           ++ rest).
Proof.
  intros Hes Hn Hd Ht. rewrite simple_parse_header_text by done.
  unfold frontmatter_lines, getitem, triggers_str, domain_of.
  rewrite Hn, Hd, Ht. cbn [mbind result_bind default py_str].
  eexists _, _. reflexivity.
Qed.

Lemma parse_then_rebuild_witness :
  ∃ tools rest,
    frontmatter_lines (simple_parse (NL +:+ header_text plain_sample +:+ NL))
      "react-expert"
    = Ret (["---"; "name: " +:+ "react-expert";
            description_line (VStr "Use when building React apps");
            "license: MIT"]
           ++ tools
           ++ ["metadata:";
               "  author: https://github.com/Jeffallan";
               "  version: " +:+ quoted "1.0.0";
               "  domain: " +:+ domain_of "react-expert";
               "  triggers: " +:+ join ", " ["React"; "JSX"]]
           ++ rest).
Proof.
  apply (parse_then_rebuild plain_sample "react-expert" "react-expert"
           "Use when building React apps" ["React"; "JSX"]);
    vm_compute; reflexivity.
Defined.

(** * The driver and what the passes do to the documents *)

(** ** main *)

(** The command line: [--dry-run], [--skill NAME], [--related-skills]. *)
Record args := Args {
  dry_run : bool;
  skill : option string;
  related_skills : bool
}.

(** [d.is_dir() and not d.name.startswith(".")] over the entries of
    [skills/], each a name with whether it is a directory. *)
Definition visible_dirs (entries : list (string * bool)) : list string :=
  (filter (fun e : string * bool => e.2 && negb (startswith e.1 ".")) entries).*1.

(** [sorted] on sibling paths of a POSIX system: the order of the names,
    character by character. *)
Definition sorted (names : list string) : list string :=
  merge_sort (fun a b : string => String.leb a b) names.

(** [if args.skill: skill_dirs = [d for d in skill_dirs if d.name == args.skill]];
    [None] when the selection is empty and the script exits. *)
Definition select (skill : option string) (skill_dirs : list string)
    : option (list string) :=
  match skill with
  | None => Some skill_dirs
  | Some s =>
      if bool_decide (s = "") then Some skill_dirs
      else match filter (fun d => d = s) skill_dirs with
           | [] => None
           | l => Some l
           end
  end.

(** The names the warning about the domain map lists. *)
Definition unmapped (skill_dirs : list string) : list string :=
  filter (fun d => SKILL_DOMAIN_MAP !! d = None) skill_dirs.

(** How [main] ends when no pass raises. *)
Inductive ending :=
| no_skills_dir
| skill_not_found
| related_summary (t : tally) (total : nat)
| migration_summary (warned : list string) (t : tally) (total : nat).

Definition exit_code (e : ending) : nat :=
  match e with
  | no_skills_dir | skill_not_found => 1
  | related_summary t _ | migration_summary _ t _ => exit_status t
  end.

Section Main.

Variable HAS_PYYAML : bool.
Variable safe_load : string -> result (option fields).

(** [main]: [entries] is what [SKILLS_DIR.iterdir()] yields, [None] when
    the directory does not exist. *)
Definition main (a : args) (entries : option (list (string * bool)))
    (fs : files) : files * result ending :=
  match entries with
  | None => (fs, Ret no_skills_dir)
  | Some es =>
      match select (skill a) (sorted (visible_dirs es)) with
      | None => (fs, Ret skill_not_found)
      | Some skill_dirs =>
          let all_skill_dirs : gset string := list_to_set (visible_dirs es) in
          if related_skills a then
            let '(fs', r) :=
              run_related_skills HAS_PYYAML safe_load skill_dirs all_skill_dirs
                (dry_run a) fs in
            (fs', t ← r; Ret (related_summary t (length skill_dirs)))
          else
            let '(fs', r) :=
              run_migration HAS_PYYAML safe_load skill_dirs (dry_run a) fs in
            (fs', t ← r;
                  Ret (migration_summary (unmapped skill_dirs) t
                         (length skill_dirs)))
      end
  end.

End Main.

(** A small tree: two skills, a hidden directory and a plain file. *)
Definition sample_entries : list (string * bool) :=
  [("vue-expert", true); (".git", true); ("README.md", false);
   ("react-expert", true)].

Definition sample_files : files :=
  {[ "react-expert" := sample_doc; ".git" := sample_doc ]}.

Example main_sample :
  main false no_yaml (Args false None false) (Some sample_entries) sample_files
  = (<["react-expert" := migrated_doc]> sample_files,
     Ret (migration_summary [] (Tally 1 0 1) 2)).
Proof. vm_compute. reflexivity. Qed.

(** ** What a pass writes *)

Section Effects.

Variable HAS_PYYAML : bool.
Variable safe_load : string → result (option fields).

Implicit Types (fs : files) (d : string) (o : outcome) (t : tally).

(** The two passes, by name. *)
Definition is_pass (pass : files → string → result (outcome * files)) : Prop :=
  (∃ dry, pass = fun fs d => migrate_skill HAS_PYYAML safe_load fs d dry)
  ∨ (∃ valid dry,
       pass = fun fs d =>
                migrate_related_skills HAS_PYYAML safe_load fs d valid dry).

Lemma migrate_skill_effect fs d dry o fs' :
  migrate_skill HAS_PYYAML safe_load fs d dry = Ret (o, fs') →
  fs' = fs
  ∨ (dry = false ∧ o = (true, d +:+ ": Migrated")
     ∧ ∃ content new, fs !! d = Some content ∧ fs' = <[d := new]> fs).
Proof.
  unfold migrate_skill. destruct (fs !! d) as [content|] eqn:Hfs.
  2:{ intros [= <- <-]. by left. }
  destruct (parse_frontmatter HAS_PYYAML safe_load content)
    as [[[fm|] body]|]; cbn [mbind result_bind]; [| |done].
  2:{ intros [= <- <-]. by left. }
  case_bool_decide as Hmeta; [intros [= <- <-]; by left|].
  destruct (first_missing fm); [intros [= <- <-]; by left|].
  destruct (build_new_frontmatter fm d) as [hdr|]; cbn [mbind result_bind];
    [|done].
  destruct dry; intros [= <- <-]; [by left|right].
  split_and!; [done..|]. by eexists _, _.
Qed.

Lemma migrate_related_skills_effect fs d valid dry o fs' :
  migrate_related_skills HAS_PYYAML safe_load fs d valid dry = Ret (o, fs') →
  fs' = fs
  ∨ (dry = false ∧ o = (true, d +:+ ": Added related-skills")
     ∧ ∃ content new, fs !! d = Some content ∧ fs' = <[d := new]> fs).
Proof.
  unfold migrate_related_skills. destruct (fs !! d) as [content|] eqn:Hfs.
  2:{ intros [= <- <-]. by left. }
  destruct (parse_frontmatter HAS_PYYAML safe_load content)
    as [[[fm|] body]|]; cbn [mbind result_bind]; [| |done].
  2:{ intros [= <- <-]. by left. }
  destruct (has_related_skills fm); [intros [= <- <-]; by left|].
  destruct dry; intros [= <- <-]; [by left|right].
  split_and!; [done..|]. by eexists _, _.
Qed.

End Effects.

(** What both passes have in common: a document is written only when it
    exists, and no other document is. *)
Definition rewrites_in_place
    (pass : files → string → result (outcome * files)) : Prop :=
  ∀ fs d o fs', pass fs d = Ret (o, fs') →
    fs' = fs ∨ ∃ content new, fs !! d = Some content ∧ fs' = <[d := new]> fs.

Lemma is_pass_rewrites_in_place HAS_PYYAML safe_load pass :
  is_pass HAS_PYYAML safe_load pass → rewrites_in_place pass.
Proof.
  intros [[dry ->]|(valid & dry & ->)] fs d o fs' Hp.
  - apply migrate_skill_effect in Hp as [?|(_ & _ & ?)]; auto.
  - apply migrate_related_skills_effect in Hp as [?|(_ & _ & ?)]; auto.
Qed.

Lemma rewrite_in_place_frame (fs : files) d content new :
  fs !! d = Some content →
  dom (<[d := new]> fs) = dom fs
  ∧ ∀ d', d' ≠ d → <[d := new]> fs !! d' = fs !! d'.
Proof.
  intros Hfs. split.
  - rewrite dom_insert_L. apply elem_of_dom_2 in Hfs.
    apply set_eq. intros x. rewrite elem_of_union, elem_of_singleton.
    split; [intros [->|?]; done|auto].
  - intros d' Hd'. by rewrite lookup_insert_ne.
Qed.

Lemma run_loop_frame pass dirs (fs : files) (t : tally) :
  rewrites_in_place pass →
  dom (run_loop pass dirs fs t).1 = dom fs
  ∧ ∀ d, d ∉ dirs → (run_loop pass dirs fs t).1 !! d = fs !! d.
Proof.
  intros Hpass. revert fs t. induction dirs as [|d dirs IH]; intros fs t.
  - done.
  - simpl. destruct (pass fs d) as [[o fs']|] eqn:Hp; [|done].
    destruct (IH fs' (count t o)) as [IHdom IHother].
    destruct (Hpass _ _ _ _ Hp) as [->|(content & new & Hfs & ->)].
    + split; [done|]. intros d' Hd'. apply IHother.
      by apply not_elem_of_cons in Hd' as [_ ?].
    + destruct (rewrite_in_place_frame fs d content new Hfs) as [Hdom Hother].
      split; [by rewrite IHdom|]. intros d' [Hne Hd']%not_elem_of_cons.
      by rewrite IHother, Hother.
Qed.

Lemma run_loop_unchanged pass dirs (fs : files) (t : tally) :
  (∀ fs d o fs', pass fs d = Ret (o, fs') → fs' = fs) →
  (run_loop pass dirs fs t).1 = fs.
Proof.
  intros Hpass. revert t. induction dirs as [|d dirs IH]; intros t; [done|].
  simpl. destruct (pass fs d) as [[o fs']|] eqn:Hp; [|done].
  rewrite (Hpass _ _ _ _ Hp). apply IH.
Qed.

(** The sum of the three counters. *)
Definition counted (t : tally) : nat :=
  success_count t + skip_count t + fail_count t.

Lemma count_counted (t : tally) (o : outcome) : counted (count t o) = S (counted t).
Proof.
  destruct t as [a b c], o as [[] msg]; unfold count, counted;
    [destruct (contains "skipped" msg)|]; simpl; lia.
Qed.

Lemma run_loop_counted pass dirs (fs : files) (t t' : tally) :
  (run_loop pass dirs fs t).2 = Ret t' →
  counted t' = counted t + length dirs.
Proof.
  revert fs t. induction dirs as [|d dirs IH]; intros fs t; simpl.
  - intros [= ->]. lia.
  - destruct (pass fs d) as [[o fs']|]; [|done].
    intros Ht. rewrite (IH _ _ Ht), count_counted. lia.
Qed.

(** A pass never creates or deletes a document and never touches the
    document of another skill; it leaves every document as it was when it
    reports a failure and when it runs dry. *)
Theorem pass_rewrites_its_document
    (HAS_PYYAML : bool) (safe_load : string → result (option fields))
    (fs : files) (d : string) (valid_dirs : gset string) (dry : bool)
    (o : outcome) (fs' : files) :
  migrate_skill HAS_PYYAML safe_load fs d dry = Ret (o, fs')
  ∨ migrate_related_skills HAS_PYYAML safe_load fs d valid_dirs dry
    = Ret (o, fs') →
  dom fs' = dom fs
  ∧ (∀ d', d' ≠ d → fs' !! d' = fs !! d')
  ∧ (o.1 = false ∨ dry = true → fs' = fs).
Proof.
  intros Hp.
  assert (fs' = fs
          ∨ (dry = false ∧ o.1 = true
             ∧ ∃ content new, fs !! d = Some content ∧ fs' = <[d := new]> fs))
    as [->|(Hdry & Hok & content & new & Hfs & ->)].
  { destruct Hp as [Hp|Hp].
    - apply migrate_skill_effect in Hp as [?|(? & -> & ?)]; auto.
    - apply migrate_related_skills_effect in Hp as [?|(? & -> & ?)]; auto. }
  - done.
  - destruct (rewrite_in_place_frame fs d content new Hfs) as [Hdom Hother].
    split_and!; [done..|]. intros [Hf| ->]; congruence.
Qed.

Lemma pass_rewrites_its_document_witness :
  dom (<["react-expert" := migrated_doc]> sample_files) = dom sample_files
  ∧ (∀ d', d' ≠ "react-expert" →
       <["react-expert" := migrated_doc]> sample_files !! d' = sample_files !! d')
  ∧ ((true, "react-expert: Migrated").1 = false ∨ false = true →
     <["react-expert" := migrated_doc]> sample_files = sample_files).
Proof.
  apply (pass_rewrites_its_document false no_yaml sample_files "react-expert"
           ∅ false (true, "react-expert: Migrated")).
  left. vm_compute. reflexivity.
Defined.

(** ** The whole run *)

Section MainFacts.

Variable HAS_PYYAML : bool.
Variable safe_load : string → result (option fields).

Implicit Types (fs : files) (d s : string) (a : args)
  (es : list (string * bool)).

Lemma migrate_skill_dry fs d o fs' :
  migrate_skill HAS_PYYAML safe_load fs d true = Ret (o, fs') → fs' = fs.
Proof. by intros [?|(? & _)]%migrate_skill_effect. Qed.

Lemma migrate_related_skills_dry fs d valid o fs' :
  migrate_related_skills HAS_PYYAML safe_load fs d valid true = Ret (o, fs') →
  fs' = fs.
Proof. by intros [?|(? & _)]%migrate_related_skills_effect. Qed.

(** The files [main] leaves, by the loop it runs. *)
Lemma main_files a es skill_dirs fs :
  select (skill a) (sorted (visible_dirs es)) = Some skill_dirs →
  (main HAS_PYYAML safe_load a (Some es) fs).1
  = if related_skills a
    then (run_related_skills HAS_PYYAML safe_load skill_dirs
            (list_to_set (visible_dirs es)) (dry_run a) fs).1
    else (run_migration HAS_PYYAML safe_load skill_dirs (dry_run a) fs).1.
Proof.
  intros Hsel. unfold main. rewrite Hsel. destruct (related_skills a).
  - by destruct (run_related_skills _ _ _ _ _ _).
  - by destruct (run_migration _ _ _ _ _).
Qed.

Lemma elem_of_visible_dirs d es :
  d ∈ visible_dirs es ↔ (d, true) ∈ es ∧ startswith d "." = false.
Proof.
  unfold visible_dirs. rewrite list_elem_of_fmap. split.
  - intros ([n dir] & -> & [Hvis Hin]%list_elem_of_filter). simpl in *.
    apply Is_true_true, andb_true_iff in Hvis as [-> ?%negb_true_iff]. done.
  - intros [Hin Hvis]. exists (d, true). split; [done|].
    apply list_elem_of_filter. split; [|done]. simpl. by rewrite Hvis.
Qed.

Lemma elem_of_sorted d names : d ∈ sorted names ↔ d ∈ names.
Proof. unfold sorted. by rewrite merge_sort_Permutation. Qed.

Lemma select_elem_of sk dirs skill_dirs d :
  select sk dirs = Some skill_dirs → d ∈ skill_dirs →
  d ∈ dirs ∧ ∀ s, sk = Some s → s ≠ "" → d = s.
Proof.
  unfold select. destruct sk as [s|].
  - case_bool_decide as Hs.
    + intros [= <-] Hd. split; [done|]. by intros ? [= <-].
    + destruct (filter (λ d, d = s) dirs) as [|x l] eqn:Hf; [done|].
      intros [= <-] Hd. rewrite <- Hf in Hd.
      apply list_elem_of_filter in Hd as [-> Hd]. split; [done|].
      by intros ? [= <-].
  - intros [= <-] Hd. split; [done|]. by intros ? [=].
Qed.

End MainFacts.

(** With [--dry-run] the script leaves every document as it was, in both
    modes and with either parser, whether or not a pass raises. *)
Theorem main_dry_run_writes_nothing
    (HAS_PYYAML : bool) (safe_load : string → result (option fields))
    (a : args) (entries : option (list (string * bool))) (fs : files) :
  dry_run a = true →
  (main HAS_PYYAML safe_load a entries fs).1 = fs.
Proof.
  intros Hdry. destruct entries as [es|]; [|done].
  destruct (select (skill a) (sorted (visible_dirs es))) as [skill_dirs|] eqn:Hsel.
  2:{ unfold main. by rewrite Hsel. }
  rewrite (main_files _ _ _ _ _ _ Hsel), Hdry.
  destruct (related_skills a); apply run_loop_unchanged; intros ????.
  - apply migrate_related_skills_dry.
  - apply migrate_skill_dry.
Qed.

Lemma main_dry_run_writes_nothing_witness :
  (main false no_yaml (Args true None false) (Some sample_entries)
     sample_files).1 = sample_files.
Proof. by apply main_dry_run_writes_nothing. Defined.

(** The script never creates or deletes a document, and the only documents
    it changes are those of directories of [skills/] whose names do not
    start with a dot; with [--skill NAME], of that directory alone. *)
Theorem main_changes_selected_documents_only
    (HAS_PYYAML : bool) (safe_load : string → result (option fields))
    (a : args) (entries : option (list (string * bool))) (fs : files) :
  let fs' := (main HAS_PYYAML safe_load a entries fs).1 in
  dom fs' = dom fs
  ∧ ∀ d, fs' !! d ≠ fs !! d →
      ∃ es, entries = Some es ∧ (d, true) ∈ es ∧ startswith d "." = false
            ∧ ∀ s, skill a = Some s → s ≠ "" → d = s.
Proof.
  cbv zeta. destruct entries as [es|]; [|done].
  destruct (select (skill a) (sorted (visible_dirs es))) as [skill_dirs|] eqn:Hsel.
  2:{ unfold main. by rewrite Hsel. }
  rewrite (main_files _ _ _ _ _ _ Hsel).
  assert (∃ pass,
            rewrites_in_place pass
            ∧ (if related_skills a
               then (run_related_skills HAS_PYYAML safe_load skill_dirs
                       (list_to_set (visible_dirs es)) (dry_run a) fs).1
               else (run_migration HAS_PYYAML safe_load skill_dirs
                       (dry_run a) fs).1)
              = (run_loop pass skill_dirs fs (Tally 0 0 0)).1)
    as (pass & Hpass & ->).
  { destruct (related_skills a); eexists; (split; [|reflexivity]);
      apply (is_pass_rewrites_in_place HAS_PYYAML safe_load).
    - right. by eexists _, _.
    - left. by eexists. }
  destruct (run_loop_frame pass skill_dirs fs (Tally 0 0 0) Hpass)
    as [Hdom Hother].
  split; [done|]. intros d Hd.
  destruct (decide (d ∈ skill_dirs)) as [Hin|Hout];
    [|by destruct Hd; apply Hother].
  destruct (select_elem_of _ _ _ _ Hsel Hin) as [Hs Hone].
  apply elem_of_sorted, elem_of_visible_dirs in Hs as [Hes Hvis].
  by exists es.
Qed.

(** The counters and the total of a summary. *)
Definition summary_counts (e : ending) : option (tally * nat) :=
  match e with
  | related_summary t total | migration_summary _ t total => Some (t, total)
  | no_skills_dir | skill_not_found => None
  end.

(** When the script gets to its summary, the three counters add up to the
    total it prints, the number of directories it went through. *)
Theorem main_summary_adds_up
    (HAS_PYYAML : bool) (safe_load : string → result (option fields))
    (a : args) (entries : option (list (string * bool))) (fs fs' : files)
    (e : ending) (t : tally) (total : nat) :
  main HAS_PYYAML safe_load a entries fs = (fs', Ret e) →
  summary_counts e = Some (t, total) →
  success_count t + skip_count t + fail_count t = total.
Proof.
  unfold main. destruct entries as [es|]; [|by intros [= <- <-]].
  destruct (select (skill a) (sorted (visible_dirs es))) as [skill_dirs|];
    [|by intros [= <- <-]].
  destruct (related_skills a).
  - unfold run_related_skills.
    destruct (run_loop _ skill_dirs fs (Tally 0 0 0)) as [fs1 [t1|]] eqn:Hrun;
      cbn [mbind result_bind]; [|done].
    intros [= <- <-] [= <- <-].
    apply (f_equal snd) in Hrun. apply run_loop_counted in Hrun. exact Hrun.
  - unfold run_migration.
    destruct (run_loop _ skill_dirs fs (Tally 0 0 0)) as [fs1 [t1|]] eqn:Hrun;
      cbn [mbind result_bind]; [|done].
    intros [= <- <-] [= <- <-].
    apply (f_equal snd) in Hrun. apply run_loop_counted in Hrun. exact Hrun.
Qed.

Lemma main_summary_adds_up_witness :
  success_count (Tally 1 0 1) + skip_count (Tally 1 0 1)
  + fail_count (Tally 1 0 1) = 2.
Proof.
  apply (main_summary_adds_up false no_yaml (Args false None false)
           (Some sample_entries) sample_files
           (<["react-expert" := migrated_doc]> sample_files)
           (migration_summary [] (Tally 1 0 1) 2));
    vm_compute; reflexivity.
Defined.

Section FallbackReturns.

Variable safe_load : string → result (option fields).

Lemma parse_frontmatter_fallback_returns content :
  parse_frontmatter false safe_load content ≠ Raise.
Proof.
  unfold parse_frontmatter. destruct (negb _); [done|].
  by destruct (split2 "---" content) as [|? [|? [|? [|]]]].
Qed.

Lemma build_new_frontmatter_returns (fm : fields) skill_name :
  first_missing fm = None → build_new_frontmatter fm skill_name ≠ Raise.
Proof.
  intros ([name Hn] & [desc Hd] & _)%first_missing_None.
  unfold build_new_frontmatter, frontmatter_lines, getitem.
  by rewrite Hn, Hd.
Qed.

Lemma migrate_skill_returns (fs : files) d dry :
  migrate_skill false safe_load fs d dry ≠ Raise.
Proof.
  unfold migrate_skill. destruct (fs !! d) as [content|]; [|done].
  pose proof (parse_frontmatter_fallback_returns content) as Hp.
  destruct (parse_frontmatter false safe_load content) as [[[fm|] body]|];
    cbn [mbind result_bind]; [|done..].
  case_bool_decide as Hmeta; [done|].
  destruct (first_missing fm) as [field|] eqn:Hmiss; [done|].
  pose proof (build_new_frontmatter_returns fm d Hmiss) as Hb.
  destruct (build_new_frontmatter fm d); cbn [mbind result_bind]; [|done].
  by destruct dry.
Qed.

Lemma migrate_related_skills_returns (fs : files) d valid dry :
  migrate_related_skills false safe_load fs d valid dry ≠ Raise.
Proof.
  unfold migrate_related_skills. destruct (fs !! d) as [content|]; [|done].
  pose proof (parse_frontmatter_fallback_returns content) as Hp.
  destruct (parse_frontmatter false safe_load content) as [[[fm|] body]|];
    cbn [mbind result_bind]; [|done..].
  destruct (has_related_skills fm); [done|]. by destruct dry.
Qed.

End FallbackReturns.

(** ** The option [--skill] *)

Section SkillOption.

Implicit Types (d s : string) (names : list string).

Lemma filter_eq_absent s names :
  s ∉ names → filter (fun d => d = s) names = [].
Proof.
  induction names as [|x names IH]; [done|].
  intros [Hne Hout]%not_elem_of_cons. rewrite filter_cons.
  rewrite decide_False by congruence. by apply IH.
Qed.

Lemma filter_eq_nodup s names :
  NoDup names → s ∈ names → filter (fun d => d = s) names = [s].
Proof.
  intros Hnd Hin. induction Hnd as [|x names Hx Hnd IH]; [by inversion Hin|].
  rewrite filter_cons. destruct (decide (x = s)) as [->|Hne].
  - by rewrite filter_eq_absent.
  - apply elem_of_cons in Hin as [?|Hin]; [congruence|]. by apply IH.
Qed.

Lemma sorted_nodup names : NoDup names → NoDup (sorted names).
Proof. unfold sorted. by rewrite merge_sort_Permutation. Qed.

Lemma select_one s names :
  NoDup names → s ≠ "" →
  select (Some s) (sorted names) = if decide (s ∈ names) then Some [s] else None.
Proof.
  intros Hnd Hs. unfold select. rewrite bool_decide_eq_false_2 by done.
  destruct (decide (s ∈ names)) as [Hin|Hout].
  - rewrite filter_eq_nodup; [done|by apply sorted_nodup|].
    by apply elem_of_sorted.
  - rewrite filter_eq_absent; [done|]. by rewrite elem_of_sorted.
Qed.

End SkillOption.

(** The one pass [main] runs under [--skill NAME], and the summary it
    prints after it. *)
Definition single_run (HAS_PYYAML : bool)
    (safe_load : string → result (option fields)) (a : args)
    (all_skill_dirs : gset string) (s : string) (fs : files)
    : files * result ending :=
  if related_skills a then
    match migrate_related_skills HAS_PYYAML safe_load fs s all_skill_dirs
            (dry_run a) with
    | Ret (o, fs') => (fs', Ret (related_summary (count (Tally 0 0 0) o) 1))
    | Raise => (fs, Raise)
    end
  else
    match migrate_skill HAS_PYYAML safe_load fs s (dry_run a) with
    | Ret (o, fs') =>
        (fs', Ret (migration_summary (unmapped [s]) (count (Tally 0 0 0) o) 1))
    | Raise => (fs, Raise)
    end.

(** [--skill NAME] in a directory whose entries have distinct names: the
    empty name selects every skill, as no option does; a name that is not
    a directory of [skills/], or is hidden, ends the script before any
    document is read; any other name has the script run one pass, on that
    skill, with the valid names still those of all the directories. *)
Theorem main_skill_option
    (HAS_PYYAML : bool) (safe_load : string → result (option fields))
    (a : args) (es : list (string * bool)) (fs : files) (s : string) :
  NoDup (visible_dirs es) →
  skill a = Some s →
  (s = "" →
   main HAS_PYYAML safe_load a (Some es) fs
   = main HAS_PYYAML safe_load (Args (dry_run a) None (related_skills a))
       (Some es) fs)
  ∧ (s ≠ "" → s ∉ visible_dirs es →
     main HAS_PYYAML safe_load a (Some es) fs = (fs, Ret skill_not_found))
  ∧ (s ≠ "" → s ∈ visible_dirs es →
     main HAS_PYYAML safe_load a (Some es) fs
     = single_run HAS_PYYAML safe_load a (list_to_set (visible_dirs es)) s fs).
Proof.
  intros Hnd Hsk. split_and!.
  - intros ->. unfold main. rewrite Hsk. simpl. done.
  - intros Hs Hout. unfold main. rewrite Hsk, select_one by done.
    by rewrite decide_False.
  - intros Hs Hin. unfold main, single_run. rewrite Hsk, select_one by done.
    rewrite decide_True by done. cbv zeta.
    unfold run_related_skills, run_migration. cbn [run_loop].
    destruct (related_skills a).
    + by destruct (migrate_related_skills _ _ _ _ _ _) as [[o fs']|].
    + by destruct (migrate_skill _ _ _ _ _) as [[o fs']|].
Qed.

Lemma main_skill_option_witness :
  ("react-expert" = "" →
   main false no_yaml (Args false (Some "react-expert") false)
     (Some sample_entries) sample_files
   = main false no_yaml (Args false None false) (Some sample_entries)
       sample_files)
  ∧ ("react-expert" ≠ "" → "react-expert" ∉ visible_dirs sample_entries →
     main false no_yaml (Args false (Some "react-expert") false)
       (Some sample_entries) sample_files
     = (sample_files, Ret skill_not_found))
  ∧ ("react-expert" ≠ "" → "react-expert" ∈ visible_dirs sample_entries →
     main false no_yaml (Args false (Some "react-expert") false)
       (Some sample_entries) sample_files
     = single_run false no_yaml (Args false (Some "react-expert") false)
         (list_to_set (visible_dirs sample_entries)) "react-expert"
         sample_files).
Proof.
  apply (main_skill_option false no_yaml
           (Args false (Some "react-expert") false) sample_entries
           sample_files "react-expert"); [|reflexivity].
  apply (bool_decide_unpack _). vm_compute. exact I.
Defined.

(** ** The warning about the domain map *)

Lemma mapped_domain_known d x : SKILL_DOMAIN_MAP !! d = Some x → x ≠ "unknown".
Proof.
  unfold SKILL_DOMAIN_MAP. intros Hd%elem_of_list_to_map_2.
  apply (list_elem_of_fmap_2 snd) in Hd. simpl in Hd.
  revert x Hd. apply Forall_forall.
  repeat (constructor; [discriminate|]). constructor.
Qed.

(** The skills the warning lists are those whose rebuilt header says
    [domain: unknown]: a skill the loop goes through is listed exactly
    when the line "  domain: unknown" is among the lines built for it. *)
Theorem unmapped_gets_domain_unknown
    (fm : fields) (d : string) (lines skill_dirs : list string) :
  frontmatter_lines fm d = Ret lines →
  d ∈ skill_dirs →
  (d ∈ unmapped skill_dirs ↔ "  domain: unknown" ∈ lines).
Proof.
  intros Hl Hd. unfold unmapped. rewrite list_elem_of_filter.
  unfold frontmatter_lines, getitem in Hl.
  destruct (fm !! "name") as [name|]; [|done].
  destruct (fm !! "description") as [desc|]; [|done].
  cbn [mbind result_bind] in Hl. apply Ret_inj in Hl. subst lines.
  unfold optional_line, description_line.
  destruct (SKILL_DOMAIN_MAP !! d) as [x|] eqn:Hx; cbn [default].
  - split; [by intros [[=] _]|]. intros Hin. exfalso.
    pose proof (mapped_domain_known d x Hx) as Hne.
    destruct (needs_quotes desc), (fm !! "allowed-tools"), (fm !! "role"),
      (fm !! "scope"), (fm !! "output-format"); cbn [app] in Hin;
      repeat (apply elem_of_cons in Hin as [Hin|Hin];
              [cbv beta iota delta [String.append id] in Hin;
               first [discriminate Hin|injection Hin as Hin; congruence]|]);
      by apply not_elem_of_nil in Hin.
  - split; [|done]. intros _.
    destruct (fm !! "allowed-tools"); cbn [app];
      repeat (first [by apply list_elem_of_here|apply list_elem_of_further]).
Qed.

Lemma unmapped_gets_domain_unknown_witness :
  "my-new-skill" ∈ unmapped ["my-new-skill"; "react-expert"]
  ↔ "  domain: unknown"
    ∈ ["---"; "name: my-new-skill"; "description: New"; "license: MIT";
       "metadata:"; "  author: https://github.com/Jeffallan";
       "  version: " +:+ quoted "1.0.0"; "  domain: unknown";
       "  triggers: "; "---"].
Proof.
  apply (unmapped_gets_domain_unknown
           {[ "name" := VStr "my-new-skill"; "description" := VStr "New" ]}
           "my-new-skill"); [vm_compute; reflexivity|apply list_elem_of_here].
Defined.

(** ** The counters *)

Section Counters.

Implicit Types (d rest msg : string) (t : tally).

Lemma contains_skipped d rest :
  contains "skipped" (d +:+ String ":" rest)
  = contains "skipped" d || contains "skipped" rest.
Proof.
  destruct (contains "skipped" d) eqn:Hd.
  - apply contains_true. by apply occurs_app_l, contains_true.
  - apply contains_false in Hd. unfold contains at 1.
    rewrite partition_skip by done. unfold contains.
    by destruct (partition "skipped" rest) as [[a b]|].
Qed.

(** The message of a pass that did not skip the document: the skill name,
    a colon and one of four texts. *)
Definition went_through d msg : Prop :=
  msg = d +:+ ": Migrated" ∨ msg = d +:+ ": Would migrate (dry-run)"
  ∨ msg = d +:+ ": Added related-skills"
  ∨ msg = d +:+ ": Would add related-skills (dry-run)".

Definition skipped d msg : Prop :=
  msg = d +:+ ": Already migrated (skipped)"
  ∨ msg = d +:+ ": Already has related-skills (skipped)".

Lemma went_through_not_skipped d msg : went_through d msg → ¬ skipped d msg.
Proof.
  intros [->|[->|[->| ->]]] [H|H]; apply str_app_inj_l in H; discriminate H.
Qed.

Lemma count_went_through d msg t :
  went_through d msg →
  count t (true, msg)
  = if contains "skipped" d
    then Tally (success_count t) (S (skip_count t)) (fail_count t)
    else Tally (S (success_count t)) (skip_count t) (fail_count t).
Proof.
  unfold count.
  intros [->|[->|[->| ->]]];
    match goal with
    | |- context [contains "skipped" (d +:+ String ":" ?r)] =>
        rewrite (contains_skipped d r)
    end; by destruct (contains "skipped" d).
Qed.

Lemma count_skipped d msg t :
  skipped d msg →
  count t (true, msg)
  = Tally (success_count t) (S (skip_count t)) (fail_count t).
Proof.
  unfold count.
  intros [->| ->];
    match goal with
    | |- context [contains "skipped" (d +:+ String ":" ?r)] =>
        rewrite (contains_skipped d r)
    end; by destruct (contains "skipped" d).
Qed.

End Counters.

(** What a pass that succeeds reports. *)
Lemma pass_success_message HAS_PYYAML safe_load (fs : files) d valid dry msg
    (fs' : files) :
  migrate_skill HAS_PYYAML safe_load fs d dry = Ret ((true, msg), fs')
  ∨ migrate_related_skills HAS_PYYAML safe_load fs d valid dry
    = Ret ((true, msg), fs') →
  skipped d msg ∨ went_through d msg.
Proof.
  unfold skipped, went_through. intros [Hp|Hp].
  - unfold migrate_skill in Hp. destruct (fs !! d) as [content|]; [|done].
    destruct (parse_frontmatter HAS_PYYAML safe_load content)
      as [[[fm|] body]|]; cbn [mbind result_bind] in Hp; [|done..].
    case_bool_decide as Hmeta; [injection Hp as <- _; auto|].
    destruct (first_missing fm); [done|].
    destruct (build_new_frontmatter fm d); cbn [mbind result_bind] in Hp;
      [|done].
    destruct dry; injection Hp as <- _; auto.
  - unfold migrate_related_skills in Hp.
    destruct (fs !! d) as [content|]; [|done].
    destruct (parse_frontmatter HAS_PYYAML safe_load content)
      as [[[fm|] body]|]; cbn [mbind result_bind] in Hp; [|done..].
    destruct (has_related_skills fm); [injection Hp as <- _; auto|].
    destruct dry; injection Hp as <- _; auto 6.
Qed.

(** The summary tells a skipped document by the word "skipped" in the
    message, and the message starts with the name of the skill.  So a
    document that was gone through (migrated, or given its related-skills
    line, dry or not) is counted as done when the name of its skill does
    not hold the text "skipped", and as skipped when it does; a document
    that was skipped is counted as skipped. *)
Theorem skipped_is_told_by_the_message
    (HAS_PYYAML : bool) (safe_load : string → result (option fields))
    (fs : files) (d : string) (valid_dirs : gset string) (dry : bool)
    (msg : string) (fs' : files) (t : tally) :
  migrate_skill HAS_PYYAML safe_load fs d dry = Ret ((true, msg), fs')
  ∨ migrate_related_skills HAS_PYYAML safe_load fs d valid_dirs dry
    = Ret ((true, msg), fs') →
  (skipped d msg ∨ went_through d msg)
  ∧ (skipped d msg ∨ occurs "skipped" d →
     count t (true, msg)
     = Tally (success_count t) (S (skip_count t)) (fail_count t))
  ∧ (went_through d msg → ¬ occurs "skipped" d →
     count t (true, msg)
     = Tally (S (success_count t)) (skip_count t) (fail_count t)).
Proof.
  intros Hp. pose proof (pass_success_message _ _ _ _ _ _ _ _ Hp) as Hmsg.
  split_and!; [done| |].
  - intros [Hs|Hd]; [by eapply count_skipped|].
    destruct Hmsg as [Hs|Hw]; [by eapply count_skipped|].
    rewrite (count_went_through d msg t Hw).
    by rewrite (proj2 (contains_true _ _) Hd).
  - intros Hw Hd. rewrite (count_went_through d msg t Hw).
    by rewrite (proj2 (contains_false _ _) Hd).
Qed.

(** A skill named [unskipped-tests] is migrated and counted as skipped. *)
Lemma skipped_is_told_by_the_message_witness :
  (skipped "unskipped-tests" "unskipped-tests: Migrated"
   ∨ went_through "unskipped-tests" "unskipped-tests: Migrated")
  ∧ (skipped "unskipped-tests" "unskipped-tests: Migrated"
     ∨ occurs "skipped" "unskipped-tests" →
     count (Tally 0 0 0) (true, "unskipped-tests: Migrated") = Tally 0 1 0)
  ∧ (went_through "unskipped-tests" "unskipped-tests: Migrated" →
     ¬ occurs "skipped" "unskipped-tests" →
     count (Tally 0 0 0) (true, "unskipped-tests: Migrated") = Tally 1 0 0).
Proof.
  eapply (skipped_is_told_by_the_message false no_yaml
            {[ "unskipped-tests" := sample_doc ]} "unskipped-tests" ∅ false
            "unskipped-tests: Migrated").
  left. vm_compute. reflexivity.
Defined.

(** * The fallback parser and the header builder, one after the other *)

(** ** What the fallback parser returns *)

Section Stripped.

Implicit Types (s t k v line : string) (c : ascii) (f : ascii → bool).

(** A text [strip] leaves as it is. *)
Definition stripped (s : string) : Prop := strip s = s.

Lemma lstrip_with_head f s :
  lstrip_with f s = "" ∨ ∃ c r, lstrip_with f s = String c r ∧ f c = false.
Proof.
  induction s as [|c s IH]; [by left|]. simpl.
  destruct (f c) eqn:Hc; [done|]. right. by exists c, s.
Qed.

Lemma rstrip_with_keeps_head f c r :
  f c = false → ∃ r', rstrip_with f (String c r) = String c r'.
Proof.
  intros Hc. simpl. destruct (rstrip_with f r); rewrite ?Hc; by eexists.
Qed.

Lemma rstrip_with_idem f s :
  rstrip_with f (rstrip_with f s) = rstrip_with f s.
Proof.
  induction s as [|c s IH]; [done|]. simpl.
  destruct (rstrip_with f s) as [|c' r'] eqn:E.
  - destruct (f c) eqn:Hc; [done|]. simpl. by rewrite Hc.
  - change (rstrip_with f (String c (String c' r')))
      with (match rstrip_with f (String c' r') with
            | "" => if f c then "" else String c ""
            | r => String c r
            end).
    by rewrite IH.
Qed.

Lemma strip_cases s :
  strip s = ""
  ∨ ∃ c r, strip s = String c r ∧ is_space c = false
           ∧ lstrip_with is_space (String c r) = String c r.
Proof.
  unfold strip.
  destruct (lstrip_with_head is_space s) as [->|(c & r & -> & Hc)]; [by left|].
  right. destruct (rstrip_with_keeps_head is_space c r Hc) as [r' ->].
  exists c, r'. split_and!; [done..|]. simpl. by rewrite Hc.
Qed.

Lemma strip_idem s : stripped (strip s).
Proof.
  unfold stripped. destruct (strip_cases s) as [->|(c & r & Hs & Hc & Hl)];
    [done|].
  unfold strip at 1. rewrite Hs, Hl, <- Hs. unfold strip.
  apply rstrip_with_idem.
Qed.

Lemma stripped_plain s :
  stripped s → s ≠ "" → newline_free s → plain s = true.
Proof.
  unfold stripped, plain. intros Hs Hne Hfree.
  destruct (strip_cases s) as [He|(c & r & He & Hc & _)]; [congruence|].
  rewrite Hs in He. subst s.
  assert (rstrip_with is_space (String c r) = String c r) as Hr.
  { unfold strip in Hs. cbn [lstrip_with] in Hs. by rewrite Hc in Hs. }
  rewrite Hr, bool_decide_eq_true_2 by done.
  unfold newline_free in Hfree. rewrite Hfree. cbn [starts_plain].
  by rewrite Hc.
Qed.

End Stripped.

Section Shape.

Implicit Types (s k v line y : string) (st : simple_state) (fm : fields)
  (x : value).

(** A value as the fallback parser stores it under the key [k]: a scalar
    that is not empty and has no blank at either end, or, under a key that
    is not empty, a list of items without a blank at either end. *)
Definition shaped (k : string) (x : value) : Prop :=
  match x with
  | VStr s => s ≠ "" ∧ stripped s
  | VList l => k ≠ "" ∧ Forall stripped l
  | VMap _ => False
  end.

Definition shape_inv (st : simple_state) : Prop :=
  map_Forall shaped (frontmatter st)
  ∧ ∀ l, current_list st = Some l → Forall stripped l.

Lemma flush_pending_shaped st :
  shape_inv st → map_Forall shaped (flush_pending st).
Proof.
  intros [Hfm Hl]. unfold flush_pending.
  destruct (current_key st) as [k|]; [|done].
  destruct (current_list st) as [l|]; [|done].
  case_bool_decide as Hk; [done|].
  apply map_Forall_insert_2; [|done]. split; [done|]. by apply Hl.
Qed.

Lemma simple_step_shape st line :
  shape_inv st → shape_inv (simple_step st line).
Proof.
  intros Hinv. pose proof Hinv as [Hfm Hl]. unfold simple_step.
  case_bool_decide as Hblank; [done|].
  destruct (startswith line "  - " || startswith line "    - ").
  - destruct (current_key st) as [k|]; [|done].
    destruct (current_list st) as [l|]; [|done].
    case_bool_decide as Hk; [done|]. split; [done|]. simpl.
    intros l' [= <-]. apply Forall_app. split; [by apply Hl|].
    constructor; [|done]. apply strip_idem.
  - destruct (contains ":" line && negb (startswith line " ")); [|done].
    pose proof (flush_pending_shaped st Hinv) as Hfm'.
    destruct (partition ":" line) as [[k v]|]; [|done].
    case_bool_decide as Hv; split; simpl; try done.
    + by intros l' [= <-].
    + apply map_Forall_insert_2; [|done]. split; [done|]. apply strip_idem.
Qed.

Lemma foldl_simple_step_shape st lines :
  shape_inv st → shape_inv (foldl simple_step st lines).
Proof.
  revert st. induction lines as [|line lines IH]; intros st Hinv; [done|].
  simpl. by apply IH, simple_step_shape.
Qed.

Lemma simple_parse_shaped y : map_Forall shaped (simple_parse y).
Proof.
  unfold simple_parse. apply flush_pending_shaped, foldl_simple_step_shape.
  split; [apply map_Forall_empty|done].
Qed.

(** A key of the mapping: the text before the first colon of a line. *)
Lemma simple_parse_key_shape y k :
  is_Some (simple_parse y !! k) →
  stripped k ∧ ¬ occurs ":" k ∧ newline_free k.
Proof.
  intros (line & Hin & Hkey)%simple_parse_keys. unfold key_of in Hkey.
  case_bool_decide; [done|].
  destruct (startswith line "  - " || startswith line "    - "); [done|].
  destruct (contains ":" line && negb (startswith line " ")); [|done].
  destruct (partition ":" line) as [[k0 v]|] eqn:Hp; [|done].
  injection Hkey as <-.
  pose proof (occurs_partition _ _ _ _ Hp) as [Hk0 _].
  pose proof (occurs_strip k0) as Hs.
  split_and!.
  - apply strip_idem.
  - intros Hc. pose proof (occurs_trans _ _ _ Hc Hs) as (a & b & Hab).
    pose proof (partition_leftmost _ _ _ _ Hp a (":" +:+ b) Hab) as Hleft.
    by specialize (Hleft ltac:(done)).
  - apply (newline_free_hereditary line).
    + eapply Forall_forall; [apply split_lines_newline_free|done].
    + by eapply occurs_trans.
Qed.

Lemma simple_parse_no_related_skills y : has_related_skills (simple_parse y) = false.
Proof.
  unfold has_related_skills.
  destruct (simple_parse y !! "metadata") as [[s|l|m]|] eqn:Hm; try done.
  by apply simple_parse_shaped in Hm.
Qed.

End Shape.

(** The fallback parser stores no nested mapping and no empty scalar: a
    key is the text before the first colon of a line, without a blank at
    either end; a scalar is one line of text, not empty, without a blank at
    either end; a list stands under a key that is not empty and its items
    are lines of text without a blank at either end. *)
Theorem fallback_parser_values
    (safe_load : string → result (option fields))
    (content body : string) (fm : fields) (k : string) (x : value) :
  parse_frontmatter false safe_load content = Ret (Some fm, body) →
  fm !! k = Some x →
  (stripped k ∧ ¬ occurs ":" k ∧ newline_free k)
  ∧ match x with
    | VStr s => s ≠ "" ∧ stripped s ∧ newline_free s
    | VList l => k ≠ "" ∧ Forall (fun item => stripped item ∧ newline_free item) l
    | VMap _ => False
    end.
Proof.
  intros (y & _ & Hfm)%parse_frontmatter_header Hk.
  rewrite (Hfm eq_refl) in Hk. split.
  - apply (simple_parse_key_shape y). by eexists.
  - pose proof (simple_parse_shaped y k x Hk) as Hshape.
    pose proof (simple_parse_clean y k x Hk) as Hclean.
    destruct x as [s|l|m]; simpl in *; [by destruct Hshape| |done].
    destruct Hshape as [Hne Hl]. split; [done|].
    apply Forall_forall. intros item Hin. split.
    + by eapply Forall_forall in Hl.
    + by eapply Forall_forall in Hclean.
Qed.

(** The header of [sample_doc]. *)
Definition sample_yaml : string :=
  NL +:+ "name: react-expert" +:+ NL
  +:+ "description: Use when building: React apps" +:+ NL
  +:+ "triggers:" +:+ NL +:+ "  - React" +:+ NL +:+ "  - JSX" +:+ NL
  +:+ "role: specialist" +:+ NL +:+ "output-format: code" +:+ NL.

Lemma fallback_parser_values_witness :
  (stripped "triggers" ∧ ¬ occurs ":" "triggers" ∧ newline_free "triggers")
  ∧ "triggers" ≠ ""
  ∧ Forall (fun item => stripped item ∧ newline_free item) ["React"; "JSX"].
Proof.
  apply (fallback_parser_values no_yaml sample_doc sample_body
           (simple_parse sample_yaml)
           "triggers" (VList ["React"; "JSX"]));
    vm_compute; reflexivity.
Defined.

(** With the fallback parser Pass B never finds a document done: the
    parser reads the [metadata] block as a list, never as a mapping, so no
    document is reported as having its related-skills already; a document
    with a header is gone through each time. *)
Theorem fallback_pass_b_never_skips
    (safe_load : string → result (option fields))
    (fs : files) (d : string) (valid_dirs : gset string) (dry : bool)
    (o : outcome) (fs' : files) :
  migrate_related_skills false safe_load fs d valid_dirs dry = Ret (o, fs') →
  o.2 ≠ d +:+ ": Already has related-skills (skipped)"
  ∧ (o.1 = true →
     o.2 = d +:+ (if dry then ": Would add related-skills (dry-run)"
                  else ": Added related-skills")).
Proof.
  unfold migrate_related_skills. destruct (fs !! d) as [content|].
  2:{ intros [= <- <-]. split; [|done]. simpl.
      intros H%str_app_inj_l. discriminate H. }
  destruct (parse_frontmatter false safe_load content)
    as [[[fm|] body]|] eqn:Hp; cbn [mbind result_bind]; [| |done].
  2:{ intros [= <- <-]. split; [|done]. simpl.
      intros H%str_app_inj_l. discriminate H. }
  destruct (parse_frontmatter_header _ _ _ _ _ Hp) as (y & _ & Hfm).
  rewrite (Hfm eq_refl), simple_parse_no_related_skills.
  destruct dry; intros [= <- <-]; (split; [|done]); simpl;
    intros H%str_app_inj_l; discriminate H.
Qed.

(** The document Pass B has written for the sample is gone through
    again. *)
Lemma fallback_pass_b_never_skips_witness :
  "react-expert: Added related-skills"
  ≠ "react-expert" +:+ ": Already has related-skills (skipped)"
  ∧ ((true, "react-expert: Added related-skills").1 = true →
     "react-expert: Added related-skills"
     = "react-expert" +:+ ": Added related-skills").
Proof.
  apply (fallback_pass_b_never_skips no_yaml {[ "react-expert" := spliced_doc ]}
           "react-expert" {[ "fullstack-guardian" ]} false
           (true, "react-expert: Added related-skills")
           {[ "react-expert" := spliced_doc ]}).
  vm_compute. reflexivity.
Defined.

(** ** Reading back what the builder wrote *)

Section ReadBack.

Variable safe_load : string → result (option fields).

Implicit Types (s t k v line y r body : string) (st : simple_state)
  (fm : fields) (ls : list string) (x : value).

(** The mapping the fallback parser reads from the header the builder
    wrote for [fm]: the keys at the left margin with the text of their
    lines, quotes included, and [metadata] with an empty list, the lines
    under it being indented. *)
Definition read_back (fm : fields) (name desc : value) : fields :=
  <["metadata" := VList []]>
    (match fm !! "allowed-tools" with
     | Some tools => <["allowed-tools" := VStr (py_str tools)]>
     | None => fun m => m
     end
       (<["license" := VStr "MIT"]>
          (<["description" := VStr (if needs_quotes desc
                                     then quoted (py_str desc)
                                     else py_str desc)]>
             (<["name" := VStr (py_str name)]> ∅)))).

(** A line the loop passes over, whatever its state. *)
Definition ignored (line : string) : Prop :=
  ∀ st, simple_step st line = st.

(** A line under [metadata:]: two spaces, then a character that is
    neither a blank nor a dash. *)
Definition indented (line : string) : Prop :=
  ∃ c r, line = String " " (String " " (String c r))
         ∧ is_space c = false ∧ c ≠ "-"%char.

Lemma indented_prefix_ignored line e : indented (line +:+ e) → ignored line.
Proof.
  intros (c & r & Heq & Hsp & Hdash) st. unfold simple_step.
  destruct line as [|a [|b [|c' line]]].
  - done.
  - rewrite !str_app_cons in Heq. injection Heq as -> _. done.
  - rewrite !str_app_cons in Heq. injection Heq as -> -> _. done.
  - rewrite !str_app_cons in Heq. injection Heq as -> -> -> _.
    case_bool_decide as Hblank; [done|].
    assert (startswith (String " " (String " " (String c line))) "  - "
            = false) as ->.
    { apply startswith_false. intros [r' Hr]. injection Hr as -> _. done. }
    assert (startswith (String " " (String " " (String c line))) "    - "
            = false) as ->.
    { apply startswith_false. intros [r' Hr]. injection Hr as -> _. done. }
    cbn [orb].
    assert (startswith (String " " (String " " (String c line))) " " = true)
      as -> by done.
    by rewrite andb_false_r.
Qed.

Lemma foldl_ignored st ls : Forall ignored ls → foldl simple_step st ls = st.
Proof.
  intros Hls. revert st. induction Hls as [|l ls Hl _ IH]; intros st; [done|].
  simpl. by rewrite Hl.
Qed.

Lemma split_lines_rstrip r line :
  line ∈ split_lines (rstrip_with is_space r) →
  ∃ e, line +:+ e ∈ split_lines r.
Proof.
  intros [i Hi]%list_elem_of_lookup.
  destruct (rstrip_prefix is_space r) as [w Hw].
  destruct (split_lines_prefix _ w _ _ Hi) as [e He].
  rewrite <- Hw in He. exists e. by eapply list_elem_of_lookup_2.
Qed.

(** A header as the builder lays it out: scalar lines at the margin, the
    line [metadata:], and indented lines. *)
Lemma simple_parse_built top meta fm_top :
  top ≠ [] → meta ≠ [] →
  Forall newline_free top → Forall newline_free meta →
  (∃ c t, join NL (top ++ ["metadata:"]) = String c t ∧ is_space c = false) →
  foldl simple_step (SimpleState ∅ None None) top
  = SimpleState fm_top None None →
  Forall indented meta →
  simple_parse (NL +:+ join NL (top ++ ["metadata:"]) +:+ NL +:+ join NL meta
                +:+ NL)
  = <["metadata" := VList []]> fm_top.
Proof.
  intros Htop Hmeta Hfree Hfree' (c & t & Hj & Hc) Hfold Hind.
  assert (rstrip_with is_space (join NL meta) ≠ "") as Hr.
  { destruct meta as [|l meta]; [done|].
    apply Forall_cons in Hind as [(c' & r' & -> & Hsp & _) _].
    destruct (join_head NL (String " " (String " " (String c' r'))) meta)
      as [u ->].
    rewrite !str_app_cons. cbn [rstrip_with].
    destruct (rstrip_with is_space (r' +:+ u)); [by rewrite Hsp|done]. }
  unfold simple_parse.
  assert (strip (NL +:+ join NL (top ++ ["metadata:"]) +:+ NL +:+ join NL meta
                 +:+ NL)
          = join NL (top ++ ["metadata:"]) +:+ NL
            +:+ rstrip_with is_space (join NL meta)) as ->.
  { unfold strip. rewrite Hj.
    change (lstrip_with is_space
              (NL +:+ String c t +:+ NL +:+ join NL meta +:+ NL))
      with (lstrip_with is_space (String c (t +:+ NL +:+ join NL meta +:+ NL))).
    cbn [lstrip_with]. rewrite Hc.
    change (String c (t +:+ NL +:+ join NL meta +:+ NL))
      with (String c t +:+ NL +:+ join NL meta +:+ NL).
    rewrite <- !str_app_assoc, rstrip_newline, !str_app_assoc.
    rewrite <- (str_app_assoc (String c t)), rstrip_app by done.
    by rewrite str_app_assoc. }
  rewrite split_lines_join_app.
  2:{ by destruct top. }
  2:{ apply Forall_app_2; [done|]. by constructor. }
  rewrite !foldl_app, Hfold. cbn [foldl].
  rewrite (simple_step_key _ "metadata") by reflexivity.
  rewrite foldl_ignored; [done|].
  apply Forall_forall. intros line [e He]%split_lines_rstrip.
  rewrite split_lines_join in He by done.
  apply (indented_prefix_ignored line e). by eapply Forall_forall in Hind.
Qed.

Lemma rstrip_with_ends f s c :
  f c = false → rstrip_with f (s +:+ String c "") = s +:+ String c "".
Proof.
  intros Hc. rewrite rstrip_app; simpl; by rewrite Hc.
Qed.

(** What the builder prints for a value of the fallback parser is plain
    text: the parser reads it back as it stands. *)
Lemma py_str_plain k x : shaped k x → clean x → plain (py_str x) = true.
Proof.
  destruct x as [s|l|m]; simpl; [|intros _ Hl|done].
  - intros [Hne Hs] Hfree. by apply stripped_plain.
  - pose proof (py_str_free (VList l) Hl) as Hfree. simpl in Hfree.
    unfold plain. unfold newline_free in Hfree. rewrite Hfree.
    change ("[" +:+ join ", " (map repr l) +:+ "]")
      with (("[" +:+ join ", " (map repr l)) +:+ String "]" "").
    rewrite rstrip_with_ends by done. by rewrite bool_decide_eq_true_2.
Qed.

Lemma quoted_plain s : newline_free s → plain (quoted s) = true.
Proof.
  intros Hfree. unfold plain, quoted.
  assert (newline_free (String DQ (s +:+ String DQ ""))) as Hq.
  { apply newline_free_cons. split; [done|]. by apply newline_free_app_2. }
  unfold newline_free in Hq. rewrite Hq.
  change (String DQ (s +:+ String DQ ""))
    with ((String DQ s) +:+ String DQ "").
  rewrite rstrip_with_ends by done. by rewrite bool_decide_eq_true_2.
Qed.

(** The lines at the margin, as the loop reads them. *)
Lemma foldl_simple_step_top fm name desc :
  map_Forall shaped fm → map_Forall (fun _ x => clean x) fm →
  fm !! "name" = Some name → fm !! "description" = Some desc →
  foldl simple_step (SimpleState ∅ None None)
    (["name: " +:+ py_str name; description_line desc; "license: MIT"]
     ++ optional_line fm "" "allowed-tools")
  = SimpleState
      (match fm !! "allowed-tools" with
       | Some tools => <["allowed-tools" := VStr (py_str tools)]>
       | None => fun m => m
       end
         (<["license" := VStr "MIT"]>
            (<["description" := VStr (if needs_quotes desc
                                       then quoted (py_str desc)
                                       else py_str desc)]>
               (<["name" := VStr (py_str name)]> ∅))))
      None None.
Proof.
  intros Hshape Hclean Hn Hd.
  pose proof (py_str_plain _ _ (Hshape _ _ Hn) (Hclean _ _ Hn)) as Hpn.
  pose proof (py_str_plain _ _ (Hshape _ _ Hd) (Hclean _ _ Hd)) as Hpd.
  pose proof (quoted_plain _ (py_str_free _ (Hclean _ _ Hd))) as Hpq.
  rewrite foldl_app. cbn [foldl].
  rewrite (simple_step_scalar _ "name" (py_str name)) by done.
  assert (description_line desc
          = "description" +:+ ": "
            +:+ (if needs_quotes desc then quoted (py_str desc)
                 else py_str desc)) as ->.
  { unfold description_line, quoted. by destruct (needs_quotes desc). }
  rewrite (simple_step_scalar _ "description") by by destruct (needs_quotes desc).
  rewrite (simple_step_scalar _ "license" "MIT") by done.
  unfold flush_pending. cbn [current_key current_list frontmatter].
  unfold optional_line.
  destruct (fm !! "allowed-tools") as [tools|] eqn:Ht; [|done].
  cbn [foldl].
  pose proof (py_str_plain _ _ (Hshape _ _ Ht) (Hclean _ _ Ht)) as Hpt.
  by rewrite (simple_step_scalar _ "allowed-tools" (py_str tools)) by done.
Qed.

Lemma optional_line_indent fm key c r :
  key = String c r → is_space c = false → c ≠ "-"%char →
  Forall indented (optional_line fm "  " key).
Proof.
  intros -> Hc Hd. unfold optional_line.
  destruct (fm !! String c r) as [x|]; [|done].
  constructor; [|done]. by exists c, (r +:+ ": " +:+ py_str x).
Qed.

(** The lines the builder puts under [metadata:]. *)
Definition metadata_lines (fm : fields) (skill_name : string) : list string :=
  ["  author: https://github.com/Jeffallan";
   "  version: " +:+ String DQ ("1.0.0" +:+ String DQ "");
   "  domain: " +:+ default "unknown" (SKILL_DOMAIN_MAP !! skill_name);
   "  triggers: " +:+ triggers_str fm]
  ++ optional_line fm "  " "role"
  ++ optional_line fm "  " "scope"
  ++ optional_line fm "  " "output-format".

Definition margin_lines (fm : fields) (name desc : value) : list string :=
  ["name: " +:+ py_str name; description_line desc; "license: MIT"]
  ++ optional_line fm "" "allowed-tools".

Lemma inner_lines_parts fm skill_name name desc :
  inner_lines fm skill_name name desc
  = (margin_lines fm name desc ++ ["metadata:"]) ++ metadata_lines fm skill_name.
Proof.
  unfold inner_lines, margin_lines, metadata_lines.
  by rewrite <- !(assoc_L (++)).
Qed.

Lemma metadata_lines_indented fm skill_name :
  Forall indented (metadata_lines fm skill_name).
Proof.
  unfold metadata_lines.
  repeat first
    [ apply Forall_nil_2
    | apply Forall_app_2
    | eapply optional_line_indent; [reflexivity|done|done]
    | apply Forall_cons_2 ];
    eexists _, _; (split; [reflexivity|done]).
Qed.

(** The text between the markers of a rebuilt document is its header. *)
Lemma rebuilt_header_of fm skill_name name desc body :
  map_Forall (fun _ x => pieces marker_free x) fm →
  fm !! "name" = Some name → fm !! "description" = Some desc →
  header_of
    (join NL ("---" :: inner_lines fm skill_name name desc ++ ["---"]) +:+ body)
    (NL +:+ join NL (inner_lines fm skill_name name desc ++ [""])) body.
Proof.
  intros Hmf Hn Hd.
  pose proof (inner_lines_marker_free fm skill_name name desc Hmf Hn Hd) as Hmark.
  set (inner := inner_lines fm skill_name name desc) in *.
  assert (inner ≠ []) as Hne by done.
  split.
  - rewrite join_wrap by done. by rewrite !str_app_assoc.
  - rewrite !(join_app NL inner) by done.
    change (join NL [""]) with "". rewrite str_app_nil_r, !str_app_assoc.
    change (NL +:+ "--") with (NL +:+ join NL ["--"]).
    rewrite <- (join_app NL inner) by done.
    apply (marker_free_sep "" "010"%char); [done|by apply contains_false|].
    apply (join_marker_free "010"%char ""); [done..|].
    apply Forall_app_2; [done|]. constructor; [|done]. by apply contains_false.
Qed.

Lemma rebuilt_read_back fm skill_name name desc body :
  map_Forall shaped fm → map_Forall (fun _ x => clean x) fm →
  map_Forall (fun _ x => pieces marker_free x) fm →
  fm !! "name" = Some name → fm !! "description" = Some desc →
  ∃ hdr,
    build_new_frontmatter fm skill_name = Ret hdr
    ∧ parse_frontmatter false safe_load (hdr +:+ body)
      = Ret (Some (read_back fm name desc), body).
Proof.
  intros Hshape Hclean Hmf Hn Hd.
  exists (join NL ("---" :: inner_lines fm skill_name name desc ++ ["---"])).
  split.
  { unfold build_new_frontmatter, frontmatter_lines, getitem.
    rewrite Hn, Hd. cbn [mbind result_bind]. unfold inner_lines.
    by rewrite <- !(assoc_L (++)). }
  pose proof (rebuilt_header_of fm skill_name name desc body Hmf Hn Hd) as Hh.
  unfold parse_frontmatter. rewrite (header_of_split2 _ _ _ Hh).
  destruct Hh as [-> _].
  change (negb (startswith ("---" +:+ _) "---")) with false. cbv iota.
  do 2 f_equal. f_equal.
  pose proof (inner_lines_free fm skill_name name desc Hclean Hn Hd) as Hfree.
  rewrite inner_lines_parts in Hfree.
  apply Forall_app in Hfree as [[Hfree _]%Forall_app Hfree'].
  assert (margin_lines fm name desc ≠ []) as Hne by done.
  assert (metadata_lines fm skill_name ≠ []) as Hne' by done.
  assert (NL +:+ join NL (inner_lines fm skill_name name desc ++ [""])
          = NL +:+ join NL (margin_lines fm name desc ++ ["metadata:"])
            +:+ NL +:+ join NL (metadata_lines fm skill_name) +:+ NL) as ->.
  { rewrite (join_app NL (inner_lines _ _ _ _)) by done.
    change (join NL [""]) with "". rewrite str_app_nil_r.
    rewrite inner_lines_parts.
    destruct (metadata_lines fm skill_name) as [|m1 rest]; [done|].
    rewrite (join_app NL (margin_lines fm name desc ++ ["metadata:"]))
      by by destruct (margin_lines fm name desc).
    by rewrite !str_app_assoc. }
  apply simple_parse_built; try done.
  - exists "n"%char. by eexists.
  - by apply foldl_simple_step_top.
  - apply metadata_lines_indented.
Qed.

End ReadBack.

(** Building, then reading with the fallback parser: the header the
    builder writes for a mapping of the fallback parser that has a name
    and a description is read back, in front of any body, as the mapping
    [read_back] with that same body.  The name and the values at the
    margin come back as the text the builder printed (a description in
    quotes keeps its quotes), [license] is "MIT", [metadata] is an empty
    list, and the keys moved under [metadata] are gone. *)
Theorem rebuild_then_read_back
    (safe_load : string → result (option fields))
    (content body : string) (fm : fields) (skill_name : string)
    (name desc : value) :
  parse_frontmatter false safe_load content = Ret (Some fm, body) →
  fm !! "name" = Some name →
  fm !! "description" = Some desc →
  ∃ hdr,
    build_new_frontmatter fm skill_name = Ret hdr
    ∧ parse_frontmatter false safe_load (hdr +:+ body)
      = Ret (Some (read_back fm name desc), body).
Proof.
  intros Hp Hn Hd.
  destruct (parse_frontmatter_header _ _ _ _ _ Hp) as (y & Hh & Hfm).
  rewrite (Hfm eq_refl) in Hn, Hd |- *.
  apply rebuilt_read_back; [| | |done..].
  - apply simple_parse_shaped.
  - apply simple_parse_clean.
  - apply simple_parse_marker_free. by eapply header_of_free.
Qed.

Lemma rebuild_then_read_back_witness :
  ∃ hdr,
    build_new_frontmatter (simple_parse sample_yaml) "react-expert" = Ret hdr
    ∧ parse_frontmatter false no_yaml (hdr +:+ sample_body)
      = Ret (Some (read_back (simple_parse sample_yaml) (VStr "react-expert")
                     (VStr "Use when building: React apps")),
             sample_body).
Proof.
  apply (rebuild_then_read_back no_yaml sample_doc sample_body
           (simple_parse sample_yaml) "react-expert");
    vm_compute; reflexivity.
Defined.

(** What comes back for the sample: the description with its quotes. *)
Example read_back_sample :
  read_back (simple_parse sample_yaml) (VStr "react-expert")
    (VStr "Use when building: React apps")
  = {[ "name" := VStr "react-expert";
       "description" := VStr (quoted "Use when building: React apps");
       "license" := VStr "MIT";
       "metadata" := VList [] ]}.
Proof. vm_compute. reflexivity. Qed.

(** * The extractor on any body *)

Section ExtractorAny.

Implicit Types (s t g body section : string) (c : ascii).

Lemma bold_run_inv s g rest :
  bold_run s = Some (g, rest) →
  s = g +:+ "**" +:+ rest ∧ g ≠ "" ∧ newline_free g.
Proof.
  revert g rest. induction s as [|c s IH]; intros g rest; [done|].
  cbn [bold_run]. destruct (eqb_char c "010") eqn:Hc; [done|].
  destruct (strip_prefix "**" s) as [r|] eqn:Hs.
  - intros [= <- <-]. apply strip_prefix_Some in Hs as ->.
    split_and!; [done..|]. unfold newline_free. simpl. by rewrite Hc.
  - destruct (bold_run s) as [[g' rest']|]; [|done].
    intros [= <- <-]. destruct (IH g' rest' eq_refl) as (-> & _ & Hfree).
    split_and!; [done..|]. apply newline_free_cons. split; [|done].
    by apply eqb_char_neq in Hc.
Qed.

(** A display name that stands in bold in a text. *)
Definition in_bold (g s : string) : Prop :=
  occurs ("**" +:+ g +:+ "**") s ∧ g ≠ "" ∧ newline_free g.

Lemma in_bold_later g c s : in_bold g s → in_bold g (String c s).
Proof.
  intros [Ho ?]. split; [|done].
  change (String c s) with (String c "" +:+ s). by apply occurs_app_r.
Qed.

Lemma findall_bold_from_in_bold skip s :
  Forall (fun g => in_bold g s) (findall_bold_from skip s).
Proof.
  revert skip. induction s as [|c s IH]; intros skip; [constructor|].
  cbn [findall_bold_from].
  assert (∀ k, Forall (fun g => in_bold g (String c s)) (findall_bold_from k s))
    as Hlater.
  { intros k. eapply Forall_impl; [apply IH|]. intros g. apply in_bold_later. }
  destruct skip as [|k]; [|apply Hlater].
  destruct (strip_prefix "**" (String c s)) as [r|] eqn:Hs; cbn [mbind option_bind];
    [|apply Hlater].
  destruct (bold_run r) as [[g rest]|] eqn:Hb; [|apply Hlater].
  constructor; [|apply Hlater].
  apply strip_prefix_Some in Hs. apply bold_run_inv in Hb as (-> & Hne & Hfree).
  split; [|done]. rewrite Hs. exists "", rest.
  by rewrite str_app_nil_l, !str_app_assoc.
Qed.

Lemma until_heading_prefix s : ∃ t, s = until_heading s +:+ t.
Proof.
  induction s as [|c s [t IH]]; rewrite until_heading_unfold.
  - exists "". by destruct (startswith "" (NL +:+ "## ")).
  - destruct (startswith (String c s) (NL +:+ "## ")).
    + by exists (String c s).
    + exists t. rewrite str_app_cons. by rewrite <- IH.
Qed.

Lemma after_blank_newline_suffix s sec :
  after_blank_newline s = Some sec → ∃ w, s = w +:+ sec.
Proof.
  revert sec. induction s as [|c s IH]; intros sec; [done|].
  cbn [after_blank_newline]. destruct (is_space c); [|done].
  destruct (after_blank_newline s) as [r|].
  - intros [= <-]. destruct (IH r eq_refl) as [w ->]. by exists (String c w).
  - destruct (eqb_char c "010"); [|done]. intros [= <-].
    by exists (String c "").
Qed.

Lemma related_section_occurs body section :
  related_section body = Some section → occurs section body.
Proof.
  induction body as [|c body IH]; rewrite related_section_unfold; cbv zeta.
  - done.
  - assert (related_section body = Some section → occurs section (String c body))
      as Hlater.
    { intros H%IH. change (String c body) with (String c "" +:+ body).
      by apply occurs_app_r. }
    destruct (strip_prefix "## Related Skills" (String c body)) as [r|] eqn:Hs;
      [|done].
    destruct (after_blank_newline r) as [sec|] eqn:Ha; [|done].
    intros [= <-]. apply strip_prefix_Some in Hs. rewrite Hs.
    apply after_blank_newline_suffix in Ha as [w ->].
    destruct (until_heading_prefix sec) as [t Ht].
    exists ("## Related Skills" +:+ w), t.
    rewrite !str_app_assoc. by rewrite <- Ht.
Qed.

Lemma related_section_heading body section :
  related_section body = Some section → occurs "## Related Skills" body.
Proof.
  induction body as [|c body IH]; rewrite related_section_unfold; cbv zeta.
  - done.
  - assert (related_section body = Some section
            → occurs "## Related Skills" (String c body)) as Hlater.
    { intros H%IH. change (String c body) with (String c "" +:+ body).
      by apply occurs_app_r. }
    destruct (strip_prefix "## Related Skills" (String c body)) as [r|] eqn:Hs;
      [|done].
    intros _. apply strip_prefix_Some in Hs. rewrite Hs. by exists "", r.
Qed.

(** The conversion to a directory name, character by character. *)
Definition dir_char (c : ascii) : ascii :=
  if eqb_char (lower_char c) " " then "-"%char else lower_char c.

Lemma dir_name_map s : dir_name s = map_chars dir_char s.
Proof.
  unfold dir_name, replace_char, lower.
  induction s as [|c s IH]; [done|]. simpl. by rewrite IH.
Qed.

Lemma dir_char_idem c : dir_char (dir_char c) = dir_char c.
Proof. destruct c as [[] [] [] [] [] [] [] []]; vm_compute; reflexivity. Qed.

Lemma dir_char_no_space c : dir_char c ≠ " "%char.
Proof. destruct c as [[] [] [] [] [] [] [] []]; vm_compute; discriminate. Qed.

Lemma dir_name_idem s : dir_name (dir_name s) = dir_name s.
Proof.
  rewrite !dir_name_map. induction s as [|c s IH]; [done|]. simpl.
  by rewrite dir_char_idem, IH.
Qed.

Lemma dir_name_no_space s : mem_char " " (dir_name s) = false.
Proof.
  rewrite dir_name_map. induction s as [|c s IH]; [done|]. simpl.
  rewrite IH, orb_false_r. apply eqb_char_neq, dir_char_no_space.
Qed.

End ExtractorAny.

(** Whatever the body, what the extractor returns is a list of names
    joined by comma and space, and each name is in the set of valid names,
    is the directory form of a display name (one line, not empty) that
    stands between two pairs of asterisks in the body, and is its own
    directory form: it holds no space, and lower-casing leaves it as it is.
    So a directory whose name holds a space or an upper-case letter is
    never returned. *)
Theorem extract_related_skills_names (body : string) (valid_dirs : gset string) :
  ∃ names,
    extract_related_skills body valid_dirs = join ", " names
    ∧ Forall (fun n =>
                n ∈ valid_dirs
                ∧ (∃ g, in_bold g body ∧ n = dir_name g)
                ∧ dir_name n = n ∧ mem_char " " n = false) names.
Proof.
  unfold extract_related_skills.
  destruct (related_section body) as [section|] eqn:Hsec; [|by exists []].
  eexists. split; [reflexivity|].
  apply Forall_forall. intros n [Hvalid Hin]%list_elem_of_filter.
  apply list_elem_of_fmap in Hin as (g & -> & Hg).
  split_and!; [done| |apply dir_name_idem|apply dir_name_no_space].
  exists g. split; [|done].
  pose proof (findall_bold_from_in_bold 0 section) as Hall.
  eapply Forall_forall in Hall as (Ho & Hne & Hfree); [|exact Hg].
  split_and!; [|done..].
  eapply occurs_trans; [exact Ho|by apply related_section_occurs].
Qed.

(** A body without the text "## Related Skills" has no such section, and
    with no valid name nothing is kept: the result is the empty string. *)
Theorem extract_related_skills_nothing (body : string) (valid_dirs : gset string) :
  ¬ occurs "## Related Skills" body ∨ valid_dirs = ∅ →
  extract_related_skills body valid_dirs = "".
Proof.
  intros [Hno| ->].
  - unfold extract_related_skills.
    destruct (related_section body) as [section|] eqn:Hsec; [|done].
    destruct Hno. by eapply related_section_heading.
  - unfold extract_related_skills.
    destruct (related_section body) as [section|]; [|done].
    induction (map dir_name (findall_bold section)) as [|n names IH]; [done|].
    rewrite filter_cons. by rewrite decide_False by apply not_elem_of_empty.
Qed.

Lemma extract_related_skills_nothing_witness :
  extract_related_skills
    ("# React Expert" +:+ NL +:+ "See **Fullstack Guardian**." +:+ NL)
    {[ "fullstack-guardian" ]} = "".
Proof.
  apply extract_related_skills_nothing. left.
  apply contains_false. vm_compute. reflexivity.
Defined.

(** * What Pass B does to the text *)

Section Insertion.

Implicit Types (s t y body content rs line : string) (ls before after : list string).

(** The text after the first lines of a joined text. *)
Definition rest_of_lines (after : list string) : string :=
  match after with
  | [] => ""
  | _ => NL +:+ join NL after
  end.

Lemma join_rest before line after :
  join NL (before ++ line :: after)
  = join NL (before ++ [line]) +:+ rest_of_lines after.
Proof.
  destruct after as [|l after].
  - by rewrite str_app_nil_r.
  - change (before ++ line :: l :: after) with (before ++ [line] ++ l :: after).
    rewrite (assoc_L (++)), join_app; [done|]. by destruct before.
Qed.

(** The splice only inserts: its result is its input, or its input with a
    newline and the new line put in at one place of the header. *)
Lemma add_related_inserts content y body rs :
  header_of content y body →
  add_related_skills_to_frontmatter content rs = content
  ∨ ∃ p q,
      content = p +:+ q +:+ "---" +:+ body
      ∧ add_related_skills_to_frontmatter content rs
        = p +:+ NL +:+ related_line rs +:+ q +:+ "---" +:+ body.
Proof.
  intros Hh. destruct (contains "  related-skills:" y) eqn:Hm.
  { left. apply contains_true in Hm. by eapply add_related_guard. }
  apply contains_false in Hm. rewrite (add_related_splice _ _ _ _ Hh Hm).
  destruct (splice_lines_cases (split_lines y))
    as [(before & line & after & Ha)|(_ & _ & Hsame)].
  - right. rewrite (splice_lines_anchor _ _ _ _ _ Ha).
    exists ("---" +:+ join NL (before ++ [line])), (rest_of_lines after).
    assert (split_lines y = before ++ line :: after) as Hy.
    { by destruct Ha as [(? & _)|(? & _)]. }
    split.
    + destruct Hh as [-> _]. rewrite <- (join_split_lines y), Hy, join_rest.
      by rewrite !str_app_assoc.
    + change (before ++ line :: related_line rs :: after)
        with (before ++ [line] ++ related_line rs :: after).
      rewrite (assoc_L (++)), join_rest.
      rewrite (join_app NL (before ++ [line])) by by destruct before.
      change (join NL [related_line rs]) with (related_line rs).
      by rewrite !str_app_assoc.
  - left. rewrite Hsame, join_split_lines. by destruct Hh.
Qed.

End Insertion.

(** Pass B only inserts.  When it goes through a document and writes it,
    the new text is the old text, or the old text with one piece put in at
    one place of the header: a newline and the line "  related-skills: "
    with the names the extractor found in the body.  Nothing of the
    document is removed or changed, and the body stays where it was, after
    the second marker. *)
Theorem pass_b_only_inserts
    (HAS_PYYAML : bool) (safe_load : string → result (option fields))
    (fs : files) (d content body : string) (fm : fields)
    (valid_dirs : gset string) :
  fs !! d = Some content →
  parse_frontmatter HAS_PYYAML safe_load content = Ret (Some fm, body) →
  has_related_skills fm = false →
  ∃ new,
    migrate_related_skills HAS_PYYAML safe_load fs d valid_dirs false
    = Ret ((true, d +:+ ": Added related-skills"), <[d := new]> fs)
    ∧ (new = content
       ∨ ∃ p q,
           content = p +:+ q +:+ "---" +:+ body
           ∧ new = p +:+ NL +:+ "  related-skills: "
                   +:+ extract_related_skills body valid_dirs
                   +:+ q +:+ "---" +:+ body).
Proof.
  intros Hfs Hp Hr. eexists. split.
  - unfold migrate_related_skills. rewrite Hfs, Hp. cbn [mbind result_bind].
    rewrite Hr. reflexivity.
  - destruct (parse_frontmatter_header _ _ _ _ _ Hp) as (y & Hh & _).
    destruct (add_related_inserts content y body
                (extract_related_skills body valid_dirs) Hh)
      as [->|(p & q & Hc & Hn)]; [by left|].
    right. exists p, q. split; [done|]. rewrite Hn. unfold related_line.
    by rewrite !str_app_assoc.
Qed.

Lemma pass_b_only_inserts_witness :
  ∃ new,
    migrate_related_skills false no_yaml {[ "react-expert" := migrated_doc ]}
      "react-expert" {[ "fullstack-guardian" ]} false
    = Ret ((true, "react-expert" +:+ ": Added related-skills"),
           <["react-expert" := new]> {[ "react-expert" := migrated_doc ]})
    ∧ (new = migrated_doc
       ∨ ∃ p q,
           migrated_doc = p +:+ q +:+ "---" +:+ sample_body
           ∧ new = p +:+ NL +:+ "  related-skills: "
                   +:+ extract_related_skills sample_body
                         {[ "fullstack-guardian" ]}
                   +:+ q +:+ "---" +:+ sample_body).
Proof.
  apply (pass_b_only_inserts false no_yaml {[ "react-expert" := migrated_doc ]}
           "react-expert" migrated_doc sample_body
           (simple_parse (join NL migrated_header)));
    vm_compute; reflexivity.
Defined.

(** ** Pass B on what Pass A wrote *)

Section AfterPassA.

Implicit Types (s t y body rs line : string) (c : ascii) (fm : fields)
  (ls before after : list string).

(** A text without a blank. *)
Fixpoint solid (s : string) : bool :=
  match s with
  | EmptyString => true
  | String c r => negb (is_space c) && solid r
  end.

Lemma rstrip_with_keeps_prefix p t :
  solid p = true → ∃ t', rstrip_with is_space (p +:+ t) = p +:+ t'.
Proof.
  induction p as [|c p IH]; [by eexists|]. cbn [solid].
  intros [Hc%negb_true_iff Hp]%andb_true_iff.
  destruct (IH Hp) as [t' Ht]. rewrite str_app_cons. cbn [rstrip_with].
  rewrite Ht. exists t'. rewrite (str_app_cons c p t').
  destruct (p +:+ t'); [by rewrite Hc|done].
Qed.

Lemma is_output_format_margin c r :
  is_space c = false → c ≠ "o"%char → is_output_format (String c r) = false.
Proof.
  intros Hc Ho. unfold is_output_format, strip. cbn [lstrip_with]. rewrite Hc.
  destruct (rstrip_with_keeps_head is_space c r Hc) as [r' ->].
  apply startswith_false. intros [t Ht]. injection Ht as -> _. done.
Qed.

Lemma is_output_format_indented c r :
  is_space c = false → c ≠ "o"%char →
  is_output_format (String " " (String " " (String c r))) = false.
Proof.
  intros Hc Ho. unfold is_output_format, strip. cbn [lstrip_with].
  change (is_space " ") with true. cbv iota. rewrite Hc.
  destruct (rstrip_with_keeps_head is_space c r Hc) as [r' ->].
  apply startswith_false. intros [t Ht]. injection Ht as -> _. done.
Qed.

Lemma is_output_format_line v :
  is_output_format ("  output-format: " +:+ v) = true.
Proof.
  unfold is_output_format, strip.
  change (lstrip_with is_space ("  output-format: " +:+ v))
    with ("output-format:" +:+ String " " v).
  destruct (rstrip_with_keeps_prefix "output-format:" (String " " v) eq_refl)
    as [t' ->].
  apply startswith_true. by exists t'.
Qed.

Lemma is_metadata_field_line k v :
  is_metadata_field ("  " +:+ k +:+ ": " +:+ v) = true.
Proof.
  unfold is_metadata_field. apply andb_true_iff. split; [done|].
  apply contains_true. exists ("  " +:+ k), (" " +:+ v).
  by rewrite !str_app_assoc.
Qed.

(** The lines of the built header before the output-format line. *)
Definition base_lines (fm : fields) (skill_name : string) : list string :=
  ["  author: https://github.com/Jeffallan";
   "  version: " +:+ String DQ ("1.0.0" +:+ String DQ "");
   "  domain: " +:+ default "unknown" (SKILL_DOMAIN_MAP !! skill_name);
   "  triggers: " +:+ triggers_str fm]
  ++ optional_line fm "  " "role"
  ++ optional_line fm "  " "scope".

Lemma inner_lines_upper fm skill_name name desc :
  inner_lines fm skill_name name desc
  = ((margin_lines fm name desc ++ ["metadata:"]) ++ base_lines fm skill_name)
    ++ optional_line fm "  " "output-format".
Proof.
  unfold inner_lines, margin_lines, base_lines.
  by rewrite <- !(assoc_L (++)).
Qed.

Lemma margin_lines_no_output_format fm name desc :
  Forall (fun l => is_output_format l = false)
    (margin_lines fm name desc ++ ["metadata:"]).
Proof.
  unfold margin_lines, optional_line, description_line.
  destruct (needs_quotes desc), (fm !! "allowed-tools");
    repeat (apply Forall_cons_2 || apply Forall_app_2 || apply Forall_nil_2);
    by apply is_output_format_margin.
Qed.

Lemma base_lines_fields fm skill_name :
  Forall (fun l => is_output_format l = false ∧ is_metadata_field l = true)
    (base_lines fm skill_name).
Proof.
  unfold base_lines, optional_line.
  destruct (fm !! "role"), (fm !! "scope");
    repeat (apply Forall_cons_2 || apply Forall_app_2 || apply Forall_nil_2);
    (split; [by apply is_output_format_indented|]).
  all: first [ apply (is_metadata_field_line "author" "https://github.com/Jeffallan")
             | apply (is_metadata_field_line "version")
             | apply (is_metadata_field_line "domain")
             | apply (is_metadata_field_line "triggers")
             | apply (is_metadata_field_line "role")
             | apply (is_metadata_field_line "scope") ].
Qed.

Lemma last_of_app {A} (pre base : list A) :
  base ≠ [] → ∃ (front : list A) (x : A), pre ++ base = front ++ [x] ∧ x ∈ base.
Proof.
  destruct base as [|x base _] using rev_ind; [done|]. intros _.
  exists (pre ++ base), x. split; [by rewrite (assoc_L (++))|].
  apply elem_of_app. right. apply list_elem_of_here.
Qed.

(** In the header Pass A wrote the new line goes last, before the line
    that closes the block. *)
Lemma splice_lines_built fm skill_name name desc rs :
  splice_lines rs ("" :: inner_lines fm skill_name name desc ++ [""])
  = "" :: inner_lines fm skill_name name desc ++ [related_line rs; ""].
Proof.
  rewrite inner_lines_upper.
  set (upper := (margin_lines fm name desc ++ ["metadata:"])
                ++ base_lines fm skill_name).
  assert (Forall (fun l => is_output_format l = false) ("" :: upper)) as Hup.
  { apply Forall_cons_2; [done|]. apply Forall_app_2.
    - apply margin_lines_no_output_format.
    - eapply Forall_impl; [apply base_lines_fields|]. by intros l [? _]. }
  unfold optional_line. destruct (fm !! "output-format") as [v|].
  - rewrite <- !(assoc_L (++)).
    apply (splice_lines_anchor rs _ ("" :: upper)
             ("  " +:+ "output-format" +:+ ": " +:+ py_str v) [""]).
    left. split_and!; [done| |done]. apply is_output_format_line.
  - rewrite !app_nil_r.
    destruct (last_of_app (margin_lines fm name desc ++ ["metadata:"])
                (base_lines fm skill_name)) as (before & line & Heq & Hin);
      [done|].
    fold upper in Heq. rewrite Heq in Hup |- *.
    rewrite <- !(assoc_L (++)).
    apply (splice_lines_anchor rs _ ("" :: before) line [""]).
    right. split_and!; [done| |by repeat constructor|].
    + pose proof (base_lines_fields fm skill_name) as Hb.
      by eapply Forall_forall in Hb as [_ ?].
    + change (("" :: before) ++ [line; ""])
        with ("" :: before ++ [line] ++ [""]).
      rewrite (assoc_L (++)). apply Forall_app_2 with (l1 := "" :: _);
        [done|by repeat constructor].
Qed.

Lemma contains_between_newlines m s :
  m ≠ "" → mem_char "010" m = false →
  contains m (NL +:+ s +:+ NL) = contains m s.
Proof.
  intros Hm Hnl.
  assert (partition m "" = None) as Hnone.
  { apply partition_None. intros (a & b & Hab). symmetry in Hab.
    by apply str_app_eq_nil in Hab as [_ [? _]%str_app_eq_nil]. }
  assert (¬ occurs m "") as Hno by by apply partition_None.
  unfold contains at 1.
  change (NL +:+ s +:+ NL) with ("" +:+ String "010" (s +:+ NL)).
  rewrite partition_skip by done.
  destruct (contains m s) eqn:Hs.
  - apply contains_true in Hs.
    pose proof (occurs_app_l _ _ NL Hs) as [[a b] Hp]%partition_is_Some.
    rewrite Hp. by apply bool_decide_eq_true_2.
  - apply contains_false in Hs.
    change (s +:+ NL) with (s +:+ String "010" "").
    rewrite partition_skip, Hnone by done.
    apply bool_decide_eq_false_2. by intros [? ?].
Qed.

End AfterPassA.

(** Pass B on a document Pass A wrote (fallback parser).  The header the
    builder makes from a parsed header with a name and a description is a
    line "---", the lines [inner], and a line "---".  Put in front of any
    body and given to the splice, it comes back with the line
    "  related-skills: <value>" as its last line before the closing marker,
    after the output-format line or, without one, after the last line of
    the metadata block, and with the body as it was; unless the text
    "  related-skills:" already stands in one of the lines, in which case
    it comes back unchanged. *)
Theorem pass_b_after_pass_a
    (safe_load : string → result (option fields))
    (content body : string) (fm : fields) (skill_name : string)
    (name desc : value) :
  parse_frontmatter false safe_load content = Ret (Some fm, body) →
  fm !! "name" = Some name →
  fm !! "description" = Some desc →
  ∃ inner,
    frontmatter_lines fm skill_name = Ret ("---" :: inner ++ ["---"])
    ∧ ∀ rs,
        add_related_skills_to_frontmatter
          (join NL ("---" :: inner ++ ["---"]) +:+ body) rs
        = if contains "  related-skills:" (join NL inner)
          then join NL ("---" :: inner ++ ["---"]) +:+ body
          else join NL ("---" :: inner ++ ["  related-skills: " +:+ rs; "---"])
               +:+ body.
Proof.
  intros Hp Hn Hd.
  destruct (parse_frontmatter_header _ _ _ _ _ Hp) as (y0 & Hh0 & Hfm).
  specialize (Hfm eq_refl). subst fm.
  exists (inner_lines (simple_parse y0) skill_name name desc). split.
  { unfold frontmatter_lines, getitem. rewrite Hn, Hd.
    cbn [mbind result_bind]. unfold inner_lines.
    by rewrite <- !(assoc_L (++)). }
  intros rs.
  pose proof (rebuilt_header_of (simple_parse y0) skill_name name desc body
                (simple_parse_marker_free y0 (header_of_free _ _ _ Hh0)) Hn Hd)
    as Hh.
  pose proof (inner_lines_free (simple_parse y0) skill_name name desc
                (simple_parse_clean y0) Hn Hd) as Hfree.
  set (inner := inner_lines (simple_parse y0) skill_name name desc) in *.
  assert (inner ≠ []) as Hne by done.
  assert (NL +:+ join NL (inner ++ [""]) = NL +:+ join NL inner +:+ NL) as Hy.
  { rewrite (join_app NL inner) by done. change (join NL [""]) with "".
    by rewrite str_app_nil_r. }
  rewrite <- (contains_between_newlines "  related-skills:" (join NL inner))
    by done.
  rewrite <- Hy.
  destruct (contains "  related-skills:" (NL +:+ join NL (inner ++ [""])))
    eqn:Hm.
  - apply contains_true in Hm. by eapply add_related_guard.
  - apply contains_false in Hm. rewrite (add_related_splice _ _ _ _ Hh Hm).
    change (NL +:+ join NL (inner ++ [""]))
      with (join NL ("" :: inner ++ [""])).
    rewrite split_lines_join.
    2:{ done. }
    2:{ apply Forall_cons_2; [done|]. apply Forall_app_2; [done|].
        by constructor. }
    unfold inner. rewrite splice_lines_built. fold inner.
    change (inner ++ [related_line rs; ""])
      with (inner ++ [related_line rs] ++ [""]).
    change (inner ++ ["  related-skills: " +:+ rs; "---"])
      with (inner ++ [related_line rs] ++ ["---"]).
    rewrite !(assoc_L (++)).
    rewrite (join_wrap (inner ++ [related_line rs])) by by destruct inner.
    change (join NL ("" :: (inner ++ [related_line rs]) ++ [""]))
      with (NL +:+ join NL ((inner ++ [related_line rs]) ++ [""])).
    by rewrite !str_app_assoc.
Qed.

Lemma pass_b_after_pass_a_witness :
  ∃ inner,
    frontmatter_lines (simple_parse sample_yaml) "react-expert"
    = Ret ("---" :: inner ++ ["---"])
    ∧ ∀ rs,
        add_related_skills_to_frontmatter
          (join NL ("---" :: inner ++ ["---"]) +:+ sample_body) rs
        = if contains "  related-skills:" (join NL inner)
          then join NL ("---" :: inner ++ ["---"]) +:+ sample_body
          else join NL ("---" :: inner ++ ["  related-skills: " +:+ rs; "---"])
               +:+ sample_body.
Proof.
  apply (pass_b_after_pass_a no_yaml sample_doc sample_body
           (simple_parse sample_yaml) "react-expert" (VStr "react-expert")
           (VStr "Use when building: React apps"));
    vm_compute; reflexivity.
Defined.

(** * Edge cases of the passes *)

(** ** A header that is blank *)

Section BlankHeader.

Implicit Types (s t y line body : string) (c : ascii).

Lemma rstrip_with_empty f s :
  rstrip_with f s = "" → Forall (fun c => f c = true) (String.list_ascii_of_string s).
Proof.
  induction s as [|c s IH]; [constructor|]. simpl.
  destruct (rstrip_with f s); [|done].
  destruct (f c) eqn:Hc; [|done]. intros _. constructor; [done|]. by apply IH.
Qed.

Lemma lstrip_with_blank f s :
  Forall (fun c => f c = true) (String.list_ascii_of_string (lstrip_with f s)) →
  Forall (fun c => f c = true) (String.list_ascii_of_string s).
Proof.
  induction s as [|c s IH]; [done|]. simpl.
  destruct (f c) eqn:Hc; [|done]. intros H. constructor; [done|]. by apply IH.
Qed.

Lemma strip_empty_blank s : strip s = "" → blank s.
Proof. intros H. by apply lstrip_with_blank, rstrip_with_empty. Qed.

(** A blank text holds no character that is not a blank. *)
Lemma blank_no_char s c t :
  blank s → is_space c = false → occurs (String c "") t → ¬ occurs t s.
Proof.
  intros Hs Hc Hct Hts.
  pose proof (occurs_trans _ _ _ Hct Hts) as Hin%occurs_char.
  unfold blank in Hs. eapply Forall_forall in Hs; [|exact Hin]. congruence.
Qed.

Lemma blank_marker_free y : blank y → ¬ occurs "---" (y +:+ "--").
Proof.
  unfold blank. induction y as [|c y IH]; simpl.
  - intros _. by apply contains_false.
  - intros [Hc Hy]%Forall_cons. specialize (IH Hy).
    intros [[a b] Hp]%partition_is_Some.
    change (String c y +:+ "--") with ("" +:+ String c (y +:+ "--")) in Hp.
    rewrite partition_skip in Hp.
    + apply partition_None in IH. by rewrite IH in Hp.
    + cbn [mem_char]. destruct (eqb_char "-" c) eqn:E; [|done].
      apply eqb_char_eq in E as <-. done.
    + by apply contains_false.
Qed.

Lemma blank_lines_no_anchor y rs :
  blank y → splice_lines rs (split_lines y) = split_lines y.
Proof.
  intros Hy. unfold splice_lines.
  assert (Forall (fun l => is_output_format l = false) (split_lines y)) as Hof.
  { apply Forall_forall. intros line Hin%occurs_line.
    apply startswith_false. intros [t Ht].
    apply (blank_no_char y "o" (strip line) Hy); [done| |].
    - rewrite Ht. by exists "", ("utput-format:" +:+ t).
    - eapply occurs_trans; [apply occurs_strip|done]. }
  assert (Forall (fun l => is_metadata_field l = false) (split_lines y)) as Hmf.
  { apply Forall_forall. intros line Hin%occurs_line.
    unfold is_metadata_field. apply andb_false_iff. right.
    apply contains_false. intros Hc.
    by apply (blank_no_char y ":" line Hy). }
  rewrite insert_after_first_none by done.
  by rewrite insert_after_last_none.
Qed.

End BlankHeader.

(** A document whose header block is blank (the two markers with nothing
    but blanks and line ends between them) has a header, an empty one:
    Pass A fails on it for the lack of a name, and Pass B goes through it,
    finds no line to put its line after, and reports it done with the
    document as it was.  (The full reader is taken to load a blank header
    as nothing.) *)
Theorem blank_header
    (HAS_PYYAML : bool) (safe_load : string → result (option fields))
    (fs : files) (d y body : string) (valid_dirs : gset string) (dry : bool) :
  fs !! d = Some ("---" +:+ y +:+ "---" +:+ body) →
  strip y = "" →
  (HAS_PYYAML = true → safe_load y = Ret None) →
  migrate_skill HAS_PYYAML safe_load fs d dry
  = Ret ((false, d +:+ ": Missing required field 'name'"), fs)
  ∧ migrate_related_skills HAS_PYYAML safe_load fs d valid_dirs false
    = Ret ((true, d +:+ ": Added related-skills"), fs).
Proof.
  intros Hfs Hy Hload. pose proof (strip_empty_blank y Hy) as Hblank.
  assert (header_of ("---" +:+ y +:+ "---" +:+ body) y body) as Hh.
  { split; [done|]. by apply blank_marker_free. }
  assert (parse_frontmatter HAS_PYYAML safe_load ("---" +:+ y +:+ "---" +:+ body)
          = Ret (Some ∅, body)) as Hp.
  { unfold parse_frontmatter. rewrite (header_of_split2 _ _ _ Hh).
    change (negb (startswith ("---" +:+ _) "---")) with false. cbv iota.
    destruct HAS_PYYAML.
    - by rewrite Hload.
    - unfold simple_parse. by rewrite Hy. }
  split.
  - unfold migrate_skill. rewrite Hfs, Hp. done.
  - unfold migrate_related_skills. rewrite Hfs, Hp. cbn [mbind result_bind].
    change (has_related_skills ∅) with false. cbv iota.
    do 2 f_equal. rewrite <- (insert_id fs d _ Hfs) at 2. f_equal.
    rewrite (add_related_splice _ y body _ Hh).
    + by rewrite blank_lines_no_anchor, join_split_lines.
    + by apply (blank_no_char y ":" "  related-skills:" Hblank);
        [|exists "  related-skills", ""].
Qed.

Lemma blank_header_witness :
  migrate_skill false no_yaml {[ "empty" := "---" +:+ NL +:+ "---" +:+ NL ]}
    "empty" false
  = Ret ((false, "empty" +:+ ": Missing required field 'name'"),
         {[ "empty" := "---" +:+ NL +:+ "---" +:+ NL ]})
  ∧ migrate_related_skills false no_yaml
      {[ "empty" := "---" +:+ NL +:+ "---" +:+ NL ]} "empty" ∅ false
    = Ret ((true, "empty" +:+ ": Added related-skills"),
           {[ "empty" := "---" +:+ NL +:+ "---" +:+ NL ]}).
Proof.
  apply (blank_header false no_yaml
           {[ "empty" := "---" +:+ NL +:+ "---" +:+ NL ]} "empty" NL NL ∅ false);
    [reflexivity|reflexivity|discriminate].
Defined.

(** ** What the builder reads *)

(** The keys of the parsed header the builder looks up. *)
Definition BUILDER_KEYS : list string :=
  ["name"; "description"; "allowed-tools"; "triggers"; "role"; "scope";
   "output-format"].

(** The builder reads seven keys and nothing else: two mappings that agree
    on them are rebuilt to the same header (or both raise).  Whatever else
    the old header held, a license or a key of the author's own, is not in
    the header Pass A writes. *)
Theorem builder_reads_seven_keys (fm fm' : fields) (skill_name : string) :
  (∀ k, k ∈ BUILDER_KEYS → fm !! k = fm' !! k) →
  build_new_frontmatter fm skill_name = build_new_frontmatter fm' skill_name.
Proof.
  intros Hk.
  assert (∀ k, bool_decide (k ∈ BUILDER_KEYS) = true → fm !! k = fm' !! k)
    as Hk'.
  { intros k Hin%bool_decide_eq_true. by apply Hk. }
  unfold build_new_frontmatter, frontmatter_lines, getitem, optional_line,
    triggers_str.
  rewrite (Hk' "name"), (Hk' "description"), (Hk' "allowed-tools"),
    (Hk' "triggers"), (Hk' "role"), (Hk' "scope"), (Hk' "output-format")
    by reflexivity.
  reflexivity.
Qed.

(** A header with a license and a key of its own, and the same without. *)
Definition licensed_fields : fields :=
  {[ "name" := VStr "x"; "description" := VStr "d"; "triggers" := VList ["t"];
     "license" := VStr "Apache-2.0"; "homepage" := VStr "example.org" ]}.

Definition bare_fields : fields :=
  {[ "name" := VStr "x"; "description" := VStr "d"; "triggers" := VList ["t"] ]}.

Lemma builder_reads_seven_keys_witness :
  build_new_frontmatter licensed_fields "x" = build_new_frontmatter bare_fields "x".
Proof.
  apply builder_reads_seven_keys. intros k Hk. unfold BUILDER_KEYS in Hk.
  repeat (apply elem_of_cons in Hk as [->|Hk]; [reflexivity|]).
  by apply not_elem_of_nil in Hk.
Defined.

(** ** A pass that raises *)

Lemma run_loop_app pass pre rest (fs : files) (t : tally) :
  run_loop pass (pre ++ rest) fs t
  = match run_loop pass pre fs t with
    | (fs1, Ret t1) => run_loop pass rest fs1 t1
    | (fs1, Raise) => (fs1, Raise)
    end.
Proof.
  revert fs t. induction pre as [|d pre IH]; intros fs t; [done|].
  simpl. destruct (pass fs d) as [[o fs']|]; [|done]. apply IH.
Qed.

(** The loop that [main] runs: Pass B under [--related-skills], Pass A
    otherwise. *)
Definition run (HAS_PYYAML : bool)
    (safe_load : string → result (option fields)) (related : bool)
    (valid_dirs : gset string) (skill_dirs : list string) (dry : bool)
    (fs : files) : files * result tally :=
  if related
  then run_related_skills HAS_PYYAML safe_load skill_dirs valid_dirs dry fs
  else run_migration HAS_PYYAML safe_load skill_dirs dry fs.

(** A pass that raises ends the run there: the documents written before
    stay written, the documents after it are not looked at, and there is no
    summary. *)
Theorem a_raise_stops_the_run
    (HAS_PYYAML : bool) (safe_load : string → result (option fields))
    (related : bool) (valid_dirs : gset string)
    (pre : list string) (d : string) (rest : list string) (dry : bool)
    (fs fs1 : files) (t : tally) :
  run HAS_PYYAML safe_load related valid_dirs pre dry fs = (fs1, Ret t) →
  (if related
   then migrate_related_skills HAS_PYYAML safe_load fs1 d valid_dirs dry
   else migrate_skill HAS_PYYAML safe_load fs1 d dry) = Raise →
  run HAS_PYYAML safe_load related valid_dirs (pre ++ d :: rest) dry fs
  = (fs1, Raise).
Proof.
  unfold run, run_related_skills, run_migration.
  destruct related; intros Hpre Hd; rewrite run_loop_app, Hpre; simpl;
    by rewrite Hd.
Qed.

(** A reader that raises on a header that holds a tab. *)
Definition strict_yaml (y : string) : result (option fields) :=
  if mem_char "009" y then Raise else Ret (Some (simple_parse y)).

Definition tabbed_doc : string :=
  "---" +:+ NL +:+ "name:" +:+ String "009" "x" +:+ NL +:+ "---" +:+ NL.

Lemma a_raise_stops_the_run_witness :
  run true strict_yaml false ∅ (["react-expert"] ++ "tabbed" :: ["vue-expert"])
    false {[ "react-expert" := sample_doc; "tabbed" := tabbed_doc;
             "vue-expert" := sample_doc ]}
  = (<["react-expert" := migrated_doc]>
       {[ "react-expert" := sample_doc; "tabbed" := tabbed_doc;
          "vue-expert" := sample_doc ]}, Raise).
Proof.
  apply (a_raise_stops_the_run true strict_yaml false ∅ ["react-expert"]
           "tabbed" ["vue-expert"] false _ _ (Tally 1 0 0));
    vm_compute; reflexivity.
Defined.

(** ** Pass A and the body *)

(** Pass A replaces the header and nothing else: the document it writes is
    the rebuilt header, which starts and ends with a marker line, followed
    at once by the old body, everything that stood after the second marker
    of the old text. *)
Theorem pass_a_replaces_the_header
    (HAS_PYYAML : bool) (safe_load : string → result (option fields))
    (fs : files) (d content body : string) (fm : fields) :
  fs !! d = Some content →
  parse_frontmatter HAS_PYYAML safe_load content = Ret (Some fm, body) →
  fm !! "metadata" = None →
  first_missing fm = None →
  ∃ y inner,
    content = "---" +:+ y +:+ "---" +:+ body
    ∧ ¬ occurs "---" y
    ∧ frontmatter_lines fm d = Ret ("---" :: inner ++ ["---"])
    ∧ migrate_skill HAS_PYYAML safe_load fs d false
      = Ret ((true, d +:+ ": Migrated"),
             <[d := "---" +:+ NL +:+ join NL inner +:+ NL +:+ "---" +:+ body]> fs).
Proof.
  intros Hfs Hp Hmeta Hmiss.
  destruct (parse_frontmatter_header _ _ _ _ _ Hp) as (y & Hh & _).
  pose proof (proj1 (first_missing_None fm) Hmiss) as ([name Hn] & [desc Hd] & _).
  exists y, (inner_lines fm d name desc).
  assert (frontmatter_lines fm d
          = Ret ("---" :: inner_lines fm d name desc ++ ["---"])) as Hlines.
  { unfold frontmatter_lines, getitem. rewrite Hn, Hd.
    cbn [mbind result_bind]. unfold inner_lines.
    by rewrite <- !(assoc_L (++)). }
  split_and!; [by destruct Hh|by eapply header_of_free|done|].
  unfold migrate_skill. rewrite Hfs, Hp. cbn [mbind result_bind].
  rewrite Hmeta. rewrite bool_decide_eq_false_2 by by intros [? ?].
  rewrite Hmiss. unfold build_new_frontmatter. rewrite Hlines. cbn [mbind result_bind].
  do 3 f_equal. rewrite join_wrap by done.
  rewrite (join_app NL (inner_lines fm d name desc)) by done.
  change (join NL [""]) with "". by rewrite str_app_nil_r, !str_app_assoc.
Qed.

Lemma pass_a_replaces_the_header_witness :
  ∃ y inner,
    sample_doc = "---" +:+ y +:+ "---" +:+ sample_body
    ∧ ¬ occurs "---" y
    ∧ frontmatter_lines (simple_parse sample_yaml) "react-expert"
      = Ret ("---" :: inner ++ ["---"])
    ∧ migrate_skill false no_yaml {[ "react-expert" := sample_doc ]}
        "react-expert" false
      = Ret ((true, "react-expert" +:+ ": Migrated"),
             <["react-expert" :=
                 "---" +:+ NL +:+ join NL inner +:+ NL +:+ "---"
                 +:+ sample_body]> {[ "react-expert" := sample_doc ]}).
Proof.
  apply (pass_a_replaces_the_header false no_yaml
           {[ "react-expert" := sample_doc ]} "react-expert" sample_doc
           sample_body (simple_parse sample_yaml));
    vm_compute; reflexivity.
Defined.

(** ** The splice on a text that does not start with the marker *)

(** The splice cuts at the first two markers wherever they stand and puts
    the text together again from the second part on: on a text with
    something before its first marker, and a header without the text
    "  related-skills:", that something is not in the result.  (Pass B
    gives the splice only texts the parser took a header from, which start
    with the marker.) *)
Theorem splice_drops_what_precedes_the_marker (a y body rs : string) :
  ¬ occurs "---" (a +:+ "--") →
  ¬ occurs "---" (y +:+ "--") →
  ¬ occurs "  related-skills:" y →
  add_related_skills_to_frontmatter (a +:+ "---" +:+ y +:+ "---" +:+ body) rs
  = "---" +:+ join NL (splice_lines rs (split_lines y)) +:+ "---" +:+ body.
Proof.
  intros Ha Hy Hm. unfold add_related_skills_to_frontmatter, split2.
  rewrite (partition_first a) by done. rewrite (partition_first y) by done.
  by rewrite (proj2 (contains_false _ _) Hm).
Qed.

Lemma splice_drops_what_precedes_the_marker_witness :
  add_related_skills_to_frontmatter
    ("Draft" +:+ NL +:+ "---" +:+ (NL +:+ "  role: x" +:+ NL) +:+ "---" +:+ "Body")
    "a, b"
  = "---"
    +:+ join NL (splice_lines "a, b" (split_lines (NL +:+ "  role: x" +:+ NL)))
    +:+ "---" +:+ "Body".
Proof.
  apply (splice_drops_what_precedes_the_marker ("Draft" +:+ NL)
           (NL +:+ "  role: x" +:+ NL) "Body" "a, b");
    apply contains_false; vm_compute; reflexivity.
Defined.

(** * The order of the directories *)

Section Order.

Implicit Types (fs : files) (d : string) (c : option string) (t : tally)
  (o : outcome).

(** A file system with the one document [d], or with none. *)
Definition single (d : string) (c : option string) : files :=
  match c with
  | Some x => {[ d := x ]}
  | None => ∅
  end.

Definition put (d : string) (c : option string) (fs : files) : files :=
  match c with
  | Some x => <[d := x]> fs
  | None => fs
  end.

(** A pass that looks at its own document only and does not raise. *)
Definition local (pass : files → string → result (outcome * files)) : Prop :=
  ∀ fs d, ∃ o c,
    pass (single d (fs !! d)) d = Ret (o, single d c)
    ∧ pass fs d = Ret (o, put d c fs)
    ∧ (c = None → fs !! d = None).

Lemma count_comm t o1 o2 : count (count t o1) o2 = count (count t o2) o1.
Proof.
  destruct t as [a b e], o1 as [[] m1], o2 as [[] m2]; unfold count;
    repeat match goal with
           | |- context [contains "skipped" ?m] => destruct (contains "skipped" m)
           end; reflexivity.
Qed.

Lemma single_lookup d c : single d c !! d = c.
Proof. destruct c; [apply lookup_singleton_eq|apply lookup_empty]. Qed.

Lemma put_lookup_ne d d' c fs : d' ≠ d → put d c fs !! d' = fs !! d'.
Proof. intros Hne. destruct c; [by apply lookup_insert_ne|done]. Qed.

Lemma put_comm d1 d2 c1 c2 fs :
  d1 ≠ d2 → put d2 c2 (put d1 c1 fs) = put d1 c1 (put d2 c2 fs).
Proof.
  intros Hne. destruct c1, c2; simpl; try done. by apply insert_insert_ne.
Qed.

Variable pass : files → string → result (outcome * files).
Hypothesis pass_local : local pass.

(** What the pass does to [d] depends on the document [d] alone. *)
Lemma local_agree fs fs2 d o c :
  fs !! d = fs2 !! d → pass fs d = Ret (o, put d c fs) →
  (c = None → fs !! d = None) →
  ∃ c2, pass fs2 d = Ret (o, put d c2 fs2) ∧ put d c2 fs2 = put d c fs2.
Proof.
  intros Heq Hp Hc.
  destruct (pass_local fs d) as (o1 & c1 & Hs1 & Hp1 & Hn1).
  destruct (pass_local fs2 d) as (o2 & c2 & Hs2 & Hp2 & Hn2).
  rewrite <- Heq, Hs1 in Hs2. injection Hs2 as <- Hc12.
  assert (c1 = c2) as <-.
  { apply (f_equal (fun m : files => m !! d)) in Hc12.
    by rewrite !single_lookup in Hc12. }
  rewrite Hp1 in Hp. injection Hp as <- Hput.
  exists c1. split; [done|].
  apply (f_equal (fun m : files => m !! d)) in Hput.
  destruct c1 as [x|], c as [y|]; simpl in *.
  - rewrite !lookup_insert_eq in Hput. by injection Hput as ->.
  - rewrite (Hc eq_refl) in Hput. by rewrite lookup_insert_eq in Hput.
  - rewrite (Hn1 eq_refl) in Hput. by rewrite lookup_insert_eq in Hput.
  - done.
Qed.

Lemma run_loop_swap d1 d2 rest fs t :
  d1 ≠ d2 →
  run_loop pass (d1 :: d2 :: rest) fs t = run_loop pass (d2 :: d1 :: rest) fs t.
Proof.
  intros Hne. cbn [run_loop].
  destruct (pass_local fs d1) as (o1 & c1 & _ & Hp1 & Hn1).
  destruct (pass_local fs d2) as (o2 & c2 & _ & Hp2 & Hn2).
  rewrite Hp1, Hp2.
  destruct (local_agree fs (put d1 c1 fs) d2 o2 c2) as (c2' & -> & ->);
    [by rewrite put_lookup_ne|done..|].
  destruct (local_agree fs (put d2 c2 fs) d1 o1 c1) as (c1' & -> & ->);
    [by rewrite put_lookup_ne|done..|].
  by rewrite put_comm, count_comm.
Qed.

Lemma run_loop_permutation dirs dirs' fs t :
  NoDup dirs → dirs ≡ₚ dirs' →
  run_loop pass dirs fs t = run_loop pass dirs' fs t.
Proof.
  intros Hnd Hperm. revert fs t.
  induction Hperm as [|x l l' Hperm IH|x y l|l l' l'' H1 IH1 H2 IH2];
    intros fs t.
  - done.
  - apply NoDup_cons in Hnd as [_ Hnd]. cbn [run_loop].
    destruct (pass fs x) as [[o fs']|]; [|done]. by apply IH.
  - apply run_loop_swap. apply NoDup_cons in Hnd as [Hy _].
    intros ->. apply Hy, list_elem_of_here.
  - rewrite IH1 by done. apply IH2. by rewrite <- H1.
Qed.

End Order.

Section LocalPasses.

Variable safe_load : string → result (option fields).

Lemma migrate_skill_local dry :
  local (fun fs d => migrate_skill false safe_load fs d dry).
Proof.
  intros fs d. unfold migrate_skill. rewrite single_lookup.
  destruct (fs !! d) as [content|] eqn:Hfs.
  2:{ exists (false, d +:+ ": SKILL.md not found"), None. done. }
  pose proof (parse_frontmatter_fallback_returns safe_load content) as Hp.
  destruct (parse_frontmatter false safe_load content) as [[[fm|] body]|];
    cbn [mbind result_bind]; [| |done].
  2:{ eexists _, (Some content). simpl. by rewrite insert_id. }
  case_bool_decide as Hmeta.
  { eexists _, (Some content). simpl. by rewrite insert_id. }
  destruct (first_missing fm) as [field|] eqn:Hmiss.
  { eexists _, (Some content). simpl. by rewrite insert_id. }
  pose proof (build_new_frontmatter_returns fm d Hmiss) as Hb.
  destruct (build_new_frontmatter fm d) as [hdr|]; cbn [mbind result_bind];
    [|done].
  destruct dry.
  - eexists _, (Some content). simpl. by rewrite insert_id.
  - eexists _, (Some (hdr +:+ body)). simpl.
    by rewrite insert_singleton_eq.
Qed.

Lemma migrate_related_skills_local valid dry :
  local (fun fs d => migrate_related_skills false safe_load fs d valid dry).
Proof.
  intros fs d. unfold migrate_related_skills. rewrite single_lookup.
  destruct (fs !! d) as [content|] eqn:Hfs.
  2:{ exists (false, d +:+ ": SKILL.md not found"), None. done. }
  pose proof (parse_frontmatter_fallback_returns safe_load content) as Hp.
  destruct (parse_frontmatter false safe_load content) as [[[fm|] body]|];
    cbn [mbind result_bind]; [| |done].
  2:{ eexists _, (Some content). simpl. by rewrite insert_id. }
  destruct (has_related_skills fm).
  { eexists _, (Some content). simpl. by rewrite insert_id. }
  destruct dry.
  - eexists _, (Some content). simpl. by rewrite insert_id.
  - eexists _, (Some _). simpl. by rewrite insert_singleton_eq.
Qed.

End LocalPasses.

(** * Documents that cannot be read *)

(** What stands at [skills/<name>/SKILL.md]: a text, as [read_text]
    returns it, or something [read_text] raises on: bytes that do not
    decode, a directory of that name, a file that may not be opened. *)
Inductive stored :=
| Text (content : string)
| Unreadable.

Abbreviation disk := (gmap string stored).

(** The documents [read_text] returns a text for. *)
Definition texts (dk : disk) : files :=
  omap (fun s => match s with Text c => Some c | Unreadable => None end) dk.

(** A pass with the error of [read_text].  The pass looks whether the
    document exists, then reads it: on a document that cannot be read it
    raises; on a text it goes on as [pass] does, and what [pass] writes to
    the document is written to the disk. *)
Definition on_disk (pass : files → string → result (outcome * files))
    (dk : disk) (d : string) : result (outcome * disk) :=
  match dk !! d with
  | Some Unreadable => Raise
  | _ =>
      r ← pass (texts dk) d;
      Ret (r.1, match r.2 !! d with
                | Some c => <[d := Text c]> dk
                | None => dk
                end)
  end.

(** The loop of [main], on a disk. *)
Fixpoint run_loop_on_disk (pass : disk → string → result (outcome * disk))
    (skill_dirs : list string) (dk : disk) (t : tally)
    : disk * result tally :=
  match skill_dirs with
  | [] => (dk, Ret t)
  | d :: rest =>
      match pass dk d with
      | Raise => (dk, Raise)
      | Ret (o, dk') => run_loop_on_disk pass rest dk' (count t o)
      end
  end.

(** The loop [main] runs: Pass B under [--related-skills], Pass A
    otherwise. *)
Definition run_on_disk (HAS_PYYAML : bool)
    (safe_load : string → result (option fields)) (related : bool)
    (valid_dirs : gset string) (skill_dirs : list string) (dry : bool)
    (dk : disk) : disk * result tally :=
  run_loop_on_disk
    (on_disk (if related
              then fun fs d =>
                     migrate_related_skills HAS_PYYAML safe_load fs d
                       valid_dirs dry
              else fun fs d => migrate_skill HAS_PYYAML safe_load fs d dry))
    skill_dirs dk (Tally 0 0 0).

(** What [SKILLS_DIR] is: nothing ([exists()] is false), something
    [iterdir()] raises on (a file of that name), or a directory with its
    entries. *)
Inductive listing :=
| no_directory
| not_a_directory
| listed (entries : list (string * bool)).

(** [main], with the errors of [iterdir] and [read_text]. *)
Definition main_on_disk (HAS_PYYAML : bool)
    (safe_load : string → result (option fields)) (a : args) (l : listing)
    (dk : disk) : disk * result ending :=
  match l with
  | no_directory => (dk, Ret no_skills_dir)
  | not_a_directory => (dk, Raise)
  | listed es =>
      match select (skill a) (sorted (visible_dirs es)) with
      | None => (dk, Ret skill_not_found)
      | Some skill_dirs =>
          let all_skill_dirs : gset string := list_to_set (visible_dirs es) in
          let '(dk', r) :=
            run_on_disk HAS_PYYAML safe_load (related_skills a) all_skill_dirs
              skill_dirs (dry_run a) dk in
          (dk',
           t ← r;
           Ret (if related_skills a
                then related_summary t (length skill_dirs)
                else migration_summary (unmapped skill_dirs) t
                       (length skill_dirs)))
      end
  end.

(** A disk with a document that does not decode. *)
Definition sample_disk : disk :=
  {[ "react-expert" := Text sample_doc; "vue-expert" := Unreadable ]}.

Example main_on_disk_sample :
  main_on_disk false no_yaml (Args false None false) (listed sample_entries)
    sample_disk
  = (<["react-expert" := Text migrated_doc]> sample_disk, Raise).
Proof. vm_compute. reflexivity. Qed.

Section OnDisk.

Implicit Types (dk : disk) (fs : files) (d : string) (t : tally).

Variable pass : files → string → result (outcome * files).

Lemma on_disk_unreadable dk d :
  dk !! d = Some Unreadable → on_disk pass dk d = Raise.
Proof. intros H. unfold on_disk. by rewrite H. Qed.

Lemma on_disk_readable dk d :
  (∀ fs d, pass fs d ≠ Raise) → dk !! d ≠ Some Unreadable →
  ∃ o dk', on_disk pass dk d = Ret (o, dk')
           ∧ ∀ d', dk' !! d' = Some Unreadable ↔ dk !! d' = Some Unreadable.
Proof.
  intros Hpass Hd. unfold on_disk.
  specialize (Hpass (texts dk) d).
  destruct (pass (texts dk) d) as [[o fs']|]; [|done].
  assert (∃ o' dk', (r ← Ret (o, fs');
                     Ret (r.1, match r.2 !! d with
                               | Some c => <[d := Text c]> dk
                               | None => dk
                               end)) = Ret (o', dk')
                    ∧ ∀ d', dk' !! d' = Some Unreadable
                            ↔ dk !! d' = Some Unreadable) as Hgoal.
  { cbn [mbind result_bind fst snd]. destruct (fs' !! d) as [c|].
    - eexists _, _. split; [reflexivity|]. intros d'.
      destruct (decide (d' = d)) as [->|Hne].
      + rewrite lookup_insert_eq. split; [done|]. by intros ?.
      + by rewrite lookup_insert_ne.
    - by eexists _, _. }
  destruct (dk !! d) as [[c|]|]; done.
Qed.

Lemma run_loop_on_disk_raises dirs dk t :
  (∀ fs d, pass fs d ≠ Raise) →
  (run_loop_on_disk (on_disk pass) dirs dk t).2 = Raise
  ↔ ∃ d, d ∈ dirs ∧ dk !! d = Some Unreadable.
Proof.
  intros Hpass. revert dk t. induction dirs as [|d dirs IH]; intros dk t.
  - simpl. split; [done|]. by intros (d & ?%not_elem_of_nil & _).
  - cbn [run_loop_on_disk].
    assert (dk !! d = Some Unreadable ∨ dk !! d ≠ Some Unreadable)
      as [Hd|Hd] by (destruct (dk !! d) as [[c|]|]; auto).
    + rewrite (on_disk_unreadable dk d Hd). split; [|done].
      intros _. exists d. split; [apply list_elem_of_here|done].
    + destruct (on_disk_readable dk d Hpass Hd) as (o & dk' & -> & Hkeep).
      rewrite IH. split.
      * intros (d' & Hin & Hd'). exists d'.
        split; [by apply list_elem_of_further|by apply Hkeep].
      * intros (d' & Hin & Hd'). exists d'. split; [|by apply Hkeep].
        apply elem_of_cons in Hin as [->|Hin]; done.
Qed.

(** *** A disk on which every document can be read *)

Definition to_disk (fs : files) : disk := Text <$> fs.

Lemma readable_to_disk dk :
  (∀ d, dk !! d ≠ Some Unreadable) → dk = to_disk (texts dk).
Proof.
  intros Hdk. apply map_eq. intros d. unfold to_disk, texts.
  rewrite lookup_fmap, lookup_omap. specialize (Hdk d).
  by destruct (dk !! d) as [[c|]|].
Qed.

Lemma texts_to_disk fs : texts (to_disk fs) = fs.
Proof.
  apply map_eq. intros d. unfold to_disk, texts.
  rewrite lookup_omap, lookup_fmap. by destruct (fs !! d).
Qed.

Lemma on_disk_to_disk fs d :
  rewrites_in_place pass →
  on_disk pass (to_disk fs) d
  = match pass fs d with
    | Ret (o, fs') => Ret (o, to_disk fs')
    | Raise => Raise
    end.
Proof.
  intros Hpass. unfold on_disk. rewrite texts_to_disk.
  assert (to_disk fs !! d = Text <$> fs !! d) as Hl
    by (unfold to_disk; by rewrite lookup_fmap).
  assert ((r ← pass fs d;
           Ret (r.1, match r.2 !! d with
                     | Some c => <[d := Text c]> (to_disk fs)
                     | None => to_disk fs
                     end))
          = match pass fs d with
            | Ret (o, fs') => Ret (o, to_disk fs')
            | Raise => Raise
            end) as Hgoal.
  { destruct (pass fs d) as [[o fs']|] eqn:Hp; [|done].
    cbn [mbind result_bind fst snd]. do 2 f_equal.
    destruct (Hpass _ _ _ _ Hp) as [->|(content & new & Hfs & ->)].
    - destruct (fs !! d) as [c|] eqn:Hfs; [|done].
      apply insert_id. exact Hl.
    - rewrite lookup_insert_eq. unfold to_disk. by rewrite fmap_insert. }
  rewrite Hl. by destruct (fs !! d).
Qed.

Lemma run_loop_to_disk dirs fs t :
  rewrites_in_place pass →
  run_loop_on_disk (on_disk pass) dirs (to_disk fs) t
  = (to_disk (run_loop pass dirs fs t).1, (run_loop pass dirs fs t).2).
Proof.
  intros Hpass. revert fs t. induction dirs as [|d dirs IH]; intros fs t;
    [done|].
  cbn [run_loop_on_disk run_loop]. rewrite on_disk_to_disk by done.
  destruct (pass fs d) as [[o fs']|]; [|done]. apply IH.
Qed.

End OnDisk.

(** With the fallback parser the script raises when, and only when, it
    comes to a document that cannot be read: for the directories
    [skill_dirs] it goes through, the run ends in an exception of
    [read_text] exactly when one of them holds such a document, and ends
    with its summary when none does.  (The parser, the builder, the
    extractor and the splice raise on no text; writing is taken to
    succeed.) *)
Theorem main_fallback_raises_iff_unreadable
    (safe_load : string → result (option fields))
    (a : args) (es : list (string * bool)) (dk : disk)
    (skill_dirs : list string) :
  select (skill a) (sorted (visible_dirs es)) = Some skill_dirs →
  ((main_on_disk false safe_load a (listed es) dk).2 = Raise
   ↔ ∃ d, d ∈ skill_dirs ∧ dk !! d = Some Unreadable)
  ∧ ((∀ d, d ∈ skill_dirs → dk !! d ≠ Some Unreadable) →
     ∃ t, (main_on_disk false safe_load a (listed es) dk).2
          = Ret (if related_skills a
                 then related_summary t (length skill_dirs)
                 else migration_summary (unmapped skill_dirs) t
                        (length skill_dirs))).
Proof.
  intros Hsel. unfold main_on_disk. rewrite Hsel. cbv zeta.
  unfold run_on_disk.
  set (pass := if related_skills a
               then fun fs d =>
                      migrate_related_skills false safe_load fs d
                        (list_to_set (visible_dirs es)) (dry_run a)
               else fun fs d => migrate_skill false safe_load fs d (dry_run a)).
  assert (∀ fs d, pass fs d ≠ Raise) as Hpass.
  { intros fs d. unfold pass. destruct (related_skills a).
    - apply migrate_related_skills_returns.
    - apply migrate_skill_returns. }
  pose proof (run_loop_on_disk_raises pass skill_dirs dk (Tally 0 0 0) Hpass)
    as Hraise.
  destruct (run_loop_on_disk (on_disk pass) skill_dirs dk (Tally 0 0 0))
    as [dk' [t|]]; simpl in *.
  - split.
    + split; [done|]. intros H. by apply Hraise in H.
    + intros _. by exists t.
  - split.
    + split; [by intros _; apply Hraise|done].
    + intros Hall. destruct (proj1 Hraise eq_refl) as (d & Hin & Hd).
      by destruct (Hall d Hin).
Qed.

Lemma main_fallback_raises_iff_unreadable_witness :
  ((main_on_disk false no_yaml (Args false None false) (listed sample_entries)
      sample_disk).2 = Raise
   ↔ ∃ d, d ∈ ["react-expert"; "vue-expert"]
          ∧ sample_disk !! d = Some Unreadable)
  ∧ ((∀ d, d ∈ ["react-expert"; "vue-expert"] →
           sample_disk !! d ≠ Some Unreadable) →
     ∃ t, (main_on_disk false no_yaml (Args false None false)
             (listed sample_entries) sample_disk).2
          = Ret (if related_skills (Args false None false)
                 then related_summary t (length ["react-expert"; "vue-expert"])
                 else migration_summary
                        (unmapped ["react-expert"; "vue-expert"]) t
                        (length ["react-expert"; "vue-expert"]))).
Proof.
  apply (main_fallback_raises_iff_unreadable no_yaml (Args false None false)
           sample_entries sample_disk ["react-expert"; "vue-expert"]).
  vm_compute. reflexivity.
Defined.

(** With the fallback parser, and when every document can be read, the
    order of the directories does not matter: over two lists that hold the
    same distinct names in any order, the run (Pass A, or Pass B under
    [--related-skills]) leaves the same documents and the same counters.
    Each pass reads and writes the document of its own skill only, and on
    texts none raises. *)
Theorem run_order_does_not_matter_when_readable
    (safe_load : string → result (option fields))
    (related : bool) (valid_dirs : gset string)
    (skill_dirs skill_dirs' : list string) (dry : bool) (dk : disk) :
  NoDup skill_dirs →
  skill_dirs ≡ₚ skill_dirs' →
  (∀ d, dk !! d ≠ Some Unreadable) →
  run_on_disk false safe_load related valid_dirs skill_dirs dry dk
  = run_on_disk false safe_load related valid_dirs skill_dirs' dry dk.
Proof.
  intros Hnd Hperm Hread. unfold run_on_disk.
  set (pass := if related
               then fun fs d =>
                      migrate_related_skills false safe_load fs d valid_dirs dry
               else fun fs d => migrate_skill false safe_load fs d dry).
  assert (rewrites_in_place pass) as Hplace.
  { unfold pass. apply (is_pass_rewrites_in_place false safe_load).
    destruct related; [right; by eexists _, _|left; by eexists]. }
  assert (local pass) as Hlocal.
  { unfold pass. destruct related.
    - apply migrate_related_skills_local.
    - apply migrate_skill_local. }
  rewrite (readable_to_disk dk Hread), !run_loop_to_disk by done.
  by rewrite (run_loop_permutation pass Hlocal skill_dirs skill_dirs').
Qed.

Lemma run_order_does_not_matter_when_readable_witness :
  run_on_disk false no_yaml false ∅ ["react-expert"; "lonely"] false
    {[ "react-expert" := Text sample_doc; "lonely" := Text no_triggers_doc ]}
  = run_on_disk false no_yaml false ∅ ["lonely"; "react-expert"] false
      {[ "react-expert" := Text sample_doc; "lonely" := Text no_triggers_doc ]}.
Proof.
  apply run_order_does_not_matter_when_readable.
  - apply (bool_decide_unpack _). vm_compute. exact I.
  - apply perm_swap.
  - intros d. rewrite lookup_insert_Some, lookup_singleton_Some.
    intros [[_ [=]]|[_ [_ [=]]]].
Defined.

(** With a document that cannot be read the order does matter: the run
    stops at it, and what was written before depends on what came before. *)
Example run_order_matters_when_unreadable :
  run_on_disk false no_yaml false ∅ ["react-expert"; "vue-expert"] false
    sample_disk
  = (<["react-expert" := Text migrated_doc]> sample_disk, Raise)
  ∧ run_on_disk false no_yaml false ∅ ["vue-expert"; "react-expert"] false
      sample_disk
    = (sample_disk, Raise).
Proof. split; vm_compute; reflexivity. Qed.
